(** * Media-Tweaks: the FFmpeg video player (src/FFMpeg.cpp)

    A shallow embedding of [main] and [GetVideoFrameThread]:
    - the setup phase of [main] (opening the container, selecting the video
      stream, deriving the ring buffer's size from the frame rate);
    - the decode worker [GetVideoFrameThread], as a small-step machine over
      its two loops;
    - the paced presentation loop of [main];
    - their interleavings over the shared [VideoContext];
    - the end of [main], which frees what the worker uses.

    The calls into libavformat, libavcodec and libswscale are external: what
    they return is an input of the model. *)

From Stdlib Require Import ZArith QArith Qround String Lia Bool.
From stdpp Require Import base list.

Open Scope Z_scope.

(** ** Machine integers *)

(** [unsigned int] is 32 bits wide. *)
Definition UINT_MODULUS : Z := 2 ^ 32.

(** Conversion to [unsigned int], and arithmetic in it. *)
Definition to_unsigned (z : Z) : Z := z mod UINT_MODULUS.

(** [(unsigned int) -1], the initial value of [videoStreamIndex] and [res]. *)
Definition UINT_MINUS_ONE : Z := to_unsigned (-1).

(** ** Setup phase of [main] (lines 82-137) *)

Module Setup.

Inductive AVMediaType :=
| AVMEDIA_TYPE_VIDEO
| AVMEDIA_TYPE_AUDIO
| AVMEDIA_TYPE_OTHER.

#[global] Instance AVMediaType_eq_dec : EqDecision AVMediaType.
Proof. solve_decision. Defined.

Record AVRational := { num : Z; den : Z }.

(** One entry of [pFormatCtx->streams], with what the codec library answers
    for it: [decoder_found] is [avcodec_find_decoder(...) != NULL] and
    [open2] the result of [avcodec_open2]. *)
Record AVStream := {
  codec_type : AVMediaType;
  decoder_found : bool;
  open2 : Z;
  r_frame_rate : AVRational
}.

(** The container as [main] sees it: the results of [avformat_open_input]
    and [avformat_find_stream_info], and the stream table
    ([nb_streams] is its length); with it, what the allocator answers to
    [new Texture[n]] on line 125: the address of the array, which is never
    null, or [None] when it throws [std::bad_alloc]. *)
Record Container := {
  open_input : Z;
  find_stream_info : Z;
  streams : list AVStream;
  new_textures : Z -> option positive
}.

(** [av_q2d]: [num / (double) den]. The quotient is kept exact; it is not a
    finite number when [den] is 0. For the 32-bit [num] and [den] of an
    [AVRational] the rounding of the division to a [double] does not move the
    quotient across an integer, so the casts below see the same integer
    part. *)
Definition av_q2d (r : AVRational) : option Q :=
  if 0 <? den r then Some (Qmake (num r) (Z.to_pos (den r)))
  else if den r <? 0 then Some (Qmake (- num r) (Z.to_pos (- den r)))
  else None.

(** The casts [(size_t) fps] and [(unsigned int) fps] of a [double]: the
    fractional part is discarded (truncation toward zero); the behaviour is
    undefined, [None], when the truncated value does not fit the type, and
    for the infinities and NaN that a zero denominator gives. [size_t] is
    taken to be 64 bits wide. *)
Definition truncate (q : Q) : Z := Z.quot (Qnum q) (Z.pos (Qden q)).

Definition SIZE_MODULUS : Z := 2 ^ 64.

Definition cast_size_t (q : Q) : option Z :=
  let t := truncate q in
  if (0 <=? t) && (t <? SIZE_MODULUS) then Some t else None.

Definition cast_unsigned (q : Q) : option Z :=
  let t := truncate q in
  if (0 <=? t) && (t <? UINT_MODULUS) then Some t else None.

(** What the stream loop of lines 94-114 leaves behind. *)
Inductive Scan :=
| ScanThrow (msg : string)
| ScanDone (videoStreamIndex res : Z).

(** The loop over the streams, from index [i] on: the first video stream is
    selected, its decoder looked up and opened, and the loop is left. With no
    video stream both variables keep [(unsigned int) -1]. The statement of
    line 101, printed as [hrow], is read as the [throw] it stands for. *)
Fixpoint scan_streams (ss : list AVStream) (i : Z) : Scan :=
  match ss with
  | [] => ScanDone UINT_MINUS_ONE UINT_MINUS_ONE
  | s :: ss' =>
      if decide (codec_type s = AVMEDIA_TYPE_VIDEO) then
        if decoder_found s
        then ScanDone i (to_unsigned (open2 s))
        else ScanThrow "cannot find video codec"
      else scan_streams ss' (i + 1)
  end.

(** What [main] hands to the pipeline. *)
Record Params := {
  p_videoStreamIndex : Z;
  p_fps : Q;
  p_bufferSize : Z
}.

(** How the setup phase ends. Two of the outcomes are executions whose
    behaviour the language leaves undefined from that point on: the model
    stops there and says nothing of what a built program goes on to do (it
    may well go on, and even reach a later [throw] or the pipeline). *)
Inductive Outcome :=
| Thrown (msg : string)
    (** a [throw] of [main] *)
| BadAlloc
    (** [std::bad_alloc], thrown by [new] on line 125 *)
| StreamsOutOfBounds (index : Z)
    (** undefined: [pFormatCtx->streams[index]] read past the stream table
        (line 116) *)
| BadFrameRate
    (** undefined: a cast of a frame rate that the target type cannot hold
        (line 125 or 137) *)
| Ready (p : Params).

(** The outcomes with undefined behaviour. *)
Definition undefined (o : Outcome) : bool :=
  match o with
  | StreamsOutOfBounds _ | BadFrameRate => true
  | _ => false
  end.

(** Lines 125-137, for the frame rate [fps] that [av_q2d] gave ([None]
    when it is not a finite number): the buffer is allocated and its size
    recorded. [videoBuffer] is what [new] returned, compared with [NULL] on
    line 126. *)
Definition allocate (c : Container) (videoStreamIndex : Z) (fps : option Q)
    : Outcome :=
  match fps with
  | None => BadFrameRate
  | Some q =>
      match cast_size_t q with
      | None => BadFrameRate
      | Some count =>
          match new_textures c count with
          | None => BadAlloc
          | Some videoBuffer =>
              if Z.pos videoBuffer =? 0 then Thrown "cannot allocate memory"
              else
                match cast_unsigned q with
                | None => BadFrameRate
                | Some n =>
                    Ready {| p_videoStreamIndex := videoStreamIndex;
                             p_fps := q;
                             p_bufferSize := n |}
                end
          end
      end
  end.

(** Lines 84-137, in the order of the source: the frame rate of
    [streams[videoStreamIndex]] is read on line 116, before
    [videoStreamIndex] is compared with -1 on line 118. [res] is an
    [unsigned int], so the test [res < 0] of line 121 never holds. *)
Definition main_setup (c : Container) : Outcome :=
  if negb (open_input c =? 0) then Thrown "cannot load video from file!"
  else if find_stream_info c <? 0 then Thrown "cannot find stream information!"
  else
    match scan_streams (streams c) 0 with
    | ScanThrow msg => Thrown msg
    | ScanDone videoStreamIndex res =>
        match streams c !! Z.to_nat videoStreamIndex with
        | None => StreamsOutOfBounds videoStreamIndex
        | Some st =>
            let fps := av_q2d (r_frame_rate st) in
            if videoStreamIndex =? UINT_MINUS_ONE
            then Thrown "cannot find video stream!"
            else if to_unsigned res <? 0 then Thrown "cannot open deocder!"
            else allocate c videoStreamIndex fps
        end
    end.

(** The frame rate rounded to the nearest integer, as the specification
    words the buffer's capacity (halves go up). *)
Definition round_nearest (q : Q) : Z := Qfloor (q + (1 # 2)).

End Setup.

(** ** The pipeline: decode worker and presentation loop *)

Module Pipeline.

(** The RGBA picture that [pFrameRGB->data[0]] holds after [sws_scale]. *)
Definition Frame := Z.

(** A slot of the ring buffer: [None] is a texture that was created and
    never updated. *)
Definition Texture := option Frame.

(** One iteration's worth of answers of the external libraries: the packet's
    stream index, the results of [avcodec_send_packet],
    [avcodec_receive_frame] and [sws_scale], and the converted picture. *)
Record Packet := {
  stream_index : Z;
  sent : Z;
  recieved : Z;
  scaled : Z;
  pixels : Frame
}.

(** The container behind [pFormatCtx]: the packets that [av_read_frame]
    delivers with result 0, then the negative code it returns at the end of
    the stream (or on a read error) and the packet it leaves behind, with
    what the decoder answers when it is handed that packet. *)
Record Stream := {
  packets : list Packet;
  eof_code : positive;
  eof_packet : Packet
}.

Definition av_read_frame (st : Stream) (cursor : nat) : Z * Packet :=
  match packets st !! cursor with
  | Some p => (0, p)
  | None => (Z.neg (eof_code st), eof_packet st)
  end.

(** [struct VideoContext], the fields the two loops use. Its declaration is
    not part of the sources; [decoded] and [read] are taken to be
    [unsigned int] like [bufferSize] (cast of line 137). Were they [int],
    every comparison with [bufferSize] would still be made in
    [unsigned int]. *)
Record VideoContext := {
  buffer : list Texture;
  bufferSize : Z;
  decoded : Z;
  read : Z;
  filled : bool;
  ended : bool;
  videoStreamIndex : Z
}.

Definition with_buffer (b : list Texture) (c : VideoContext) : VideoContext :=
  {| buffer := b; bufferSize := bufferSize c; decoded := decoded c;
     read := read c; filled := filled c; ended := ended c;
     videoStreamIndex := videoStreamIndex c |}.

Definition with_decoded (d : Z) (c : VideoContext) : VideoContext :=
  {| buffer := buffer c; bufferSize := bufferSize c; decoded := d;
     read := read c; filled := filled c; ended := ended c;
     videoStreamIndex := videoStreamIndex c |}.

Definition with_read (r : Z) (c : VideoContext) : VideoContext :=
  {| buffer := buffer c; bufferSize := bufferSize c; decoded := decoded c;
     read := r; filled := filled c; ended := ended c;
     videoStreamIndex := videoStreamIndex c |}.

Definition with_filled (f : bool) (c : VideoContext) : VideoContext :=
  {| buffer := buffer c; bufferSize := bufferSize c; decoded := decoded c;
     read := read c; filled := f; ended := ended c;
     videoStreamIndex := videoStreamIndex c |}.

Definition with_ended (e : bool) (c : VideoContext) : VideoContext :=
  {| buffer := buffer c; bufferSize := bufferSize c; decoded := decoded c;
     read := read c; filled := filled c; ended := e;
     videoStreamIndex := videoStreamIndex c |}.

(** Where [GetVideoFrameThread] stands. *)
Inductive WorkerPc :=
| WCreate        (** lines 9-11: the slots are created *)
| WPrimeCheck    (** line 23: condition of the priming loop *)
| WPrimeBody     (** lines 25-41 *)
| WSetFilled     (** line 44 *)
| WStreamCheck   (** line 46: condition of the streaming loop *)
| WStreamGuard   (** line 47: is there a free slot? *)
| WStreamBody    (** lines 48-65 *)
| WSetEnded      (** line 69 *)
| WReturned      (** past line 69: lines 71-72 release the worker's own
                     frames, and the function returns *)
| WFault.        (** a slot index outside the buffer, or a division by zero *)

(** Where [main] stands, once the worker is started. *)
Inductive MainPc :=
| MWaitFilled    (** line 151 *)
| MLoop          (** lines 153-170, between two paced iterations *)
| MTestEnded     (** inside line 161: the window was found open and [read]
                     equal to [decoded]; [ended] is not loaded yet *)
| MExited        (** the [break] of line 162 is taken; what follows, lines
                     172-175, is the subject of [Teardown] *)
| MFault.        (** [read % bufferSize] with [bufferSize] 0, or a slot index
                     outside the buffer *)

#[global] Instance WorkerPc_eq_dec : EqDecision WorkerPc.
Proof. solve_decision. Defined.

#[global] Instance MainPc_eq_dec : EqDecision MainPc.
Proof. solve_decision. Defined.

(** What [window.pollEvent] hands out. *)
Inductive Event := Closed | Resized | OtherEvent.

(** The whole state: the shared [VideoContext] and window, the worker's
    locals ([w_read] is its variable [read], [cursor] the position of
    [pFormatCtx] in the container), and two logs: the pictures handed to
    [Texture::update] and the textures drawn, oldest first. *)
Record World := {
  ctx : VideoContext;
  window_open : bool;
  w_pc : WorkerPc;
  w_read : Z;
  cursor : nat;
  m_pc : MainPc;
  produced : list Frame;
  shown : list Texture
}.

Definition with_ctx (c : VideoContext) (s : World) : World :=
  {| ctx := c; window_open := window_open s; w_pc := w_pc s;
     w_read := w_read s; cursor := cursor s; m_pc := m_pc s;
     produced := produced s; shown := shown s |}.

Definition with_window (b : bool) (s : World) : World :=
  {| ctx := ctx s; window_open := b; w_pc := w_pc s;
     w_read := w_read s; cursor := cursor s; m_pc := m_pc s;
     produced := produced s; shown := shown s |}.

Definition with_w_pc (pc : WorkerPc) (s : World) : World :=
  {| ctx := ctx s; window_open := window_open s; w_pc := pc;
     w_read := w_read s; cursor := cursor s; m_pc := m_pc s;
     produced := produced s; shown := shown s |}.

Definition with_m_pc (pc : MainPc) (s : World) : World :=
  {| ctx := ctx s; window_open := window_open s; w_pc := w_pc s;
     w_read := w_read s; cursor := cursor s; m_pc := pc;
     produced := produced s; shown := shown s |}.

(** ** [GetVideoFrameThread] *)

(** Lines 9-11: [buffer[i].create(...)] for every [i < n]. *)
Fixpoint create_slots (n : nat) (b : list Texture) : list Texture :=
  match n with
  | O => b
  | S k => <[k := None]> (create_slots k b)
  end.

(** [buffer[index].update(pFrameRGB->data[0]); decoded++] (lines 36-37 and
    59-61). *)
Definition store_frame (index : Z) (f : Frame) (s : World) : World :=
  if decide (Z.to_nat index < length (buffer (ctx s)))%nat then
    {| ctx := with_decoded (to_unsigned (decoded (ctx s) + 1))
                (with_buffer (<[Z.to_nat index := Some f]> (buffer (ctx s)))
                   (ctx s));
       window_open := window_open s; w_pc := w_pc s;
       w_read := w_read s; cursor := cursor s; m_pc := m_pc s;
       produced := produced s ++ [f]; shown := shown s |}
  else with_w_pc WFault s.

(** Does the iteration store a picture? Lines 27 and 31 (50 and 54): the
    packet belongs to the selected stream, and the decoder took it and gave
    a frame. The result of [sws_scale] is not looked at. *)
Definition yields_frame (videoStreamIndex : Z) (p : Packet) : bool :=
  (stream_index p =? videoStreamIndex) && ((sent p =? 0) && (recieved p =? 0)).

(** The body shared by the two loops: [av_read_frame], then decode, convert
    and store. [slot] is the index expression of the loop; [None] stands for
    a division by zero in it. The next stop is [next]. *)
Definition loop_body (st : Stream) (slot : VideoContext -> option Z)
    (next : WorkerPc) (s : World) : World :=
  let '(r, p) := av_read_frame st (cursor s) in
  let s1 :=
    {| ctx := ctx s; window_open := window_open s; w_pc := next;
       w_read := r; cursor := S (cursor s); m_pc := m_pc s;
       produced := produced s; shown := shown s |} in
  if yields_frame (videoStreamIndex (ctx s1)) p then
    match slot (ctx s1) with
    | Some i => store_frame i (pixels p) s1
    | None => with_w_pc WFault s1
    end
  else s1.

(** Line 36: [buffer[decoded]]. *)
Definition priming_slot (c : VideoContext) : option Z := Some (decoded c).

(** Line 59: [buffer[decoded % bufferSize]]. *)
Definition streaming_slot (c : VideoContext) : option Z :=
  if bufferSize c =? 0 then None else Some (decoded c mod bufferSize c).

(** One step of the worker. *)
Definition worker_step (st : Stream) (s : World) : World :=
  match w_pc s with
  | WCreate =>
      with_w_pc WPrimeCheck
        (with_ctx (with_buffer
                     (create_slots (Z.to_nat (bufferSize (ctx s)))
                        (buffer (ctx s))) (ctx s)) s)
  | WPrimeCheck =>
      if (decoded (ctx s) <? bufferSize (ctx s)) && (w_read s =? 0)
         && window_open s
      then with_w_pc WPrimeBody s
      else with_w_pc WSetFilled s
  | WPrimeBody => loop_body st priming_slot WPrimeCheck s
  | WSetFilled => with_w_pc WStreamCheck (with_ctx (with_filled true (ctx s)) s)
  | WStreamCheck =>
      if (w_read s =? 0) && window_open s
      then with_w_pc WStreamGuard s
      else with_w_pc WSetEnded s
  | WStreamGuard =>
      if to_unsigned (decoded (ctx s) - read (ctx s)) <? bufferSize (ctx s)
      then with_w_pc WStreamBody s
      else with_w_pc WStreamCheck s
  | WStreamBody => loop_body st streaming_slot WStreamCheck s
  | WSetEnded => with_w_pc WReturned (with_ctx (with_ended true (ctx s)) s)
  | WReturned => s
  | WFault => s
  end.

(** ** The presentation loop of [main] *)

(** Lines 156-159: the pending events are processed; [Closed] closes the
    window. [setPictureParam] is not part of the sources and touches none of
    the state modelled here. *)
Definition handle_event (s : World) (e : Event) : World :=
  match e with
  | Closed => with_window false s
  | Resized => s
  | OtherEvent => s
  end.

Definition poll (evs : list Event) (s : World) : World :=
  fold_left handle_event evs s.

(** Line 161, [!window.isOpen() || param.read == param.decoded &&
    param.ended], as the value it has when the worker does not run while it
    is evaluated. *)
Definition exit_condition (s : World) : bool :=
  negb (window_open s)
  || ((read (ctx s) =? decoded (ctx s)) && ended (ctx s)).

(** Lines 165-168: the texture of slot [read % bufferSize] is drawn and
    [read] incremented. *)
Definition display (s : World) : World :=
  if bufferSize (ctx s) =? 0 then with_m_pc MFault s
  else
    match buffer (ctx s) !! Z.to_nat (read (ctx s) mod bufferSize (ctx s)) with
    | None => with_m_pc MFault s
    | Some t =>
        {| ctx := with_read (to_unsigned (read (ctx s) + 1)) (ctx s);
           window_open := window_open s; w_pc := w_pc s;
           w_read := w_read s; cursor := cursor s; m_pc := m_pc s;
           produced := produced s; shown := shown s ++ [t] |}
    end.

(** Line 161 is evaluated from left to right and loads two variables that
    the worker writes, [decoded] and then, when [read] equals it, [ended]:
    the worker may run between the two loads. The first part of a paced
    iteration (lines 154-161, the clock having run out) goes up to the load
    of [decoded], with the events that [pollEvent] delivers in it. *)
Definition first_loads (evs : list Event) (s : World) : World :=
  let s1 := poll evs s in
  if negb (window_open s1) then with_m_pc MExited s1
  else if read (ctx s1) =? decoded (ctx s1) then with_m_pc MTestEnded s1
  else display s1.

(** The rest of it: the load of [ended], and what it leads to. *)
Definition finish_test (s : World) : World :=
  if ended (ctx s) then with_m_pc MExited s
  else display (with_m_pc MLoop s).

(** One paced iteration during which the worker does not run between the
    two loads. *)
Definition tick (evs : list Event) (s : World) : World :=
  let s1 := first_loads evs s in
  match m_pc s1 with
  | MTestEnded => finish_test s1
  | _ => s1
  end.

(** One step of [main] that the worker does not interrupt: a look at
    [filled] while it waits (line 151), a paced iteration afterwards, or
    the rest of one that was interrupted. *)
Definition main_step (evs : list Event) (s : World) : World :=
  match m_pc s with
  | MWaitFilled => if filled (ctx s) then with_m_pc MLoop s else s
  | MLoop => tick evs s
  | MTestEnded => finish_test s
  | MExited => s
  | MFault => s
  end.

(** The same, except that a paced iteration stops after the load of
    [decoded] when [ended] is to be loaded next: the worker is scheduled
    before [main] goes on. *)
Definition main_loads (evs : list Event) (s : World) : World :=
  match m_pc s with
  | MLoop => first_loads evs s
  | _ => main_step evs s
  end.

(** ** Interleavings *)

(** A schedule gives the order in which the two threads take their steps.
    [Main] is a step of [main] during which the worker does not run;
    [MainLoads] lets the worker in between the two loads of line 161. *)
Inductive Action :=
| Worker
| Main (evs : list Event)
| MainLoads (evs : list Event).

Definition step (st : Stream) (s : World) (a : Action) : World :=
  match a with
  | Worker => worker_step st s
  | Main evs => main_step evs s
  | MainLoads evs => main_loads evs s
  end.

Definition run (st : Stream) (sched : list Action) (s : World) : World :=
  fold_left (step st) sched s.

(** The state in which [_beginthread] is called (lines 125-150): [param] is
    zero-initialised, [buffer], [bufferSize], [filled] and [ended] are
    assigned; [videoStreamIndex], [decoded] and [read] are not, and stay 0.
    [opened] is whether the window is open at that moment. *)
Definition init (capacity : Z) (opened : bool) : World :=
  {| ctx := {| buffer := replicate (Z.to_nat capacity) None;
               bufferSize := capacity;
               decoded := 0; read := 0;
               filled := false; ended := false;
               videoStreamIndex := 0 |};
     window_open := opened;
     w_pc := WCreate; w_read := 0; cursor := 0%nat;
     m_pc := MWaitFilled;
     produced := []; shown := [] |}.

(** The state in which [main] starts the worker after a setup that ended
    in [Ready p]: the selected stream's index is not handed over. The
    window is open then: it is created open, and only line 157, inside the
    presentation loop, closes it. *)
Definition start (p : Setup.Params) : World :=
  init (Setup.p_bufferSize p) true.

(** The states of an execution started with [capacity] slots. *)
Definition reachable (st : Stream) (capacity : Z) (opened : bool)
    (s : World) : Prop :=
  exists sched, s = run st sched (init capacity opened).

(** A packet of the selected stream that decodes and converts to [f]. *)
Definition good (f : Frame) : Packet :=
  {| stream_index := 0; sent := 0; recieved := 0; scaled := 1080; pixels := f |}.

(** What is left after a failed read: a blank packet, for which the decoder
    has no frame ([AVERROR_EOF] is -541478725). *)
Definition blank : Packet :=
  {| stream_index := 0; sent := 0; recieved := -541478725; scaled := 0;
     pixels := 0 |}.

(** A file of pictures [fs], one per packet, ending in [AVERROR_EOF]. *)
Definition movie (fs : list Frame) : Stream :=
  {| packets := map good fs; eof_code := 541478725%positive;
     eof_packet := blank |}.

(** The packets the worker gets to see when it reads a stream to its end:
    those delivered with result 0, then the one left by the failing read. *)
Definition reads (st : Stream) : list Packet := packets st ++ [eof_packet st].

(** The number of iterations that store a picture among the reads [ps],
    for a worker that selects stream [i]. *)
Fixpoint frames_in (i : Z) (ps : list Packet) : Z :=
  match ps with
  | [] => 0
  | p :: ps' => (if yields_frame i p then 1 else 0) + frames_in i ps'
  end.

(** The frames a stream has to offer to a worker that selects stream [i]. *)
Definition totalFramesAvailable (st : Stream) (i : Z) : Z :=
  frames_in i (reads st).

End Pipeline.

(** ** The end of [main] (lines 172-175) *)

Module Teardown.
Import Pipeline.

(** How far [main] is past its loop. It does not wait for the worker. *)
Inductive ExitPc :=
| InLoop          (** line 172 is not reached, or not run yet *)
| ContextFreed    (** [avformat_free_context(pFormatCtx)] is done (line 172) *)
| BufferFreed     (** [delete[] param.buffer] is done (line 173) *)
| Returned.       (** [music.stop(); return 0] (lines 174-175): the process
                      ends, and the worker with it *)

(** The pipeline, how far [main] is past it, and whether the worker has
    used what [main] had freed. From such a use on the behaviour of the
    program is undefined, and [world] says nothing of it. *)
Record Process := {
  world : World;
  exit_pc : ExitPc;
  use_after_free : bool
}.

Inductive ProcessAction :=
| Run (a : Action)     (** a step of the pipeline *)
| Leave.               (** the next of lines 172, 173 and 175 *)

(** Does a step of the worker from [pc] use what [main] has freed? The
    container is read by [av_read_frame] (lines 25 and 48), at the head of
    both loop bodies; the slots are written when they are created (line 10)
    and when a picture is stored, after such a read. *)
Definition uses_freed (e : ExitPc) (pc : WorkerPc) : bool :=
  match e, pc with
  | (ContextFreed | BufferFreed), (WPrimeBody | WStreamBody) => true
  | BufferFreed, WCreate => true
  | _, _ => false
  end.

Definition with_exit_pc (e : ExitPc) (p : Process) : Process :=
  {| world := world p; exit_pc := e; use_after_free := use_after_free p |}.

(** Past the loop, the next of lines 172, 173 and 175. *)
Definition leave (p : Process) : Process :=
  match m_pc (world p), exit_pc p with
  | MExited, InLoop => with_exit_pc ContextFreed p
  | MExited, ContextFreed => with_exit_pc BufferFreed p
  | MExited, BufferFreed => with_exit_pc Returned p
  | _, _ => p
  end.

Definition process_step (st : Stream) (p : Process) (a : ProcessAction)
    : Process :=
  match exit_pc p, a with
  | Returned, _ => p
  | _, Leave => leave p
  | e, Run b =>
      {| world := step st (world p) b;
         exit_pc := e;
         use_after_free :=
           use_after_free p
           || match b with
              | Worker => uses_freed e (w_pc (world p))
              | _ => false
              end |}
  end.

Definition process_run (st : Stream) (sched : list ProcessAction)
    (p : Process) : Process :=
  fold_left (process_step st) sched p.

(** [main] starts the worker. *)
Definition launch (capacity : Z) : Process :=
  {| world := init capacity true; exit_pc := InLoop;
     use_after_free := false |}.

End Teardown.

(** ** Concrete inputs *)

Module Examples.
Import Setup Pipeline.

(** The container of a 29.97 frames per second film (30000/1001) whose
    sound track comes first, at 48 frames to the second. *)
Definition ntsc_file : Container :=
  {| open_input := 0; find_stream_info := 0;
     streams := [ {| codec_type := AVMEDIA_TYPE_AUDIO;
                     decoder_found := true; open2 := 0;
                     r_frame_rate := {| num := 48; den := 1 |} |};
                  {| codec_type := AVMEDIA_TYPE_VIDEO;
                     decoder_found := true; open2 := 0;
                     r_frame_rate := {| num := 30000; den := 1001 |} |} ];
     new_textures := fun _ => Some 1%positive |}.

(** The container of a film at 25 frames per second, its only stream. *)
Definition plain_file : Container :=
  {| open_input := 0; find_stream_info := 0;
     streams := [ {| codec_type := AVMEDIA_TYPE_VIDEO;
                     decoder_found := true; open2 := 0;
                     r_frame_rate := {| num := 25; den := 1 |} |} ];
     new_textures := fun _ => Some 1%positive |}.

(** A two-picture film. *)
Definition two_pictures : Stream := movie [10; 11].

(** For a one-slot buffer: the worker primes the buffer (5 steps) and is
    then not scheduled while [main] leaves its wait and runs two paced
    iterations. *)
Definition slow_worker : list Action :=
  repeat Worker 5 ++ repeat (Main []) 3.

(** A three-picture film. *)
Definition three_pictures : Stream := movie [10; 11; 12].

(** For a two-slot buffer: the worker primes the buffer (7 steps), [main]
    leaves its wait and runs three paced iterations, then the worker is
    given twenty steps and [main] one more iteration. *)
Definition late_worker : list Action :=
  repeat Worker 7 ++ repeat (Main []) 4 ++ repeat Worker 20 ++ [Main []].

(** A packet the decoder rejects ([AVERROR_INVALIDDATA]), and one that
    decodes to a frame which [sws_scale] fails to convert
    ([AVERROR(EINVAL)]), the conversion buffer holding [f]. *)
Definition undecodable : Packet :=
  {| stream_index := 0; sent := 0; recieved := -1094995529; scaled := 0;
     pixels := 0 |}.

Definition unconverted (f : Frame) : Packet :=
  {| stream_index := 0; sent := 0; recieved := 0; scaled := -22;
     pixels := f |}.

(** A ten-packet film with packet [k] replaced by [bad]. *)
Definition spoiled (k : nat) (bad : Packet) : Stream :=
  {| packets := <[k := bad]> (map good [10; 11; 12; 13; 14; 15; 16; 17; 18; 19]);
     eof_code := 541478725%positive; eof_packet := blank |}.

(** A worker that keeps ahead: twenty steps to prime the buffer, [main]
    leaves its wait, then six steps of the worker after every paced
    iteration of [main]. *)
Definition steady : list Action :=
  repeat Worker 20 ++ [Main []]
  ++ concat (repeat (Main [] :: repeat Worker 6) 11).

(** An empty film: the first [av_read_frame] reports the end of the
    stream. *)
Definition no_pictures : Stream := movie [].

(** The worker primes (5 steps); [main] leaves its wait and runs a paced
    iteration before the worker goes on and returns; [main] runs five more
    iterations. *)
Definition early_main : list Action :=
  repeat Worker 5 ++ [Main []; Main []] ++ repeat Worker 2
  ++ repeat (Main []) 5.

(** A packet the decoder takes without giving a frame yet
    ([AVERROR(EAGAIN)]). *)
Definition waiting : Packet :=
  {| stream_index := 0; sent := 0; recieved := -11; scaled := 0;
     pixels := 0 |}.

(** What a decoder that holds back [d] pictures answers when it is fed the
    pictures [fs], one per packet: nothing for the first [d] packets, then
    the pictures in order, each [d] packets late; handed the blank packet
    after the failing read, it gives the first of the pictures it still
    holds. *)
Definition held_back (d : nat) (fs : list Frame) : Stream :=
  {| packets := repeat waiting (Nat.min d (length fs))
                ++ map good (take (length fs - d) fs);
     eof_code := 541478725%positive;
     eof_packet := match drop (length fs - d) fs with
                   | f :: _ => good f
                   | [] => blank
                   end |}.

(** The packets of a film whose pictures [fs] travel in stream 1, behind
    a sound track in stream 0. *)
Definition behind_sound (fs : list Frame) : Stream :=
  {| packets := map (fun f => {| stream_index := 1; sent := 0;
                                 recieved := 0; scaled := 1080;
                                 pixels := f |}) fs;
     eof_code := 541478725%positive; eof_packet := blank |}.

(** The ten-picture film. *)
Definition ten_pictures : Stream :=
  movie [10; 11; 12; 13; 14; 15; 16; 17; 18; 19].

(** For a five-slot buffer and the ten-picture film. The worker primes the
    buffer; [main] leaves its wait and draws five pictures; the worker
    stores four more; [main] draws these, and in its next paced iteration
    finds the window open and [read] equal to [decoded]. *)
Definition caught_up : list Action :=
  repeat Worker 20 ++ repeat (Main []) 6 ++ repeat Worker 12
  ++ repeat (Main []) 4 ++ [MainLoads []].

(** Before [main] loads [ended], the worker stores the last picture, reads
    the end of the stream and returns. Then [main] goes on. *)
Definition interrupted_test : list Action :=
  caught_up ++ repeat Worker 7 ++ [Main []].

(** The ten-picture film through five slots. The worker primes the buffer
    and [main] draws a picture; the worker is about to read the next packet
    when an event closes the window and [main] leaves its loop and frees
    the container; then the worker goes on. *)
Definition closed_in_mid_film : list Teardown.ProcessAction :=
  map Teardown.Run
    (repeat Worker 20 ++ [Main []; Main []; Worker; Main [Closed]])
  ++ [Teardown.Leave; Teardown.Run Worker].

(** The same film played to its end by a worker that keeps ahead; [main]
    then runs lines 172 to 175. *)
Definition played_to_the_end : list Teardown.ProcessAction :=
  map Teardown.Run steady ++ repeat Teardown.Leave 3.

End Examples.

(** ** Predicates on states *)

Module Props.
Import Pipeline.

(** The worker has left the priming loop and set [filled]. *)
Definition past_priming (pc : WorkerPc) : bool :=
  match pc with
  | WStreamCheck | WStreamGuard | WStreamBody | WSetEnded | WReturned => true
  | _ => false
  end.

(** The condition under which the presentation loop is meant to end. *)
Definition closed_or_drained (s : World) : Prop :=
  window_open s = false
  \/ (ended (ctx s) = true /\ read (ctx s) = decoded (ctx s)).

(** What holds of the two flags along every execution. *)
Definition flags_inv (s : World) : Prop :=
  (past_priming (w_pc s) = true -> filled (ctx s) = true)
  /\ (w_pc s = WReturned -> ended (ctx s) = true)
  /\ (ended (ctx s) = true -> w_pc s = WReturned)
  /\ (m_pc s = MExited -> window_open s = false \/ ended (ctx s) = true)
  /\ (m_pc s = MTestEnded -> window_open s = true).

(** What holds along every execution started with [capacity] slots and the
    window [opened]: the buffer keeps its size, the worker never leaves the
    buffer, and as long as it is priming [main] waits, [read] is 0 and
    [decoded] counts the frames among the packets read so far. *)
Definition worker_inv (st : Stream) (capacity : Z) (opened : bool)
    (s : World) : Prop :=
  bufferSize (ctx s) = capacity
  /\ length (buffer (ctx s)) = Z.to_nat capacity
  /\ videoStreamIndex (ctx s) = 0
  /\ 0 <= decoded (ctx s)
  /\ w_pc s <> WFault
  /\ (w_pc s = WStreamBody -> 0 < capacity)
  /\ (past_priming (w_pc s) = false ->
      m_pc s = MWaitFilled
      /\ filled (ctx s) = false
      /\ window_open s = opened
      /\ read (ctx s) = 0
      /\ decoded (ctx s) = frames_in 0 (take (cursor s) (reads st))
      /\ decoded (ctx s) <= capacity
      /\ ((w_read s = 0 /\ (cursor s <= length (packets st))%nat)
          \/ (w_read s <> 0 /\ cursor s = S (length (packets st))))
      /\ (w_pc s = WPrimeBody ->
          decoded (ctx s) < capacity /\ w_read s = 0 /\ window_open s = true)
      /\ (w_pc s = WSetFilled ->
          capacity <= decoded (ctx s) \/ w_read s <> 0
          \/ window_open s = false)).

(** The number of steps of the worker, and of [main], in a schedule. *)
Definition is_worker (a : Action) : bool :=
  match a with Worker => true | Main _ | MainLoads _ => false end.

Definition worker_steps (sched : list Action) : nat :=
  length (filter (fun a => is_worker a = true) sched).

Definition is_main (a : Action) : bool := negb (is_worker a).

Definition main_steps (sched : list Action) : nat :=
  length (filter (fun a => is_main a = true) sched).

(** An upper bound on the steps the worker needs to leave the priming
    loop, the window staying open. *)
Definition priming_distance (st : Stream) (s : World) : nat :=
  match w_pc s with
  | WCreate => 2 * length (reads st) + 2
  | WPrimeCheck => 2 * (length (reads st) - cursor s) + 1
  | WPrimeBody => 2 * (length (reads st) - cursor s)
  | _ => 0
  end.

(** An upper bound on the steps the worker needs to set [filled], the
    window staying open. *)
Definition filling_distance (st : Stream) (s : World) : nat :=
  match w_pc s with
  | WCreate | WPrimeCheck | WPrimeBody | WSetFilled =>
      priming_distance st s + 1
  | _ => 0
  end.

(** The worker on its way out once the window is closed: where it may
    stand, and what is known there. *)
Definition closing (s : World) : Prop :=
  window_open s = false
  /\ match w_pc s with
     | WPrimeBody =>
         (Z.to_nat (decoded (ctx s)) < length (buffer (ctx s)))%nat
     | WPrimeCheck | WSetFilled => True
     | WStreamCheck | WSetEnded => filled (ctx s) = true
     | WReturned => filled (ctx s) = true /\ ended (ctx s) = true
     | _ => False
     end.

(** The steps the worker still takes from there. *)
Definition closing_distance (s : World) : nat :=
  match w_pc s with
  | WPrimeBody => 5
  | WPrimeCheck => 4
  | WSetFilled => 3
  | WStreamCheck => 2
  | WSetEnded => 1
  | _ => 0
  end.

(** The iterations of a loop body it still runs. *)
Definition pending_reads (s : World) : nat :=
  match w_pc s with
  | WPrimeBody => 1
  | _ => 0
  end.

(** The presentation loop once the worker has returned from a stream without
    frames and nothing has been drawn. *)
Definition drained (s : World) : Prop :=
  w_pc s = WReturned
  /\ filled (ctx s) = true /\ ended (ctx s) = true
  /\ decoded (ctx s) = 0 /\ read (ctx s) = 0
  /\ shown s = []
  /\ m_pc s <> MFault.

(** The steps [main] still takes from there. *)
Definition exit_distance (s : World) : nat :=
  match m_pc s with
  | MWaitFilled => 3
  | MLoop => 2
  | MTestEnded => 1
  | _ => 0
  end.

(** The presentation loop as long as nothing has been decoded and nothing
    drawn. *)
Definition quiet (s : World) : Prop :=
  decoded (ctx s) = 0 /\ read (ctx s) = 0 /\ shown s = []
  /\ m_pc s <> MFault.

(** The worker with a buffer without slots: it enters neither loop body,
    and gets past its streaming loop only with the window closed. *)
Definition slotless (s : World) : Prop :=
  bufferSize (ctx s) = 0 /\ decoded (ctx s) = 0
  /\ cursor s = 0%nat /\ w_read s = 0
  /\ match w_pc s with
     | WCreate | WPrimeCheck | WSetFilled | WStreamCheck | WStreamGuard =>
         ended (ctx s) = false
     | WSetEnded => ended (ctx s) = false /\ window_open s = false
     | WReturned => window_open s = false
     | _ => False
     end.

(** The producer's half of the ring buffer's bounds after [n] steps:
    [decoded] never runs more than the capacity ahead of [read], and inside
    a loop body there is room for one more frame. *)
Definition producer_inv (capacity : Z) (n : Z) (s : World) : Prop :=
  0 <= read (ctx s) <= n
  /\ 0 <= decoded (ctx s)
  /\ decoded (ctx s) <= read (ctx s) + capacity
  /\ (w_pc s = WPrimeBody \/ w_pc s = WStreamBody ->
      decoded (ctx s) + 1 <= read (ctx s) + capacity).

(** A step that does not draw from an empty buffer: a paced iteration
    leaves the loop, or goes on to load [ended], or finds a frame waiting
    ([read < decoded]). *)
Definition fed (s : World) (a : Action) : bool :=
  match a, m_pc s with
  | Main evs, MLoop =>
      exit_condition (poll evs s) || (read (ctx s) <? decoded (ctx s))
  | MainLoads evs, MLoop =>
      negb (window_open (poll evs s)) || (read (ctx s) <=? decoded (ctx s))
  | (Main _ | MainLoads _), MTestEnded =>
      ended (ctx s) || (read (ctx s) <? decoded (ctx s))
  | _, _ => true
  end.

(** A schedule in which the presentation loop never draws from an empty
    buffer. *)
Fixpoint never_starved (st : Stream) (sched : list Action) (s : World) : bool :=
  match sched with
  | [] => true
  | a :: rest => fed s a && never_starved st rest (step st s a)
  end.

(** A schedule in which the worker never runs between the two loads of
    line 161. *)
Definition uninterrupted (sched : list Action) : bool :=
  forallb (fun a => match a with MainLoads _ => false | _ => true end) sched.

(** What holds of [main] along such a schedule: it has left the loop only
    under the condition of line 161, and is never between the two loads. *)
Definition exit_inv (s : World) : Prop :=
  (m_pc s = MExited -> closed_or_drained s) /\ m_pc s <> MTestEnded.

(** The ring buffer after [n] steps: the counters are in order, the slots
    of the frames not yet read hold them, and what was drawn is what was
    produced, in order, up to [read]. *)
Definition ring_inv (capacity n : Z) (s : World) : Prop :=
  0 <= read (ctx s)
  /\ read (ctx s) <= decoded (ctx s)
  /\ decoded (ctx s) <= read (ctx s) + capacity
  /\ decoded (ctx s) <= n
  /\ Z.of_nat (length (produced s)) = decoded (ctx s)
  /\ shown s = map Some (take (Z.to_nat (read (ctx s))) (produced s))
  /\ (forall (i : nat) (f : Frame),
        read (ctx s) <= Z.of_nat i ->
        produced s !! i = Some f ->
        buffer (ctx s) !! Z.to_nat (Z.of_nat i mod capacity)
        = Some (Some f : Texture))
  /\ (w_pc s = WPrimeBody \/ w_pc s = WStreamBody ->
      decoded (ctx s) + 1 <= read (ctx s) + capacity)
  /\ (w_pc s = WCreate -> produced s = [])
  /\ m_pc s <> MFault.

End Props.

(** ** Reference notions for the setup phase *)

Module SetupSpec.
Import Setup.

(** The first video stream of a stream table, with its index. *)
Definition first_video (ss : list AVStream) : option (nat * AVStream) :=
  list_find (fun s => codec_type s = AVMEDIA_TYPE_VIDEO) ss.

(** The same container with other answers of [avcodec_open2]. *)
Definition reopen (answer : AVStream -> Z) (c : Container) : Container :=
  {| open_input := open_input c;
     find_stream_info := find_stream_info c;
     streams := map (fun s => {| codec_type := codec_type s;
                                 decoder_found := decoder_found s;
                                 open2 := answer s;
                                 r_frame_rate := r_frame_rate s |})
                    (streams c);
     new_textures := new_textures c |}.

(** A film with an audio stream first, then two video streams; the decoder
    of the first video stream fails to open ([AVERROR(EINVAL)]). *)
Definition two_video_streams : Container :=
  {| open_input := 0; find_stream_info := 0;
     streams := [ {| codec_type := AVMEDIA_TYPE_AUDIO; decoder_found := true;
                     open2 := 0;
                     r_frame_rate := {| num := 0; den := 1 |} |};
                  {| codec_type := AVMEDIA_TYPE_VIDEO; decoder_found := true;
                     open2 := -22;
                     r_frame_rate := {| num := 25; den := 1 |} |};
                  {| codec_type := AVMEDIA_TYPE_VIDEO; decoder_found := true;
                     open2 := 0;
                     r_frame_rate := {| num := 50; den := 1 |} |} ];
     new_textures := fun _ => Some 1%positive |}.

(** A film whose first video stream has no decoder, the second has. *)
Definition unknown_codec_first : Container :=
  {| open_input := 0; find_stream_info := 0;
     streams := [ {| codec_type := AVMEDIA_TYPE_VIDEO; decoder_found := false;
                     open2 := 0;
                     r_frame_rate := {| num := 25; den := 1 |} |};
                  {| codec_type := AVMEDIA_TYPE_VIDEO; decoder_found := true;
                     open2 := 0;
                     r_frame_rate := {| num := 50; den := 1 |} |} ];
     new_textures := fun _ => Some 1%positive |}.

End SetupSpec.

(** ** Reference notions for the pipeline *)

Module PipelineSpec.
Import Pipeline Props.

(** The pictures of the reads [ps] that yield a frame, in order, for a
    worker that selects stream [i]. *)
Fixpoint frames_of (i : Z) (ps : list Packet) : list Frame :=
  match ps with
  | [] => []
  | p :: ps' =>
      if yields_frame i p then pixels p :: frames_of i ps'
      else frames_of i ps'
  end.

(** How far the worker has read, and what it has made of it. *)
Definition reads_inv (st : Stream) (s : World) : Prop :=
  produced s = frames_of 0 (take (cursor s) (reads st))
  /\ decoded (ctx s) = to_unsigned (Z.of_nat (length (produced s)))
  /\ ((w_read s = 0 /\ (cursor s <= length (packets st))%nat)
      \/ (w_read s <> 0 /\ cursor s = S (length (packets st))))
  /\ (w_pc s = WPrimeBody \/ w_pc s = WStreamGuard \/ w_pc s = WStreamBody ->
      w_read s = 0)
  /\ (w_pc s = WSetEnded \/ w_pc s = WReturned ->
      w_read s <> 0 \/ window_open s = false).

(** As long as [main] waits it has drawn nothing, and it waits as long as
    [filled] is not set. *)
Definition wait_inv (s : World) : Prop :=
  (m_pc s = MWaitFilled -> shown s = [] /\ read (ctx s) = 0)
  /\ (filled (ctx s) = false -> m_pc s = MWaitFilled).

(** The worker on a film with fewer frames than slots: the failing read
    happens in the priming loop, and the streaming loop is not entered. *)
Definition short_path (st : Stream) (capacity : Z) (s : World) : Prop :=
  worker_inv st capacity true s
  /\ reads_inv st s
  /\ (past_priming (w_pc s) = true ->
      w_read s <> 0
      /\ (w_pc s = WStreamCheck \/ w_pc s = WSetEnded
          \/ w_pc s = WReturned)).

(** The steps the worker still takes on that path. *)
Definition return_distance (st : Stream) (s : World) : nat :=
  match w_pc s with
  | WCreate | WPrimeCheck | WPrimeBody | WSetFilled =>
      priming_distance st s + 3
  | WStreamCheck => 2
  | WSetEnded => 1
  | _ => 0
  end.

(** The worker between two iterations of its streaming loop, or past it,
    with [read] ahead of [decoded] and [budget] steps to go before a counter
    could wrap. *)
Definition overtaken (budget : Z) (s : World) : Prop :=
  0 <= decoded (ctx s) < read (ctx s)
  /\ 0 <= bufferSize (ctx s)
  /\ read (ctx s) + budget + bufferSize (ctx s) < UINT_MODULUS
  /\ (w_pc s = WStreamCheck \/ w_pc s = WStreamGuard
      \/ w_pc s = WSetEnded \/ w_pc s = WReturned).

End PipelineSpec.

(** * Properties of the setup phase *)

Section SetupFacts.
Import Setup SetupSpec.

(** With no video stream the loop of lines 94-114 selects nothing. *)
Lemma scan_streams_no_video (ss : list AVStream) (i : Z) :
  Forall (fun s => codec_type s <> AVMEDIA_TYPE_VIDEO) ss ->
  scan_streams ss i = ScanDone UINT_MINUS_ONE UINT_MINUS_ONE.
Proof.
  intros H. revert i. induction H as [|s ss Hs _ IH]; intros i; simpl.
  - reflexivity.
  - destruct (decide (codec_type s = AVMEDIA_TYPE_VIDEO)); [contradiction|].
    apply IH.
Qed.

Lemma UINT_MINUS_ONE_value : UINT_MINUS_ONE = 4294967295.
Proof. reflexivity. Qed.

(** C7: a container without a video stream does not reach the [throw] of
    line 119. The frame rate of [streams[videoStreamIndex]] is read first
    (line 116), with [videoStreamIndex] still [(unsigned int) -1]: a read
    past the stream table. *)
Theorem no_video_stream_reads_past_streams (c : Container) :
  open_input c = 0 ->
  0 <= find_stream_info c ->
  Forall (fun s => codec_type s <> AVMEDIA_TYPE_VIDEO) (streams c) ->
  Z.of_nat (length (streams c)) < UINT_MODULUS ->
  main_setup c = StreamsOutOfBounds UINT_MINUS_ONE
  /\ main_setup c <> Thrown "cannot find video stream!".
Proof.
  intros Hopen Hinfo Hnone Hlen.
  assert (E : main_setup c = StreamsOutOfBounds UINT_MINUS_ONE).
  { unfold main_setup. rewrite Hopen. simpl.
    destruct (find_stream_info c <? 0) eqn:Hlt; [apply Z.ltb_lt in Hlt; lia|].
    rewrite (scan_streams_no_video _ _ Hnone).
    rewrite (proj2 (lookup_ge_None (streams c) (Z.to_nat UINT_MINUS_ONE))).
    - reflexivity.
    - rewrite UINT_MINUS_ONE_value. unfold UINT_MODULUS in Hlen. lia. }
  split; [exact E|]. rewrite E. discriminate.
Qed.

(** An audio-only file. *)
Lemma no_video_stream_reads_past_streams_witness :
  let c := {| open_input := 0; find_stream_info := 0;
              streams := [ {| codec_type := AVMEDIA_TYPE_AUDIO;
                              decoder_found := true; open2 := 0;
                              r_frame_rate := {| num := 0; den := 1 |} |} ];
              new_textures := fun _ => Some 1%positive |} in
  main_setup c = StreamsOutOfBounds UINT_MINUS_ONE
  /\ main_setup c <> Thrown "cannot find video stream!".
Proof.
  intros c. apply (no_video_stream_reads_past_streams c).
  - reflexivity.
  - simpl. lia.
  - repeat constructor; simpl; discriminate.
  - simpl. unfold UINT_MODULUS. lia.
Defined.

(** The loop of lines 94-114 stops at the first video stream. *)
Lemma scan_streams_first_video (ss : list AVStream) (i : Z) :
  scan_streams ss i
  = match first_video ss with
    | None => ScanDone UINT_MINUS_ONE UINT_MINUS_ONE
    | Some (k, s) =>
        if decoder_found s
        then ScanDone (i + Z.of_nat k) (to_unsigned (open2 s))
        else ScanThrow "cannot find video codec"
    end.
Proof.
  unfold first_video. revert i.
  induction ss as [|s ss IH]; intros i; simpl; [reflexivity|].
  destruct (decide (codec_type s = AVMEDIA_TYPE_VIDEO)); simpl.
  - rewrite Z.add_0_r. reflexivity.
  - rewrite IH.
    destruct (list_find _ ss) as [[k s']|]; simpl; [|reflexivity].
    replace (i + 1 + Z.of_nat k) with (i + Z.of_nat (S k)) by lia.
    reflexivity.
Qed.

Lemma first_video_Some (ss : list AVStream) (k : nat) (st : AVStream) :
  first_video ss = Some (k, st)
  <-> ss !! k = Some st
      /\ codec_type st = AVMEDIA_TYPE_VIDEO
      /\ forall j st', (j < k)%nat -> ss !! j = Some st' ->
                       codec_type st' <> AVMEDIA_TYPE_VIDEO.
Proof.
  unfold first_video. rewrite list_find_Some. split.
  - intros (H1 & H2 & H3). repeat split; auto. intros j st' Hj Hl. eauto.
  - intros (H1 & H2 & H3). repeat split; auto. intros j st' Hl Hj. eauto.
Qed.

Lemma to_unsigned_not_negative (z : Z) : (to_unsigned z <? 0) = false.
Proof.
  apply Z.ltb_ge. unfold to_unsigned.
  apply Z.mod_pos_bound. reflexivity.
Qed.

(** The integer part of a non-negative rate is its floor. *)
Lemma truncate_nonneg (q : Q) : 0 <= Qnum q -> truncate q = Qfloor q.
Proof.
  intros H. destruct q as [a b]. unfold truncate, Qfloor. simpl in *.
  apply Z.quot_div_nonneg; lia.
Qed.

(** A negative rate that the cast accepts lies above -1 and is cut to 0. *)
Lemma truncate_negative (q : Q) :
  Qnum q < 0 -> 0 <= truncate q -> truncate q = 0 /\ - Z.pos (Qden q) < Qnum q.
Proof.
  intros Hneg Hpos. destruct q as [a b]. unfold truncate in *. simpl in *.
  pose proof (Z.quot_opp_l (- a) (Z.pos b) ltac:(lia)) as E.
  rewrite Z.opp_involutive in E.
  assert (H0 : 0 <= (- a) ÷ Z.pos b) by (apply Z.quot_pos; lia).
  assert (Hq : (- a) ÷ Z.pos b = 0) by lia.
  split; [lia|].
  apply Z.quot_small_iff in Hq; lia.
Qed.

(** A number that fits an [unsigned int] fits a [size_t]. *)
Lemma cast_unsigned_size_t (q : Q) (n : Z) :
  cast_unsigned q = Some n -> cast_size_t q = Some n.
Proof.
  unfold cast_unsigned, cast_size_t.
  destruct ((0 <=? truncate q) && (truncate q <? UINT_MODULUS)) eqn:E;
    [|discriminate].
  intros H. apply andb_true_iff in E as [H0 H1].
  apply Z.ltb_lt in H1.
  assert (H2 : (truncate q <? SIZE_MODULUS) = true).
  { apply Z.ltb_lt. unfold UINT_MODULUS in H1. unfold SIZE_MODULUS. lia. }
  now rewrite H0, H2.
Qed.

(** What lines 125-137 need in order to hand over. *)
Lemma allocate_ready (c : Container) (v : Z) (fps : option Q) (p : Params) :
  allocate c v fps = Ready p ->
  p_videoStreamIndex p = v
  /\ fps = Some (p_fps p)
  /\ cast_unsigned (p_fps p) = Some (p_bufferSize p)
  /\ exists a, new_textures c (p_bufferSize p) = Some a.
Proof.
  unfold allocate. intros H.
  destruct fps as [q|]; [|discriminate].
  destruct (cast_size_t q) as [count|] eqn:Hs; [|discriminate].
  destruct (new_textures c count) as [a|] eqn:Ha; [|discriminate].
  simpl in H.
  destruct (cast_unsigned q) as [n|] eqn:Hu; [|discriminate].
  injection H as <-. simpl.
  rewrite (cast_unsigned_size_t _ _ Hu) in Hs. injection Hs as <-.
  repeat split; eauto.
Qed.

(** Setup hands over only for the first video stream of the table. *)
Lemma main_setup_ready (c : Container) (p : Params) :
  main_setup c = Ready p ->
  exists (k : nat) (st : AVStream),
    streams c !! k = Some st
    /\ codec_type st = AVMEDIA_TYPE_VIDEO
    /\ (forall j st', (j < k)%nat -> streams c !! j = Some st' ->
                      codec_type st' <> AVMEDIA_TYPE_VIDEO)
    /\ decoder_found st = true
    /\ p_videoStreamIndex p = Z.of_nat k
    /\ av_q2d (r_frame_rate st) = Some (p_fps p)
    /\ cast_unsigned (p_fps p) = Some (p_bufferSize p)
    /\ exists a, new_textures c (p_bufferSize p) = Some a.
Proof.
  unfold main_setup. rewrite scan_streams_first_video.
  destruct (negb (open_input c =? 0)); [discriminate|].
  destruct (find_stream_info c <? 0); [discriminate|].
  destruct (first_video (streams c)) as [[k st]|] eqn:Hf.
  - apply first_video_Some in Hf as (Hk & Hv & Hmin).
    destruct (decoder_found st) eqn:Hd; [|discriminate].
    rewrite Z.add_0_l, Nat2Z.id, Hk.
    destruct (Z.of_nat k =? UINT_MINUS_ONE); [discriminate|].
    rewrite to_unsigned_not_negative.
    intros H. apply allocate_ready in H as (Hi & Hq & Hc & Ha).
    exists k, st. repeat split; auto.
  - destruct (streams c !! Z.to_nat UINT_MINUS_ONE); [|discriminate].
    rewrite Z.eqb_refl. discriminate.
Qed.

(** What setup does with a file that opens and has stream information, told
    from the first video stream of its table. *)
Lemma main_setup_selects (c : Container) (k : nat) (st : AVStream) :
  Z.of_nat (length (streams c)) < UINT_MODULUS ->
  open_input c = 0 ->
  0 <= find_stream_info c ->
  streams c !! k = Some st ->
  codec_type st = AVMEDIA_TYPE_VIDEO ->
  (forall j st', (j < k)%nat -> streams c !! j = Some st' ->
                 codec_type st' <> AVMEDIA_TYPE_VIDEO) ->
  main_setup c
  = if decoder_found st
    then allocate c (Z.of_nat k) (av_q2d (r_frame_rate st))
    else Thrown "cannot find video codec".
Proof.
  intros Hlen Ho Hi Hk Hv Hmin.
  unfold main_setup. rewrite Ho. simpl.
  destruct (find_stream_info c <? 0) eqn:E; [apply Z.ltb_lt in E; lia|].
  rewrite scan_streams_first_video.
  rewrite (proj2 (first_video_Some (streams c) k st)) by auto.
  destruct (decoder_found st); [|reflexivity].
  rewrite Z.add_0_l, Nat2Z.id, Hk.
  pose proof (lookup_lt_Some _ _ _ Hk) as Hklt.
  assert (Hne : (Z.of_nat k =? UINT_MINUS_ONE) = false).
  { apply Z.eqb_neq. rewrite UINT_MINUS_ONE_value.
    unfold UINT_MODULUS in Hlen. lia. }
  now rewrite Hne, to_unsigned_not_negative.
Qed.

(** C5, as stated, fails: the video stream of this file runs at 30000/1001
    frames per second, 29.97, and the buffer gets 29 slots; the nearest
    integer is 30. *)
Lemma ntsc_capacity_is_not_rounded :
  exists (p : Params) (st : AVStream),
    main_setup Examples.ntsc_file = Ready p
    /\ streams Examples.ntsc_file !! Z.to_nat (p_videoStreamIndex p) = Some st
    /\ codec_type st = AVMEDIA_TYPE_VIDEO
    /\ r_frame_rate st = {| num := 30000; den := 1001 |}
    /\ av_q2d (r_frame_rate st) = Some (p_fps p)
    /\ p_bufferSize p = 29
    /\ round_nearest (p_fps p) = 30
    /\ p_bufferSize p <> round_nearest (p_fps p).
Proof.
  eexists. eexists. split; [reflexivity|].
  split; [reflexivity|]. vm_compute. repeat split; discriminate.
Qed.

(** C5, amended: the capacity is the frame rate of the selected stream, the
    first video stream of the file, with its fractional part cut off. For a
    non-negative rate that is its floor, and it is the nearest integer
    exactly when the fractional part is below one half; a rate between -1
    and 0 gives capacity 0. *)
Theorem capacity_truncates_rate_of_selected_stream (c : Container)
    (p : Params) :
  main_setup c = Ready p ->
  exists (k : nat) (st : AVStream),
    streams c !! k = Some st
    /\ codec_type st = AVMEDIA_TYPE_VIDEO
    /\ (forall j st', (j < k)%nat -> streams c !! j = Some st' ->
                      codec_type st' <> AVMEDIA_TYPE_VIDEO)
    /\ p_videoStreamIndex p = Z.of_nat k
    /\ av_q2d (r_frame_rate st) = Some (p_fps p)
    /\ 0 <= p_bufferSize p < UINT_MODULUS
    /\ p_bufferSize p = truncate (p_fps p)
    /\ ((0 <= p_fps p)%Q ->
        (inject_Z (p_bufferSize p) <= p_fps p)%Q
        /\ (p_fps p < inject_Z (p_bufferSize p) + 1)%Q
        /\ (p_bufferSize p = round_nearest (p_fps p)
            <-> (p_fps p < inject_Z (p_bufferSize p) + (1 # 2))%Q))
    /\ ((p_fps p < 0)%Q -> p_bufferSize p = 0 /\ (- (1) < p_fps p)%Q).
Proof.
  intros H.
  apply main_setup_ready in H
    as (k & st & Hk & Hv & Hmin & _ & Hi & Hfps & H & _).
  exists k, st. do 5 (split; [assumption|]).
  unfold cast_unsigned in H.
  destruct ((0 <=? truncate (p_fps p)) && (truncate (p_fps p) <? UINT_MODULUS))
    eqn:Hr; [|discriminate].
  injection H as Hn. apply andb_true_iff in Hr as [H0 H1].
  apply Z.leb_le in H0. apply Z.ltb_lt in H1.
  split; [lia|]. split; [congruence|]. split.
  - intros Hq.
    assert (Hnum : 0 <= Qnum (p_fps p)).
    { destruct (p_fps p) as [a b]. unfold Qle in Hq. simpl in *. lia. }
    rewrite <- Hn, (truncate_nonneg _ Hnum).
    split; [apply Qfloor_le|]. split.
    + pose proof (Qlt_floor (p_fps p)) as L.
      rewrite inject_Z_plus in L. exact L.
    + unfold round_nearest. split.
      * intros E.
        pose proof (Qlt_floor (p_fps p + (1 # 2))) as L.
        rewrite <- E, inject_Z_plus in L.
        apply (Qplus_lt_l _ _ (1 # 2)).
        eapply Qlt_le_trans; [exact L|].
        rewrite <- Qplus_assoc. apply Qplus_le_r. discriminate.
      * intros L. apply Z.le_antisymm.
        -- apply Qfloor_resp_le.
           rewrite <- (Qplus_0_r (p_fps p)) at 1.
           apply Qplus_le_r. discriminate.
        -- apply Z.lt_succ_r. rewrite Zlt_Qlt.
           eapply Qle_lt_trans; [apply Qfloor_le|].
           unfold Z.succ. rewrite inject_Z_plus.
           apply (Qplus_lt_l _ _ (1 # 2)) in L.
           eapply Qlt_le_trans; [exact L|].
           rewrite <- Qplus_assoc. apply Qplus_le_r. discriminate.
  - intros Hq.
    assert (Hnum : Qnum (p_fps p) < 0).
    { destruct (p_fps p) as [a b]. unfold Qlt in Hq. simpl in *. lia. }
    destruct (truncate_negative _ Hnum H0) as [E L].
    split; [congruence|].
    destruct (p_fps p) as [a b]. unfold Qlt. simpl in *. lia.
Qed.

(** The film at 29.97 frames per second: its second stream is selected,
    and the capacity is cut from that stream's rate. *)
Lemma capacity_truncates_rate_of_selected_stream_witness :
  exists (p : Params) (k : nat) (st : AVStream),
    main_setup Examples.ntsc_file = Ready p
    /\ streams Examples.ntsc_file !! k = Some st
    /\ p_videoStreamIndex p = Z.of_nat k
    /\ av_q2d (r_frame_rate st) = Some (p_fps p)
    /\ p_bufferSize p = truncate (p_fps p).
Proof.
  eexists.
  destruct (capacity_truncates_rate_of_selected_stream Examples.ntsc_file _
              eq_refl) as (k & st & Hk & _ & _ & Hi & Hq & _ & E & _).
  exists k, st. repeat split; assumption.
Defined.

End SetupFacts.

(** * Properties of the pipeline *)

Section Framing.
Import Pipeline.

(** ** What each side leaves alone *)

Lemma poll_fields (evs : list Event) (s : World) :
  ctx (poll evs s) = ctx s /\ w_pc (poll evs s) = w_pc s
  /\ w_read (poll evs s) = w_read s /\ cursor (poll evs s) = cursor s
  /\ m_pc (poll evs s) = m_pc s /\ produced (poll evs s) = produced s
  /\ shown (poll evs s) = shown s.
Proof.
  revert s. induction evs as [|e evs IH]; intros s; [now repeat split|].
  change (poll (e :: evs) s) with (poll evs (handle_event s e)).
  destruct (IH (handle_event s e)) as (-> & -> & -> & -> & -> & -> & ->).
  destruct e; now repeat split.
Qed.

Lemma poll_ctx (evs : list Event) (s : World) : ctx (poll evs s) = ctx s.
Proof. apply poll_fields. Qed.

(** The window is never opened again. *)
Lemma poll_window_closed (evs : list Event) (s : World) :
  window_open s = false -> window_open (poll evs s) = false.
Proof.
  revert s. induction evs as [|e evs IH]; intros s H; [exact H|].
  change (poll (e :: evs) s) with (poll evs (handle_event s e)).
  apply IH. destruct e; simpl; auto.
Qed.

(** Drawing a frame never leaves the loop. *)
Lemma display_pc (s : World) :
  m_pc (display s) = m_pc s \/ m_pc (display s) = MFault.
Proof.
  unfold display. destruct (_ =? 0); simpl; auto.
  destruct (_ !! _); simpl; auto.
Qed.

Lemma with_m_pc_same (s : World) : with_m_pc (m_pc s) s = s.
Proof. now destruct s. Qed.

(** A paced iteration that the worker does not interrupt sees line 161 as
    one test. *)
Lemma tick_spec (evs : list Event) (s : World) :
  m_pc s = MLoop ->
  tick evs s
  = if exit_condition (poll evs s) then with_m_pc MExited (poll evs s)
    else display (poll evs s).
Proof.
  intros Hpc.
  assert (Hp : m_pc (poll evs s) = MLoop)
    by (rewrite <- Hpc; apply poll_fields).
  unfold tick, first_loads, exit_condition.
  destruct (window_open (poll evs s)); simpl; [|reflexivity].
  destruct (read (ctx (poll evs s)) =? decoded (ctx (poll evs s))); simpl.
  - unfold finish_test. simpl.
    destruct (ended (ctx (poll evs s))); simpl; [reflexivity|].
    change (with_m_pc MLoop (with_m_pc MTestEnded (poll evs s)))
      with (with_m_pc MLoop (poll evs s)).
    now rewrite <- Hp, with_m_pc_same.
  - destruct (display_pc (poll evs s)) as [E|E]; rewrite E, ?Hp; reflexivity.
Qed.

(** What [main] does when the worker is let in between the two loads of
    line 161: the same as when it is not, unless the loop is to go on to
    load [ended]. *)
Lemma main_loads_cases (evs : list Event) (s : World) :
  main_loads evs s = main_step evs s
  \/ (m_pc s = MLoop
      /\ window_open s = true
      /\ window_open (poll evs s) = true
      /\ read (ctx s) = decoded (ctx s)
      /\ main_loads evs s = with_m_pc MTestEnded (poll evs s)).
Proof.
  unfold main_loads, main_step.
  destruct (m_pc s) eqn:Hpc; auto.
  rewrite (tick_spec evs s Hpc). unfold first_loads, exit_condition.
  destruct (window_open (poll evs s)) eqn:Hw; simpl; auto.
  destruct (read (ctx (poll evs s)) =? decoded (ctx (poll evs s))) eqn:Hr;
    simpl; auto.
  right. rewrite poll_ctx in Hr. apply Z.eqb_eq in Hr.
  repeat split; auto.
  destruct (window_open s) eqn:Hs; [reflexivity|].
  rewrite (poll_window_closed evs s Hs) in Hw. discriminate.
Qed.

Lemma display_worker_side (s : World) :
  let s' := display s in
  w_pc s' = w_pc s /\ w_read s' = w_read s /\ cursor s' = cursor s
  /\ produced s' = produced s
  /\ buffer (ctx s') = buffer (ctx s)
  /\ bufferSize (ctx s') = bufferSize (ctx s)
  /\ decoded (ctx s') = decoded (ctx s)
  /\ filled (ctx s') = filled (ctx s)
  /\ ended (ctx s') = ended (ctx s)
  /\ videoStreamIndex (ctx s') = videoStreamIndex (ctx s)
  /\ window_open s' = window_open s.
Proof.
  unfold display. destruct (_ =? 0); simpl; [now repeat split|].
  destruct (_ !! _); simpl; now repeat split.
Qed.

(** [main] writes [read], the window and its own position; nothing else. *)
Lemma main_step_worker_side (evs : list Event) (s : World) :
  let s' := main_step evs s in
  w_pc s' = w_pc s /\ w_read s' = w_read s /\ cursor s' = cursor s
  /\ produced s' = produced s
  /\ buffer (ctx s') = buffer (ctx s)
  /\ bufferSize (ctx s') = bufferSize (ctx s)
  /\ decoded (ctx s') = decoded (ctx s)
  /\ filled (ctx s') = filled (ctx s)
  /\ ended (ctx s') = ended (ctx s)
  /\ videoStreamIndex (ctx s') = videoStreamIndex (ctx s).
Proof.
  unfold main_step. destruct (m_pc s) eqn:Hpc; simpl; try now repeat split.
  - destruct (filled (ctx s)) eqn:E; simpl; rewrite ?E; now repeat split.
  - rewrite (tick_spec evs s Hpc).
    destruct (poll_fields evs s) as (Hc & Hw & Hr & Hcu & _ & Hp & _).
    destruct (exit_condition (poll evs s)); simpl.
    + rewrite Hc, Hw, Hr, Hcu, Hp. now repeat split.
    + destruct (display_worker_side (poll evs s))
        as (-> & -> & -> & -> & -> & -> & -> & -> & -> & -> & _).
      rewrite Hc, Hw, Hr, Hcu, Hp. now repeat split.
  - unfold finish_test. destruct (ended (ctx s)) eqn:E; simpl.
    + rewrite E. now repeat split.
    + destruct (display_worker_side (with_m_pc MLoop s))
        as (-> & -> & -> & -> & -> & -> & -> & -> & -> & -> & _).
      simpl. rewrite E. now repeat split.
Qed.

Lemma main_loads_worker_side (evs : list Event) (s : World) :
  let s' := main_loads evs s in
  w_pc s' = w_pc s /\ w_read s' = w_read s /\ cursor s' = cursor s
  /\ produced s' = produced s
  /\ buffer (ctx s') = buffer (ctx s)
  /\ bufferSize (ctx s') = bufferSize (ctx s)
  /\ decoded (ctx s') = decoded (ctx s)
  /\ filled (ctx s') = filled (ctx s)
  /\ ended (ctx s') = ended (ctx s)
  /\ videoStreamIndex (ctx s') = videoStreamIndex (ctx s).
Proof.
  destruct (main_loads_cases evs s) as [E|(_ & _ & _ & _ & E)]; simpl;
    rewrite E; [apply main_step_worker_side|].
  destruct (poll_fields evs s) as (Hc & Hw & Hr & Hcu & _ & Hp & _).
  simpl. rewrite Hc, Hw, Hr, Hcu, Hp. now repeat split.
Qed.

Lemma main_step_window_closed (evs : list Event) (s : World) :
  window_open s = false -> window_open (main_step evs s) = false.
Proof.
  intros H. unfold main_step. destruct (m_pc s) eqn:Hpc; simpl; auto.
  - destruct (filled (ctx s)); simpl; auto.
  - rewrite (tick_spec evs s Hpc).
    pose proof (poll_window_closed evs s H) as Hc.
    destruct (exit_condition (poll evs s)); simpl; auto.
    destruct (display_worker_side (poll evs s))
      as (_ & _ & _ & _ & _ & _ & _ & _ & _ & _ & ->). exact Hc.
  - unfold finish_test. destruct (ended (ctx s)); simpl; auto.
    destruct (display_worker_side (with_m_pc MLoop s))
      as (_ & _ & _ & _ & _ & _ & _ & _ & _ & _ & ->). exact H.
Qed.

Lemma main_loads_window_closed (evs : list Event) (s : World) :
  window_open s = false -> window_open (main_loads evs s) = false.
Proof.
  intros H.
  destruct (main_loads_cases evs s) as [E|(_ & C & _)];
    [rewrite E; now apply main_step_window_closed | congruence].
Qed.

(** While it waits for [filled], [main] changes nothing. *)
Lemma main_step_waiting (evs : list Event) (s : World) :
  m_pc s = MWaitFilled -> filled (ctx s) = false -> main_step evs s = s.
Proof. intros H1 H2. unfold main_step. now rewrite H1, H2. Qed.

Lemma store_frame_main_side (i : Z) (f : Frame) (s : World) :
  let s' := store_frame i f s in
  m_pc s' = m_pc s /\ window_open s' = window_open s /\ shown s' = shown s
  /\ read (ctx s') = read (ctx s)
  /\ bufferSize (ctx s') = bufferSize (ctx s)
  /\ filled (ctx s') = filled (ctx s)
  /\ ended (ctx s') = ended (ctx s)
  /\ videoStreamIndex (ctx s') = videoStreamIndex (ctx s)
  /\ w_read s' = w_read s /\ cursor s' = cursor s.
Proof.
  unfold store_frame. destruct (decide _); simpl; now repeat split.
Qed.

Lemma loop_body_main_side (st : Stream) (slot : VideoContext -> option Z)
    (next : WorkerPc) (s : World) :
  let s' := loop_body st slot next s in
  m_pc s' = m_pc s /\ window_open s' = window_open s /\ shown s' = shown s
  /\ read (ctx s') = read (ctx s)
  /\ bufferSize (ctx s') = bufferSize (ctx s)
  /\ filled (ctx s') = filled (ctx s)
  /\ ended (ctx s') = ended (ctx s)
  /\ videoStreamIndex (ctx s') = videoStreamIndex (ctx s)
  /\ w_read s' = fst (av_read_frame st (cursor s))
  /\ cursor s' = S (cursor s).
Proof.
  unfold loop_body. destruct (av_read_frame st (cursor s)) as [r p]. simpl.
  destruct (yields_frame _ p); [|now repeat split].
  destruct (slot (ctx s)) as [i|]; [|now repeat split].
  match goal with |- context [store_frame i ?f ?w] =>
    destruct (store_frame_main_side i f w) as (-> & -> & -> & -> & -> & -> & -> & -> & -> & ->)
  end.
  now repeat split.
Qed.

(** The worker writes the slots, [decoded], [filled] and [ended]; it leaves
    [read], the window and [main]'s position alone. *)
Lemma worker_step_main_side (st : Stream) (s : World) :
  let s' := worker_step st s in
  m_pc s' = m_pc s /\ window_open s' = window_open s /\ shown s' = shown s
  /\ read (ctx s') = read (ctx s)
  /\ bufferSize (ctx s') = bufferSize (ctx s)
  /\ videoStreamIndex (ctx s') = videoStreamIndex (ctx s).
Proof.
  unfold worker_step. destruct (w_pc s); simpl; try now repeat split.
  - destruct (_ && _); now repeat split.
  - destruct (loop_body_main_side st priming_slot WPrimeCheck s)
      as (-> & -> & -> & -> & -> & _ & _ & -> & _). now repeat split.
  - destruct (_ && _); now repeat split.
  - destruct (_ <? _); now repeat split.
  - destruct (loop_body_main_side st streaming_slot WStreamCheck s)
      as (-> & -> & -> & -> & -> & _ & _ & -> & _). now repeat split.
Qed.

(** The flags only go up. *)
Lemma worker_step_flags (st : Stream) (s : World) :
  (filled (ctx s) = true -> filled (ctx (worker_step st s)) = true)
  /\ (ended (ctx s) = true -> ended (ctx (worker_step st s)) = true).
Proof.
  unfold worker_step. destruct (w_pc s); simpl; auto.
  - destruct (_ && _); auto.
  - destruct (loop_body_main_side st priming_slot WPrimeCheck s)
      as (_ & _ & _ & _ & _ & -> & -> & _). auto.
  - destruct (_ && _); auto.
  - destruct (_ <? _); auto.
  - destruct (loop_body_main_side st streaming_slot WStreamCheck s)
      as (_ & _ & _ & _ & _ & -> & -> & _). auto.
Qed.

Lemma run_snoc (st : Stream) (sched : list Action) (a : Action) (s : World) :
  run st (sched ++ [a]) s = step st (run st sched s) a.
Proof. unfold run. now rewrite fold_left_app. Qed.

Lemma run_app (st : Stream) (sched1 sched2 : list Action) (s : World) :
  run st (sched1 ++ sched2) s = run st sched2 (run st sched1 s).
Proof. unfold run. now rewrite fold_left_app. Qed.

(** Induction over the states of an execution. *)
Lemma reachable_ind (st : Stream) (capacity : Z) (opened : bool)
    (P : World -> Prop) :
  P (init capacity opened) ->
  (forall s a, reachable st capacity opened s -> P s -> P (step st s a)) ->
  forall s, reachable st capacity opened s -> P s.
Proof.
  intros Hinit Hstep s [sched ->].
  induction sched as [|a sched IH] using rev_ind; [exact Hinit|].
  rewrite run_snoc. apply Hstep; [now exists sched | exact IH].
Qed.

(** A property kept by every step, with a distance that every step of one
    side shortens, holds at the end of a schedule with the distance
    shortened by the number of that side's steps. *)
Lemma run_distance (st : Stream) (P : World -> Prop) (d : World -> nat)
    (mine : Action -> bool) :
  (forall s a, P s ->
     P (step st s a)
     /\ (d (step st s a) <= d s - (if mine a then 1 else 0))%nat) ->
  forall sched s, P s ->
    P (run st sched s)
    /\ (d (run st sched s)
        <= d s - length (filter (fun a => mine a = true) sched))%nat.
Proof.
  intros Hstep sched. induction sched as [|a sched IH]; intros s HP.
  - simpl. split; [exact HP | lia].
  - destruct (Hstep s a HP) as [HP' Hd].
    destruct (IH _ HP') as [HP'' Hd'].
    change (run st (a :: sched) s) with (run st sched (step st s a)).
    split; [exact HP''|].
    rewrite filter_cons. destruct (mine a); case_decide; simpl; try congruence; lia.
Qed.

End Framing.

Section Flags.
Import Pipeline Props.

Lemma store_frame_pc (i : Z) (f : Frame) (s : World) :
  w_pc (store_frame i f s) = w_pc s \/ w_pc (store_frame i f s) = WFault.
Proof. unfold store_frame. destruct (decide _); simpl; auto. Qed.

Lemma loop_body_pc (st : Stream) (slot : VideoContext -> option Z)
    (next : WorkerPc) (s : World) :
  w_pc (loop_body st slot next s) = next
  \/ w_pc (loop_body st slot next s) = WFault.
Proof.
  unfold loop_body. destruct (av_read_frame st (cursor s)) as [r p]. simpl.
  destruct (yields_frame _ p); [|now left].
  destruct (slot (ctx s)) as [i|]; [|now right].
  match goal with |- context [store_frame i ?f ?w] =>
    destruct (store_frame_pc i f w) as [E|E]; rewrite E end; auto.
Qed.

Lemma exit_condition_spec (s : World) :
  exit_condition s = true <-> closed_or_drained s.
Proof.
  unfold exit_condition, closed_or_drained.
  rewrite orb_true_iff, andb_true_iff, negb_true_iff, Z.eqb_eq. tauto.
Qed.

(** One paced iteration that the worker does not interrupt leaves the loop
    exactly when, the events processed, the window is closed or the stream
    has ended with every frame read. *)
Lemma tick_exits_iff (evs : list Event) (s : World) :
  m_pc s = MLoop ->
  m_pc (tick evs s) = MExited <-> closed_or_drained (poll evs s).
Proof.
  intros Hpc. rewrite <- exit_condition_spec, (tick_spec evs s Hpc).
  assert (Hp : m_pc (poll evs s) = MLoop)
    by (rewrite <- Hpc; apply poll_fields).
  destruct (exit_condition (poll evs s)); simpl.
  - tauto.
  - split; [|discriminate]. intros H.
    destruct (display_pc (poll evs s)) as [E|E]; rewrite E in H; congruence.
Qed.

Lemma closed_or_drained_poll (evs : list Event) (s : World) :
  closed_or_drained (poll evs s)
  <-> window_open (poll evs s) = false
      \/ (ended (ctx s) = true /\ read (ctx s) = decoded (ctx s)).
Proof. unfold closed_or_drained. now rewrite poll_ctx. Qed.

Lemma flags_inv_init (capacity : Z) (opened : bool) :
  flags_inv (init capacity opened).
Proof. unfold flags_inv. simpl. repeat split; discriminate. Qed.

(** Where a step of the worker leads, and what it does to the flags. *)
Lemma worker_step_pc_flags (st : Stream) (s : World) :
  let s' := worker_step st s in
  match w_pc s with
  | WCreate => w_pc s' = WPrimeCheck
  | WPrimeCheck => w_pc s' = WPrimeBody \/ w_pc s' = WSetFilled
  | WPrimeBody => w_pc s' = WPrimeCheck \/ w_pc s' = WFault
  | WSetFilled => w_pc s' = WStreamCheck
  | WStreamCheck => w_pc s' = WStreamGuard \/ w_pc s' = WSetEnded
  | WStreamGuard => w_pc s' = WStreamBody \/ w_pc s' = WStreamCheck
  | WStreamBody => w_pc s' = WStreamCheck \/ w_pc s' = WFault
  | WSetEnded => w_pc s' = WReturned
  | WReturned | WFault => s' = s
  end
  /\ filled (ctx s') = (if decide (w_pc s = WSetFilled) then true
                        else filled (ctx s))
  /\ ended (ctx s') = (if decide (w_pc s = WSetEnded) then true
                       else ended (ctx s)).
Proof.
  unfold worker_step. destruct (w_pc s) eqn:Hpc; simpl; auto.
  - destruct (_ && _); simpl; auto.
  - destruct (loop_body_main_side st priming_slot WPrimeCheck s)
      as (_ & _ & _ & _ & _ & -> & -> & _).
    split; [apply loop_body_pc | auto].
  - destruct (_ && _); simpl; auto.
  - destruct (_ <? _); simpl; auto.
  - destruct (loop_body_main_side st streaming_slot WStreamCheck s)
      as (_ & _ & _ & _ & _ & -> & -> & _).
    split; [apply loop_body_pc | auto].
Qed.

Lemma worker_step_returned (st : Stream) (s : World) :
  w_pc s = WReturned -> worker_step st s = s.
Proof. intros H. unfold worker_step. now rewrite H. Qed.

Lemma flags_inv_worker (st : Stream) (s : World) :
  flags_inv s -> flags_inv (worker_step st s).
Proof.
  intros (Hf & He & Hr & Hx & Ht).
  destruct (worker_step_main_side st s) as (Em & Ew & _ & Er & _).
  destruct (worker_step_pc_flags st s) as (Hpc & Efl & Een).
  unfold flags_inv. rewrite Em, Ew. split; [|split; [|split; [|split]]].
  - rewrite Efl. destruct (w_pc s) eqn:E; simpl in *;
      repeat case_decide; try discriminate; auto;
      try (destruct Hpc as [-> | ->]; simpl; auto; discriminate);
      try (rewrite Hpc; simpl; auto; discriminate).
    rewrite Hpc, E. auto.
  - rewrite Een. destruct (w_pc s) eqn:E; simpl in *;
      repeat case_decide; try discriminate; auto;
      try (destruct Hpc as [-> | ->]; simpl; auto; discriminate);
      try (rewrite Hpc; simpl; auto; discriminate).
    rewrite Hpc, E. auto.
  - rewrite Een. destruct (w_pc s) eqn:E; simpl in *;
      repeat case_decide; try discriminate; auto;
      try (intros H; specialize (Hr H); discriminate).
    rewrite Hpc, E. auto.
  - intros H. destruct (Hx H) as [C|C]; [now left|].
    right. now apply worker_step_flags.
  - exact Ht.
Qed.

Lemma flags_inv_main (evs : list Event) (s : World) :
  flags_inv s -> flags_inv (main_step evs s).
Proof.
  intros (Hf & He & Hr & Hx & Ht).
  destruct (main_step_worker_side evs s)
    as (Ew & _ & _ & _ & _ & _ & _ & Efl & Een & _).
  unfold flags_inv. rewrite Ew, Efl, Een.
  do 3 (split; [assumption|]).
  unfold main_step. destruct (m_pc s) eqn:Hpc.
  - destruct (filled (ctx s)); simpl; rewrite ?Hpc; split; discriminate.
  - rewrite (tick_spec evs s Hpc).
    assert (Hp : m_pc (poll evs s) = MLoop)
      by (rewrite <- Hpc; apply poll_fields).
    destruct (exit_condition (poll evs s)) eqn:Hc; simpl.
    + split; [|discriminate]. intros _.
      apply exit_condition_spec in Hc. rewrite <- (poll_ctx evs s).
      destruct Hc as [C|[C _]]; auto.
    + destruct (display_pc (poll evs s)) as [E|E]; rewrite E, ?Hp;
        split; discriminate.
  - unfold finish_test. destruct (ended (ctx s)) eqn:E; simpl.
    + split; [auto | discriminate].
    + destruct (display_pc (with_m_pc MLoop s)) as [E'|E']; rewrite E';
        simpl; split; discriminate.
  - rewrite Hpc. split; [exact Hx | discriminate].
  - rewrite Hpc. split; discriminate.
Qed.

Lemma flags_inv_main_loads (evs : list Event) (s : World) :
  flags_inv s -> flags_inv (main_loads evs s).
Proof.
  intros H.
  destruct (main_loads_cases evs s) as [E|(_ & _ & Hw & _ & E)]; rewrite E;
    [now apply flags_inv_main|].
  destruct H as (Hf & He & Hr & _).
  unfold flags_inv. simpl. rewrite (poll_ctx evs s).
  destruct (poll_fields evs s) as (_ & -> & _).
  repeat split; auto; discriminate.
Qed.

Lemma flags_inv_reachable (st : Stream) (capacity : Z) (opened : bool)
    (s : World) :
  reachable st capacity opened s -> flags_inv s.
Proof.
  apply reachable_ind.
  - apply flags_inv_init.
  - intros s' [|evs|evs] _ H;
      [now apply flags_inv_worker | now apply flags_inv_main
      | now apply flags_inv_main_loads].
Qed.

End Flags.

Section ReturnAndExit.
Import Pipeline Props Examples.

(** C9: whenever [GetVideoFrameThread] has returned, whatever made its loops
    stop, [filled] and [ended] are both set. *)
Theorem worker_returned_filled_and_ended (st : Stream) (capacity : Z)
    (opened : bool) (s : World) :
  reachable st capacity opened s ->
  w_pc s = WReturned ->
  filled (ctx s) = true /\ ended (ctx s) = true.
Proof.
  intros Hreach Hpc.
  destruct (flags_inv_reachable _ _ _ _ Hreach) as (Hf & He & _).
  split; [apply Hf; now rewrite Hpc | now apply He].
Qed.

(** The worker returning because the window is closed: nothing was read. *)
Lemma worker_returned_filled_and_ended_witness :
  let s := run two_pictures (repeat Worker 5) (init 1 false) in
  cursor s = 0%nat /\ filled (ctx s) = true /\ ended (ctx s) = true.
Proof.
  intros s. split; [reflexivity|].
  apply (worker_returned_filled_and_ended two_pictures 1 false s).
  - exists (repeat Worker 5). reflexivity.
  - reflexivity.
Defined.

(** The test of line 161 when the worker does not run while it is
    evaluated: a paced iteration leaves the loop if and only if, the pending
    events processed, the window is closed or [ended] is set and [read]
    equals [decoded]. No step of the worker makes [main] leave the loop, and
    whenever [main] has left it the window is closed or [ended] is set. *)
Lemma loop_exit_when_uninterrupted (st : Stream) (capacity : Z)
    (opened : bool) (s : World) (evs : list Event) :
  reachable st capacity opened s ->
  (m_pc s = MLoop ->
     (m_pc (step st s (Main evs)) = MExited
      <-> window_open (poll evs s) = false
          \/ (ended (ctx s) = true /\ read (ctx s) = decoded (ctx s)))
     /\ m_pc (step st s Worker) = MLoop)
  /\ (m_pc s = MExited ->
      window_open s = false \/ ended (ctx s) = true).
Proof.
  intros Hreach. split.
  - intros Hpc. split.
    + simpl. unfold main_step. rewrite Hpc.
      rewrite <- closed_or_drained_poll. now apply tick_exits_iff.
    + simpl. destruct (worker_step_main_side st s) as (-> & _). exact Hpc.
  - intros Hpc. now apply (flags_inv_reachable _ _ _ _ Hreach).
Qed.

(** C4: line 161 loads [decoded] and then [ended], and the worker may run
    in between. In the schedule [interrupted_test] the presentation loop
    has drawn nine pictures and finds [read] equal to [decoded]; the worker
    then stores the tenth picture, reads the end of the stream and sets
    [ended]; [main] loads [ended] and leaves the loop, the window open and
    [read] one short of [decoded]: the last picture is never drawn. No
    iteration of the schedule draws from an empty buffer. *)
Theorem loop_exit_races_with_worker :
  let before := run ten_pictures caught_up (init 5 true) in
  let s := run ten_pictures interrupted_test (init 5 true) in
  never_starved ten_pictures interrupted_test (init 5 true) = true
  /\ m_pc before = MTestEnded
  /\ read (ctx before) = 9 /\ decoded (ctx before) = 9
  /\ ended (ctx before) = false
  /\ s = step ten_pictures
           (run ten_pictures (repeat Worker 7) before) (Main [])
  /\ m_pc s = MExited
  /\ window_open s = true
  /\ ended (ctx s) = true
  /\ read (ctx s) = 9 /\ decoded (ctx s) = 10
  /\ produced s = [10; 11; 12; 13; 14; 15; 16; 17; 18; 19]
  /\ shown s = map Some [10; 11; 12; 13; 14; 15; 16; 17; 18]
  /\ ~ closed_or_drained s.
Proof.
  vm_compute. repeat split; try reflexivity.
  intros [H|[_ H]]; discriminate.
Qed.

End ReturnAndExit.

Section Underrun.
Import Pipeline Props Examples.

(** C1: the presentation loop does not wait for the worker. With [read]
    equal to [decoded] and the stream not ended, a paced iteration draws
    the slot all the same and increments [read]: after the schedule
    [slow_worker] one frame has been produced and two have been read. *)
Theorem presentation_overtakes_worker :
  let before := run two_pictures (repeat Worker 5 ++ repeat (Main []) 2)
                  (init 1 true) in
  let s := run two_pictures slow_worker (init 1 true) in
  s = step two_pictures before (Main [])
  /\ m_pc before = MLoop
  /\ window_open before = true
  /\ ended (ctx before) = false
  /\ read (ctx before) = 1 /\ decoded (ctx before) = 1
  /\ read (ctx s) = 2 /\ decoded (ctx s) = 1
  /\ shown s = shown before ++ [Some 10]
  /\ ~ (read (ctx s) <= decoded (ctx s)).
Proof. vm_compute. repeat split; try reflexivity. intros H. apply H. reflexivity. Qed.

(** C2: after the schedule [late_worker] the pictures drawn are 10, 11, 10
    and 11: the first two are drawn a second time, and picture 12 is never
    produced, the worker's test [decoded - read < bufferSize] being made on
    a difference that wrapped around. *)
Theorem frames_repeated_after_underrun :
  let s := run three_pictures late_worker (init 2 true) in
  produced s = [10; 11]
  /\ shown s = [Some 10; Some 11; Some 10; Some 11]
  /\ read (ctx s) = 4 /\ decoded (ctx s) = 2
  /\ ended (ctx s) = false
  /\ to_unsigned (decoded (ctx s) - read (ctx s)) = 4294967294
  /\ shown s <> map Some (take (length (shown s)) (produced s)).
Proof. vm_compute. repeat split; try reflexivity. discriminate. Qed.

End Underrun.

Section Priming.
Import Pipeline Props Examples.

#[local] Arguments to_unsigned : simpl never.

#[local] Ltac finish :=
  repeat split; intros; auto; try discriminate; try lia; try congruence;
  try tauto.

Lemma to_unsigned_small (z : Z) : 0 <= z < UINT_MODULUS -> to_unsigned z = z.
Proof. intros H. unfold to_unsigned. now apply Z.mod_small. Qed.

Lemma to_unsigned_range (z : Z) : 0 <= to_unsigned z < UINT_MODULUS.
Proof. unfold to_unsigned. apply Z.mod_pos_bound. reflexivity. Qed.

Lemma frames_in_app (i : Z) (ps qs : list Packet) :
  frames_in i (ps ++ qs) = frames_in i ps + frames_in i qs.
Proof.
  induction ps as [|p ps IH]; simpl; [reflexivity|]. rewrite IH. lia.
Qed.

Lemma frames_in_nonneg (i : Z) (ps : list Packet) : 0 <= frames_in i ps.
Proof.
  induction ps as [|p ps IH]; simpl; [lia|].
  destruct (yields_frame i p); lia.
Qed.

Lemma frames_in_take (i : Z) (n : nat) (ps : list Packet) :
  frames_in i (take n ps) <= frames_in i ps.
Proof.
  rewrite <- (take_drop n ps) at 2. rewrite frames_in_app.
  pose proof (frames_in_nonneg i (drop n ps)). lia.
Qed.

Lemma frames_in_take_S (i : Z) (n : nat) (ps : list Packet) (p : Packet) :
  ps !! n = Some p ->
  frames_in i (take (S n) ps)
  = frames_in i (take n ps) + (if yields_frame i p then 1 else 0).
Proof.
  intros H. rewrite (take_S_r _ _ _ H), frames_in_app. simpl. lia.
Qed.

Lemma length_reads (st : Stream) : length (reads st) = S (length (packets st)).
Proof. unfold reads. rewrite length_app. simpl. lia. Qed.

(** What a read returns, and which packet of [reads] it is. *)
Lemma av_read_frame_spec (st : Stream) (n : nat) :
  (n <= length (packets st))%nat ->
  exists r p, av_read_frame st n = (r, p) /\ reads st !! n = Some p
    /\ ((r = 0 /\ (n < length (packets st))%nat)
        \/ (r <> 0 /\ n = length (packets st))).
Proof.
  intros Hn. unfold av_read_frame, reads.
  destruct (packets st !! n) as [p|] eqn:E.
  - exists 0, p. split; [reflexivity|]. split.
    + now rewrite (lookup_app_l_Some _ _ _ _ E).
    + left. split; [reflexivity|]. now apply lookup_lt_Some in E.
  - apply lookup_ge_None in E. assert (n = length (packets st)) as -> by lia.
    exists (Z.neg (eof_code st)), (eof_packet st). split; [reflexivity|]. split.
    + rewrite lookup_app_r by lia. now rewrite Nat.sub_diag.
    + right. split; [discriminate | reflexivity].
Qed.

Lemma length_create_slots (n : nat) (b : list Texture) :
  length (create_slots n b) = length b.
Proof. induction n as [|n IH]; simpl; [reflexivity|]. now rewrite length_insert. Qed.

Lemma worker_inv_init (st : Stream) (capacity : Z) (opened : bool) :
  0 <= capacity -> worker_inv st capacity opened (init capacity opened).
Proof.
  intros H. unfold worker_inv. simpl.
  rewrite length_replicate. finish.
Qed.

Lemma worker_inv_main (st : Stream) (capacity : Z) (opened : bool)
    (evs : list Event) (s : World) :
  worker_inv st capacity opened s ->
  worker_inv st capacity opened (main_step evs s).
Proof.
  intros Hinv.
  destruct (past_priming (w_pc s)) eqn:Hpast.
  - destruct Hinv as (H1 & H2 & H3 & H4 & H5 & H6 & _).
    destruct (main_step_worker_side evs s)
      as (Ew & _ & _ & _ & Eb & Es & Ed & _ & _ & Ev).
    unfold worker_inv. rewrite Ew, Eb, Es, Ed, Ev, Hpast.
    finish.
  - pose proof Hinv as (_ & _ & _ & _ & _ & _ & H7).
    destruct (H7 Hpast) as (Hm & Hf & _).
    now rewrite (main_step_waiting evs s Hm Hf).
Qed.

Lemma worker_inv_main_loads (st : Stream) (capacity : Z) (opened : bool)
    (evs : list Event) (s : World) :
  worker_inv st capacity opened s ->
  worker_inv st capacity opened (main_loads evs s).
Proof.
  intros Hinv.
  destruct (main_loads_cases evs s) as [E|(Hm & _ & _ & _ & E)];
    [rewrite E; now apply worker_inv_main|].
  destruct (past_priming (w_pc s)) eqn:Hpast.
  - destruct Hinv as (H1 & H2 & H3 & H4 & H5 & H6 & _).
    destruct (main_loads_worker_side evs s)
      as (Ew & _ & _ & _ & Eb & Es & Ed & _ & _ & Ev).
    unfold worker_inv. rewrite Ew, Eb, Es, Ed, Ev, Hpast.
    finish.
  - destruct Hinv as (_ & _ & _ & _ & _ & _ & H7).
    destruct (H7 Hpast) as (Hw & _). congruence.
Qed.

(** The body of the priming loop under the invariant. *)
Lemma worker_inv_prime_body (st : Stream) (capacity : Z) (opened : bool)
    (s : World) :
  capacity < UINT_MODULUS ->
  worker_inv st capacity opened s ->
  w_pc s = WPrimeBody ->
  worker_inv st capacity opened (loop_body st priming_slot WPrimeCheck s).
Proof.
  intros Hcap (H1 & H2 & H3 & H4 & H5 & H6 & H7) Hpc.
  rewrite Hpc in H7. destruct (H7 eq_refl)
    as (Hm & Hf & Hw & Hr & Hd & Hle & Hcur & Hb & _).
  destruct (Hb eq_refl) as (Hlt & Hr0 & Hopen).
  destruct Hcur as [[_ Hcur]|[Hne _]]; [|contradiction].
  destruct (av_read_frame_spec st (cursor s) Hcur) as (r & p & Er & Ep & Hrp).
  pose proof (frames_in_take_S 0 _ _ _ Ep) as Hstep.
  unfold loop_body. rewrite Er. simpl. rewrite H3.
  assert (Hcur' : (r = 0 /\ (S (cursor s) <= length (packets st))%nat)
                  \/ (r <> 0 /\ S (cursor s) = S (length (packets st))))
    by (destruct Hrp as [[? ?]|[? ?]]; [left | right]; split; auto; lia).
  destruct (yields_frame 0 p) eqn:Hy.
  - unfold priming_slot, store_frame. simpl.
    destruct (decide _) as [Hin|Hout]; [|exfalso; apply Hout; lia].
    unfold worker_inv. simpl. rewrite length_insert.
    rewrite (to_unsigned_small (decoded (ctx s) + 1)) by lia.
    finish.
  - unfold worker_inv. simpl.
    finish.
Qed.

(** The body of the streaming loop under the invariant. *)
Lemma worker_inv_stream_body (st : Stream) (capacity : Z) (opened : bool)
    (s : World) :
  worker_inv st capacity opened s ->
  w_pc s = WStreamBody ->
  worker_inv st capacity opened (loop_body st streaming_slot WStreamCheck s).
Proof.
  intros (H1 & H2 & H3 & H4 & H5 & H6 & H7) Hpc.
  specialize (H6 Hpc).
  unfold loop_body. destruct (av_read_frame st (cursor s)) as [r p]. simpl.
  destruct (yields_frame _ p).
  - unfold streaming_slot. rewrite H1.
    destruct (capacity =? 0) eqn:E0; [apply Z.eqb_eq in E0; lia|].
    unfold store_frame. simpl.
    pose proof (Z.mod_pos_bound (decoded (ctx s)) capacity H6) as Hmod.
    destruct (decide _) as [Hin|Hout]; [|exfalso; apply Hout; lia].
    unfold worker_inv. simpl. rewrite length_insert.
    pose proof (to_unsigned_range (decoded (ctx s) + 1)).
    finish.
  - unfold worker_inv. simpl.
    finish.
Qed.

Lemma worker_inv_worker (st : Stream) (capacity : Z) (opened : bool)
    (s : World) :
  capacity < UINT_MODULUS ->
  worker_inv st capacity opened s ->
  worker_inv st capacity opened (worker_step st s).
Proof.
  intros Hcap Hinv. pose proof Hinv as (H1 & H2 & H3 & H4 & H5 & H6 & H7).
  unfold worker_step. destruct (w_pc s) eqn:Hpc.
  - destruct (H7 eq_refl) as (Hm & Hf & Hw & Hr & Hd & Hle & Hcur & _).
    unfold worker_inv. simpl. rewrite length_create_slots.
    finish.
  - destruct (H7 eq_refl) as (Hm & Hf & Hw & Hr & Hd & Hle & Hcur & _).
    destruct ((decoded (ctx s) <? bufferSize (ctx s)) && (w_read s =? 0)
              && window_open s) eqn:Hc.
    + apply andb_true_iff in Hc as [Hc Ho].
      apply andb_true_iff in Hc as [Hc1 Hc2].
      apply Z.ltb_lt in Hc1. apply Z.eqb_eq in Hc2.
      unfold worker_inv. simpl.
      finish.
    + unfold worker_inv. simpl.
      finish.
      apply andb_false_iff in Hc as [Hc|Hc]; [|auto].
      apply andb_false_iff in Hc as [Hc|Hc].
      * left. apply Z.ltb_ge in Hc. lia.
      * right. left. now apply Z.eqb_neq in Hc.
  - now apply worker_inv_prime_body.
  - unfold worker_inv. simpl. finish.
  - destruct (_ && _); unfold worker_inv; simpl;
      finish.
  - destruct (_ <? _) eqn:Hg; unfold worker_inv; simpl;
      finish.
    apply Z.ltb_lt in Hg.
    pose proof (to_unsigned_range (decoded (ctx s) - read (ctx s))). lia.
  - now apply worker_inv_stream_body.
  - unfold worker_inv. simpl. finish.
  - exact Hinv.
  - exact Hinv.
Qed.

Lemma worker_inv_reachable (st : Stream) (capacity : Z) (opened : bool)
    (s : World) :
  0 <= capacity < UINT_MODULUS ->
  reachable st capacity opened s -> worker_inv st capacity opened s.
Proof.
  intros Hcap. apply reachable_ind.
  - apply worker_inv_init. lia.
  - intros s' [|evs|evs] _ H;
      [apply worker_inv_worker; [lia | exact H] | now apply worker_inv_main
      | now apply worker_inv_main_loads].
Qed.

End Priming.

Section PrimingClaim.
Import Setup Pipeline Props Examples.

Lemma worker_step_cursor (st : Stream) (s : World) :
  cursor (worker_step st s)
  = match w_pc s with
    | WPrimeBody | WStreamBody => S (cursor s)
    | _ => cursor s
    end.
Proof.
  unfold worker_step. destruct (w_pc s); simpl; auto.
  - destruct (_ && _); auto.
  - apply loop_body_main_side.
  - destruct (_ && _); auto.
  - destruct (_ <? _); auto.
  - apply loop_body_main_side.
Qed.

(** With the window open every step of the worker brings [filled] nearer. *)
Lemma filling_worker (st : Stream) (capacity : Z) (s : World) :
  capacity < UINT_MODULUS ->
  worker_inv st capacity true s ->
  (filling_distance st (worker_step st s) <= filling_distance st s - 1)%nat.
Proof.
  intros Hcap Hinv.
  pose proof (worker_inv_worker st capacity true s Hcap Hinv)
    as (_ & _ & _ & _ & Hnf & _).
  destruct Hinv as (_ & _ & _ & _ & Hf & _ & H7).
  destruct (worker_step_pc_flags st s) as (Hpc & _).
  pose proof (worker_step_cursor st s) as Hc.
  pose proof (length_reads st) as L.
  unfold filling_distance, priming_distance in *.
  destruct (w_pc s) eqn:E; cbv beta iota in Hc;
    try (destruct (H7 eq_refl) as (_ & _ & _ & _ & _ & _ & Hcur & Hb & _)).
  - rewrite Hpc, Hc. lia.
  - destruct Hpc as [-> | ->]; rewrite ?Hc; lia.
  - destruct (Hb eq_refl) as (_ & Hr0 & _).
    destruct Hpc as [Hpc | Hpc]; [|contradiction].
    rewrite Hpc, Hc. lia.
  - rewrite Hpc. lia.
  - destruct Hpc as [-> | ->]; lia.
  - destruct Hpc as [-> | ->]; lia.
  - destruct Hpc as [Hpc | Hpc]; [|contradiction]. rewrite Hpc. lia.
  - rewrite Hpc. lia.
  - rewrite Hpc, E. lia.
  - contradiction.
Qed.

(** [filled] is set after at most [2 * length (reads st) + 3] steps of the
    worker, however they are interleaved with those of [main]. *)
Lemma filled_in_time (st : Stream) (capacity : Z) (sched : list Action) :
  0 <= capacity < UINT_MODULUS ->
  (2 * length (reads st) + 3 <= worker_steps sched)%nat ->
  filled (ctx (run st sched (init capacity true))) = true.
Proof.
  intros Hcap Hn.
  destruct (run_distance st (worker_inv st capacity true)
              (filling_distance st) is_worker) with (sched := sched)
              (s := init capacity true) as [Hinv Hd].
  - intros s [|evs|evs] H; cbn [step is_worker].
    + split; [apply worker_inv_worker; [lia | exact H]|].
      apply (filling_worker st capacity); [lia | exact H].
    + split; [now apply worker_inv_main|].
      unfold filling_distance, priming_distance.
      destruct (main_step_worker_side evs s) as (-> & _ & -> & _). lia.
    + split; [now apply worker_inv_main_loads|].
      unfold filling_distance, priming_distance.
      destruct (main_loads_worker_side evs s) as (-> & _ & -> & _). lia.
  - apply worker_inv_init. lia.
  - fold (worker_steps sched) in Hd.
    assert (R : reachable st capacity true (run st sched (init capacity true)))
      by (now exists sched).
    apply flags_inv_reachable in R as (Hf & _). apply Hf.
    change (filling_distance st (init capacity true))
      with (2 * length (reads st) + 2 + 1)%nat in Hd.
    unfold filling_distance in Hd.
    destruct Hinv as (_ & _ & _ & _ & Hnf & _).
    destruct (w_pc (run st sched (init capacity true)));
      try reflexivity; try lia. contradiction.
Qed.

(** Where the priming loop has been left, [decoded] is the smaller of the
    capacity and the number of reads that gave a frame of stream 0; the
    next step sets [filled]. *)
Lemma priming_result (st : Stream) (capacity : Z) (s : World) :
  0 <= capacity < UINT_MODULUS ->
  reachable st capacity true s ->
  w_pc s = WSetFilled ->
  filled (ctx s) = false
  /\ read (ctx s) = 0
  /\ decoded (ctx s) = Z.min capacity (totalFramesAvailable st 0)
  /\ filled (ctx (worker_step st s)) = true
  /\ decoded (ctx (worker_step st s))
     = Z.min capacity (totalFramesAvailable st 0).
Proof.
  intros Hcap Hreach Hpc.
  pose proof (worker_inv_reachable _ _ _ _ Hcap Hreach)
    as (_ & _ & _ & _ & _ & _ & H7).
  rewrite Hpc in H7.
  destruct (H7 eq_refl) as (_ & Hfl & Hw & Hr & Hd & Hle & Hcur & _ & Hout).
  assert (E : decoded (ctx s) = Z.min capacity (totalFramesAvailable st 0)).
  { unfold totalFramesAvailable.
    pose proof (frames_in_take 0 (cursor s) (reads st)) as Hmono.
    destruct (Hout eq_refl) as [Hfull|[Hfail|Hclosed]].
    - lia.
    - destruct Hcur as [[H0 _]|[_ Hc]]; [contradiction|].
      rewrite Hc, <- length_reads, firstn_all in Hd. lia.
    - congruence. }
  do 3 (split; [assumption|]).
  unfold worker_step. rewrite Hpc. simpl. split; [reflexivity | exact E].
Qed.

(** C3, as stated, fails: no iteration asks the decoder for more than one
    frame, and nothing drains it at the end of the stream beyond the one
    frame that the blank packet of the failing read brings out. Of three
    pictures behind a decoder that holds back two, the third is never
    stored: the priming loop is left with [decoded] 2, the buffer having
    25 slots and the film three pictures to decode. *)
Lemma held_back_frames_are_lost :
  let pictures := [10; 11; 12] in
  let st := held_back 2 pictures in
  exists p,
    main_setup plain_file = Ready p
    /\ p_videoStreamIndex p = 0
    /\ p_bufferSize p = 25
    /\ packets st = [waiting; waiting; good 10]
    /\ eof_packet st = good 11
    /\ (let s := run st (repeat Worker 10) (start p) in
        w_pc s = WSetFilled
        /\ produced s = [10; 11]
        /\ decoded (ctx s) = 2
        /\ filled (ctx (worker_step st s)) = true
        /\ decoded (ctx (worker_step st s)) = 2
        /\ Z.min (p_bufferSize p) (Z.of_nat (length pictures)) = 3
        /\ decoded (ctx (worker_step st s))
           <> Z.min (p_bufferSize p) (Z.of_nat (length pictures))).
Proof.
  intros pictures st. eexists. split; [reflexivity|].
  vm_compute. repeat split; try reflexivity; discriminate.
Qed.

(** C3, amended: a film whose video stream, the one [main] selected, is
    stream 0. The priming loop is left and [filled] set after at most
    [2 * length (reads st) + 3] steps of the worker, however they are
    interleaved with those of [main]; and wherever the loop has been left,
    [decoded] is the smaller of the capacity and the number of reads of the
    file (the failing one included) that gave a frame of the selected
    stream, one receive per packet; the next step sets [filled] and keeps
    [decoded]. Packets that give no frame are passed over and the loop goes
    on reading. *)
Theorem priming_decodes_what_the_reads_give (c : Container) (p : Params) (st : Stream) :
  main_setup c = Ready p ->
  p_videoStreamIndex p = 0 ->
  (forall sched,
     (2 * length (reads st) + 3 <= worker_steps sched)%nat ->
     filled (ctx (run st sched (start p))) = true)
  /\ (forall sched,
        let s := run st sched (start p) in
        w_pc s = WSetFilled ->
        filled (ctx s) = false
        /\ decoded (ctx s)
           = Z.min (p_bufferSize p)
               (totalFramesAvailable st (p_videoStreamIndex p))
        /\ filled (ctx (worker_step st s)) = true
        /\ decoded (ctx (worker_step st s))
           = Z.min (p_bufferSize p)
               (totalFramesAvailable st (p_videoStreamIndex p))).
Proof.
  intros Hready Hzero.
  assert (Hcap : 0 <= p_bufferSize p < UINT_MODULUS).
  { apply main_setup_ready in Hready
      as (_ & _ & _ & _ & _ & _ & _ & _ & H & _).
    unfold cast_unsigned in H.
    destruct ((0 <=? truncate (p_fps p))
              && (truncate (p_fps p) <? UINT_MODULUS)) eqn:Hr; [|discriminate].
    injection H as <-. apply andb_true_iff in Hr as [H0 H1].
    apply Z.leb_le in H0. apply Z.ltb_lt in H1. lia. }
  rewrite Hzero. unfold start. split.
  - intros sched Hn. now apply filled_in_time.
  - intros sched Hpc.
    destruct (priming_result st (p_bufferSize p) _ Hcap
                (ex_intro _ sched eq_refl) Hpc) as (H1 & _ & H2 & H3 & H4).
    repeat split; assumption.
Qed.

(** A decoder that gives no frame for the first two packets
    ([AVERROR(EAGAIN)]) and one for each of the next three; the film runs
    at 25 frames per second. The worker's steps are interleaved with looks
    of [main] at [filled]. *)
Lemma priming_decodes_what_the_reads_give_witness :
  let st := {| packets := [waiting; waiting; good 10; good 11; good 12];
               eof_code := 541478725%positive; eof_packet := blank |} in
  exists p,
    main_setup plain_file = Ready p
    /\ filled (ctx (run st (concat (repeat [Worker; Main []] 15)) (start p)))
       = true
    /\ (let s := run st (concat (repeat [Worker; Main []] 14)) (start p) in
        w_pc s = WSetFilled
        /\ decoded (ctx s) = 3
        /\ filled (ctx (worker_step st s)) = true).
Proof.
  intros st. eexists. split; [reflexivity|].
  destruct (priming_decodes_what_the_reads_give plain_file _ st eq_refl eq_refl)
    as [Hfill Hres].
  split.
  - apply Hfill. vm_compute. lia.
  - destruct (Hres (concat (repeat [Worker; Main []] 14)))
      as (_ & Hd & Hf & _); [reflexivity|].
    split; [reflexivity|]. split; [exact Hd | exact Hf].
Defined.

End PrimingClaim.

Section Cancellation.
Import Pipeline Props Examples.

Lemma closing_main (evs : list Event) (s : World) :
  closing s ->
  closing (main_step evs s)
  /\ closing_distance (main_step evs s) = closing_distance s
  /\ pending_reads (main_step evs s) = pending_reads s
  /\ cursor (main_step evs s) = cursor s.
Proof.
  intros [Hw Hpc].
  destruct (main_step_worker_side evs s)
    as (Ew & _ & Ec & _ & Eb & _ & Ed & Ef & Ee & _).
  unfold closing, closing_distance, pending_reads.
  rewrite Ew, Ec, Eb, Ed, Ef, Ee.
  repeat split; auto. now apply main_step_window_closed.
Qed.

Lemma closing_main_loads (evs : list Event) (s : World) :
  closing s ->
  closing (main_loads evs s)
  /\ closing_distance (main_loads evs s) = closing_distance s
  /\ pending_reads (main_loads evs s) = pending_reads s
  /\ cursor (main_loads evs s) = cursor s.
Proof.
  intros H.
  destruct (main_loads_cases evs s) as [E|(_ & Hw & _)];
    [rewrite E; now apply closing_main|].
  destruct H as [H _]. congruence.
Qed.

Lemma closing_worker (st : Stream) (s : World) :
  closing s ->
  closing (worker_step st s)
  /\ (closing_distance (worker_step st s) <= closing_distance s - 1)%nat
  /\ (cursor (worker_step st s) + pending_reads (worker_step st s)
      <= cursor s + pending_reads s)%nat.
Proof.
  intros [Hw Hpc].
  unfold closing, closing_distance, pending_reads, worker_step in *.
  destruct (w_pc s) eqn:E; try contradiction.
  - rewrite Hw, andb_false_r. simpl. repeat split; auto; lia.
  - unfold loop_body. destruct (av_read_frame st (cursor s)) as [r p]. simpl.
    destruct (yields_frame _ p); simpl.
    + unfold priming_slot, store_frame. simpl.
      destruct (decide _) as [_|Hout]; [|contradiction]. simpl.
      repeat split; auto; lia.
    + repeat split; auto; lia.
  - simpl. repeat split; auto; lia.
  - rewrite Hw, andb_false_r. simpl. repeat split; auto; lia.
  - simpl. repeat split; auto; lia.
  - rewrite E. repeat split; try apply Hpc; auto; lia.
Qed.

(** C8: with the window closed while the worker is in its priming loop
    ([decoded] below the capacity), the worker returns within five of its
    own steps, however they are interleaved with those of [main]; on the
    way it runs the body of the priming loop at most once (only when it was
    already inside it) and the body of the streaming loop not at all. *)
Theorem worker_notices_closed_window (st : Stream) (s : World)
    (sched : list Action) :
  window_open s = false ->
  w_pc s = WPrimeCheck \/ w_pc s = WPrimeBody ->
  0 <= decoded (ctx s) < bufferSize (ctx s) ->
  length (buffer (ctx s)) = Z.to_nat (bufferSize (ctx s)) ->
  (5 <= worker_steps sched)%nat ->
  let s' := run st sched s in
  w_pc s' = WReturned
  /\ filled (ctx s') = true /\ ended (ctx s') = true
  /\ (cursor s' <= cursor s + pending_reads s)%nat
  /\ (cursor s' <= cursor s + 1)%nat.
Proof.
  intros Hw Hpc Hd Hlen Hn s'.
  assert (H0 : closing s
               /\ (cursor s + pending_reads s <= cursor s + pending_reads s)%nat).
  { split; [|lia]. split; [exact Hw|].
    destruct Hpc as [-> | ->]; [exact I | lia]. }
  destruct (run_distance st
              (fun w => closing w
                        /\ (cursor w + pending_reads w
                            <= cursor s + pending_reads s)%nat)
              closing_distance is_worker) with (sched := sched) (s := s)
    as [[Hc Hcur] Hdist]; [|exact H0|].
  { intros w [|evs|evs] [Hcw Hle]; cbn [step is_worker].
    - destruct (closing_worker st w Hcw) as (H1 & H2 & H3).
      split; [split; [exact H1 | lia] | exact H2].
    - destruct (closing_main evs w Hcw) as (H1 & H2 & H3 & H4).
      split; [split; [exact H1 | lia] | lia].
    - destruct (closing_main_loads evs w Hcw) as (H1 & H2 & H3 & H4).
      split; [split; [exact H1 | lia] | lia]. }
  fold s' in Hc, Hcur, Hdist. fold (worker_steps sched) in Hdist.
  assert (Hz : closing_distance s' = 0%nat).
  { unfold closing_distance in *. destruct Hpc as [E|E]; rewrite E in Hdist; lia. }
  destruct Hc as [_ Hc]. unfold closing_distance in Hz.
  assert (Hp : (pending_reads s <= 1)%nat)
    by (unfold pending_reads; destruct (w_pc s); lia).
  destruct (w_pc s') eqn:E; try discriminate; try contradiction.
  destruct Hc as [Hf He]. repeat split; auto; lia.
Qed.

(** The scenario of the specification: three frames decoded, five slots,
    the worker inside the priming loop when the window is found closed. *)
Lemma worker_notices_closed_window_witness :
  let s := with_w_pc WPrimeBody
             (with_window false
                (run (movie [10; 11; 12; 13; 14; 15; 16; 17; 18; 19])
                   (repeat Worker 7) (init 5 true))) in
  let s' := run (movie [10; 11; 12; 13; 14; 15; 16; 17; 18; 19])
              [Worker; Main []; Worker; Worker; Main [Closed]; Worker; Worker]
              s in
  decoded (ctx s) = 3 /\ bufferSize (ctx s) = 5
  /\ w_pc s' = WReturned
  /\ filled (ctx s') = true /\ ended (ctx s') = true
  /\ (cursor s' <= cursor s + 1)%nat.
Proof.
  intros s s'. split; [reflexivity|]. split; [reflexivity|].
  destruct (worker_notices_closed_window
              (movie [10; 11; 12; 13; 14; 15; 16; 17; 18; 19]) s
              [Worker; Main []; Worker; Worker; Main [Closed]; Worker; Worker])
    as (H1 & H2 & H3 & _ & H5).
  - reflexivity.
  - right. reflexivity.
  - split; [vm_compute; discriminate | vm_compute; reflexivity].
  - reflexivity.
  - vm_compute. lia.
  - repeat split; assumption.
Defined.

End Cancellation.

Section DecodeFailures.
Import Pipeline Props Examples.

Lemma av_read_frame_packet (st : Stream) (n : nat) (p : Packet) :
  packets st !! n = Some p -> av_read_frame st n = (0, p).
Proof. intros H. unfold av_read_frame. now rewrite H. Qed.

Lemma yields_frame_false (i : Z) (p : Packet) :
  sent p <> 0 \/ recieved p <> 0 -> yields_frame i p = false.
Proof.
  intros H. unfold yields_frame.
  destruct H as [H|H]; apply Z.eqb_neq in H; rewrite H;
    now rewrite ?andb_false_r.
Qed.

(** An iteration whose packet gives no frame only moves on in the file. *)
Lemma loop_body_skips (st : Stream) (slot : VideoContext -> option Z)
    (next : WorkerPc) (s : World) (p : Packet) :
  packets st !! cursor s = Some p ->
  yields_frame (videoStreamIndex (ctx s)) p = false ->
  loop_body st slot next s
  = {| ctx := ctx s; window_open := window_open s; w_pc := next;
       w_read := 0; cursor := S (cursor s); m_pc := m_pc s;
       produced := produced s; shown := shown s |}.
Proof.
  intros Hp Hy. unfold loop_body.
  rewrite (av_read_frame_packet _ _ _ Hp). simpl. now rewrite Hy.
Qed.

(** An iteration whose packet gives a frame stores it, unless it leaves the
    buffer. *)
Lemma loop_body_stores (st : Stream) (slot : VideoContext -> option Z)
    (next : WorkerPc) (s : World) (p : Packet) :
  packets st !! cursor s = Some p ->
  yields_frame (videoStreamIndex (ctx s)) p = true ->
  w_pc (loop_body st slot next s) <> WFault ->
  produced (loop_body st slot next s) = produced s ++ [pixels p]
  /\ decoded (ctx (loop_body st slot next s))
     = to_unsigned (decoded (ctx s) + 1).
Proof.
  intros Hp Hy. unfold loop_body.
  rewrite (av_read_frame_packet _ _ _ Hp). simpl. rewrite Hy.
  destruct (slot (ctx s)) as [i|]; simpl; [|congruence].
  unfold store_frame. destruct (decide _); simpl; [auto | congruence].
Qed.

(** C6, as stated, fails for a conversion that fails: the result of
    [sws_scale] is not looked at, the packet is not dropped. Its frame is
    stored and counted, and a ten-packet film with one such packet ends
    with [decoded] 10, not 9. *)
Lemma failed_conversion_is_counted :
  let st := spoiled 2 (unconverted 99) in
  let s := run st steady (init 5 true) in
  scaled (unconverted 99) < 0
  /\ w_pc s = WReturned
  /\ produced s = [10; 11; 99; 13; 14; 15; 16; 17; 18; 19]
  /\ decoded (ctx s) = 10
  /\ decoded (ctx s) <> 9.
Proof. vm_compute. repeat split; discriminate. Qed.

(** C6, amended: a packet that the decoder does not take, or for which it
    gives no frame, is passed over: the iteration changes neither the
    buffer nor the counters, and the worker is back at the test of its loop
    with [read] 0, neither returned nor faulted. A ten-packet film with one
    such packet, wherever it is, played through five slots by a worker that
    keeps ahead, ends with [decoded] 9 and the nine frames drawn in order.
    The result of the conversion is not checked: a packet that decodes is
    stored and counted whatever [sws_scale] returned. *)
Theorem decode_failure_skips_packet :
  (forall st s p,
     w_pc s = WPrimeBody \/ w_pc s = WStreamBody ->
     packets st !! cursor s = Some p ->
     sent p <> 0 \/ recieved p <> 0 ->
     let s' := worker_step st s in
     ctx s' = ctx s /\ produced s' = produced s
     /\ cursor s' = S (cursor s) /\ w_read s' = 0
     /\ w_pc s' = (if decide (w_pc s = WPrimeBody) then WPrimeCheck
                   else WStreamCheck))
  /\ (forall k, (k < 10)%nat ->
        let s := run (spoiled k undecodable) steady (init 5 true) in
        w_pc s = WReturned /\ m_pc s = MExited
        /\ decoded (ctx s) = 9 /\ read (ctx s) = 9
        /\ ended (ctx s) = true
        /\ length (produced s) = 9%nat
        /\ shown s = map Some (produced s))
  /\ (forall st capacity opened s p,
        0 <= capacity < UINT_MODULUS ->
        reachable st capacity opened s ->
        w_pc s = WPrimeBody \/ w_pc s = WStreamBody ->
        packets st !! cursor s = Some p ->
        stream_index p = 0 -> sent p = 0 -> recieved p = 0 ->
        let s' := worker_step st s in
        produced s' = produced s ++ [pixels p]
        /\ decoded (ctx s') = to_unsigned (decoded (ctx s) + 1)).
Proof.
  split; [|split].
  - intros st s p Hpc Hp Hbad s'. subst s'. unfold worker_step.
    pose proof (yields_frame_false (videoStreamIndex (ctx s)) p Hbad) as Hy.
    destruct Hpc as [E|E]; rewrite E;
      rewrite (loop_body_skips _ _ _ _ _ Hp Hy); simpl;
      repeat split; reflexivity.
  - intros k Hk.
    do 10 (destruct k as [|k];
           [vm_compute; repeat split; reflexivity|]).
    lia.
  - intros st capacity opened s p Hcap Hreach Hpc Hp Hi Hs Hr s'.
    pose proof (worker_inv_reachable _ _ _ _ Hcap Hreach) as Hinv.
    pose proof (worker_inv_worker st capacity opened s ltac:(lia) Hinv)
      as (_ & _ & _ & _ & Hnf & _).
    destruct Hinv as (_ & _ & Hv & _).
    assert (Hy : yields_frame (videoStreamIndex (ctx s)) p = true).
    { unfold yields_frame. rewrite Hv, Hi, Hs, Hr. reflexivity. }
    subst s'. revert Hnf. unfold worker_step.
    destruct Hpc as [E|E]; rewrite E; intros Hnf;
      now apply loop_body_stores.
Qed.

(** The scenario of the specification: the third of ten packets does not
    decode. *)
Lemma decode_failure_skips_packet_witness :
  let st := spoiled 2 undecodable in
  let s := run st (repeat Worker 6) (init 5 true) in
  let s' := worker_step st s in
  let e := run st steady (init 5 true) in
  w_pc s = WPrimeBody /\ cursor s = 2%nat
  /\ ctx s' = ctx s /\ w_pc s' = WPrimeCheck
  /\ decoded (ctx e) = 9 /\ m_pc e = MExited.
Proof.
  intros st s s' e.
  destruct decode_failure_skips_packet as (H1 & H2 & _).
  destruct (H1 st s undecodable) as (Hc & _ & _ & _ & Hpc).
  - left. reflexivity.
  - reflexivity.
  - right. discriminate.
  - destruct (H2 2%nat) as (_ & He & Hd & _); [lia|].
    repeat split; try reflexivity; assumption.
Defined.

End DecodeFailures.

Section EmptyStream.
Import Pipeline Props Examples.

(** The worker compares every packet's stream with 0, whatever stream
    [main] selected. When no packet of stream 0 gives a frame, the failing
    read's included, nothing is ever stored. *)
Lemma nothing_decoded (st : Stream) (capacity : Z) (opened : bool)
    (s : World) :
  Forall (fun p => yields_frame 0 p = false) (packets st) ->
  yields_frame 0 (eof_packet st) = false ->
  reachable st capacity opened s ->
  videoStreamIndex (ctx s) = 0 /\ decoded (ctx s) = 0 /\ produced s = [].
Proof.
  intros Hp Hy.
  apply (reachable_ind st capacity opened
           (fun s => videoStreamIndex (ctx s) = 0 /\ decoded (ctx s) = 0
                     /\ produced s = [])).
  - now repeat split.
  - intros w [|evs|evs] _ (Hv & Hd & Hpr); simpl.
    + assert (Hbody : forall slot next,
                let w' := loop_body st slot next w in
                videoStreamIndex (ctx w') = 0 /\ decoded (ctx w') = 0
                /\ produced w' = []).
      { intros slot next. unfold loop_body, av_read_frame.
        destruct (packets st !! cursor w) as [p|] eqn:E; simpl; rewrite Hv.
        - rewrite Forall_lookup in Hp. rewrite (Hp _ _ E). simpl. auto.
        - rewrite Hy. simpl. auto. }
      unfold worker_step.
      destruct (w_pc w); simpl; auto; try apply Hbody;
        case_match; simpl; auto.
    + destruct (main_step_worker_side evs w)
        as (_ & _ & _ & -> & _ & _ & -> & _ & _ & ->). auto.
    + destruct (main_loads_worker_side evs w)
        as (_ & _ & _ & -> & _ & _ & -> & _ & _ & ->). auto.
Qed.

(** A stream without packets whose failing read leaves no frame either:
    nothing is ever stored. *)
Lemma no_frames_nothing_decoded (st : Stream) (capacity : Z) (opened : bool)
    (s : World) :
  packets st = [] ->
  yields_frame 0 (eof_packet st) = false ->
  reachable st capacity opened s ->
  videoStreamIndex (ctx s) = 0 /\ decoded (ctx s) = 0 /\ produced s = [].
Proof.
  intros Hp Hy. apply nothing_decoded; [|exact Hy].
  rewrite Hp. constructor.
Qed.

(** Once [main] has faulted it stays there. *)
Lemma fault_is_final (st : Stream) (sched : list Action) (s : World) :
  m_pc s = MFault -> m_pc (run st sched s) = MFault.
Proof.
  revert s. induction sched as [|a sched IH]; intros s H; [exact H|].
  change (run st (a :: sched) s) with (run st sched (step st s a)).
  apply IH. destruct a as [|evs|evs]; simpl.
  - destruct (worker_step_main_side st s) as (-> & _). exact H.
  - unfold main_step. now rewrite H.
  - unfold main_loads, main_step. now rewrite H.
Qed.

End EmptyStream.

Section ProducerBound.
Import Pipeline Props Examples.

Lemma display_read (s : World) :
  read (ctx (display s)) = read (ctx s)
  \/ read (ctx (display s)) = to_unsigned (read (ctx s) + 1).
Proof.
  unfold display. destruct (bufferSize (ctx s) =? 0); simpl; auto.
  destruct (buffer (ctx s) !! _); simpl; auto.
Qed.

Lemma main_step_read (evs : list Event) (s : World) :
  read (ctx (main_step evs s)) = read (ctx s)
  \/ read (ctx (main_step evs s)) = to_unsigned (read (ctx s) + 1).
Proof.
  unfold main_step. destruct (m_pc s) eqn:Hpc; auto.
  - destruct (filled (ctx s)); auto.
  - rewrite (tick_spec evs s Hpc).
    destruct (exit_condition (poll evs s)); simpl.
    + left. now rewrite poll_ctx.
    + rewrite <- (poll_ctx evs s). apply display_read.
  - unfold finish_test. destruct (ended (ctx s)); simpl; auto.
    apply (display_read (with_m_pc MLoop s)).
Qed.

Lemma main_loads_read (evs : list Event) (s : World) :
  read (ctx (main_loads evs s)) = read (ctx s)
  \/ read (ctx (main_loads evs s)) = to_unsigned (read (ctx s) + 1).
Proof.
  destruct (main_loads_cases evs s) as [E|(_ & _ & _ & _ & E)]; rewrite E;
    [apply main_step_read|].
  left. simpl. now rewrite poll_ctx.
Qed.

Lemma loop_body_decoded (st : Stream) (slot : VideoContext -> option Z)
    (next : WorkerPc) (s : World) :
  decoded (ctx (loop_body st slot next s)) = decoded (ctx s)
  \/ decoded (ctx (loop_body st slot next s))
     = to_unsigned (decoded (ctx s) + 1).
Proof.
  unfold loop_body. destruct (av_read_frame st (cursor s)) as [r p]. simpl.
  destruct (yields_frame _ p); simpl; auto.
  destruct (slot (ctx s)); simpl; auto.
  unfold store_frame. destruct (decide _); simpl; auto.
Qed.

Lemma to_unsigned_le (z : Z) : 0 <= z -> to_unsigned z <= z.
Proof.
  intros H. unfold to_unsigned. apply Z.mod_le; [exact H | reflexivity].
Qed.

Lemma producer_inv_worker (st : Stream) (capacity n : Z) (s : World) :
  0 <= capacity < UINT_MODULUS ->
  n < UINT_MODULUS ->
  bufferSize (ctx s) = capacity ->
  producer_inv capacity n s ->
  producer_inv capacity (n + 1) (worker_step st s).
Proof.
  intros Hcap Hn Hb (Hr & Hd & Hle & Hroom).
  destruct (worker_step_main_side st s) as (_ & _ & _ & Er & _).
  destruct (worker_step_pc_flags st s) as (Hpc & _).
  unfold producer_inv. rewrite Er.
  assert (Hkeep : decoded (ctx (worker_step st s)) = decoded (ctx s) ->
                  (w_pc (worker_step st s) = WPrimeBody
                   \/ w_pc (worker_step st s) = WStreamBody ->
                   decoded (ctx s) + 1 <= read (ctx s) + capacity) ->
                  (0 <= read (ctx s) <= n + 1)
                  /\ 0 <= decoded (ctx (worker_step st s))
                  /\ decoded (ctx (worker_step st s)) <= read (ctx s) + capacity
                  /\ (w_pc (worker_step st s) = WPrimeBody
                      \/ w_pc (worker_step st s) = WStreamBody ->
                      decoded (ctx (worker_step st s)) + 1
                      <= read (ctx s) + capacity)).
  { intros -> H. repeat split; auto; lia. }
  assert (Hbody : forall slot next,
            next <> WPrimeBody -> next <> WStreamBody ->
            w_pc (loop_body st slot next s) = next
            \/ w_pc (loop_body st slot next s) = WFault ->
            decoded (ctx s) + 1 <= read (ctx s) + capacity ->
            (0 <= read (ctx s) <= n + 1)
            /\ 0 <= decoded (ctx (loop_body st slot next s))
            /\ decoded (ctx (loop_body st slot next s))
               <= read (ctx s) + capacity
            /\ (w_pc (loop_body st slot next s) = WPrimeBody
                \/ w_pc (loop_body st slot next s) = WStreamBody ->
                decoded (ctx (loop_body st slot next s)) + 1
                <= read (ctx s) + capacity)).
  { intros slot next N1 N2 Hnext Hfree.
    pose proof (to_unsigned_le (decoded (ctx s) + 1) ltac:(lia)) as U.
    pose proof (to_unsigned_range (decoded (ctx s) + 1)) as R.
    split; [lia|].
    destruct (loop_body_decoded st slot next s) as [E|E]; rewrite E;
      (split; [lia|]); (split; [lia|]);
      intros [C|C]; destruct Hnext as [X|X]; congruence. }
  revert Hpc Hkeep Hbody. unfold worker_step.
  destruct (w_pc s) eqn:E; intros Hpc Hkeep Hbody.
  - apply Hkeep; [reflexivity|]. rewrite Hpc. intros [C|C]; discriminate.
  - destruct ((decoded (ctx s) <? bufferSize (ctx s)) && (w_read s =? 0)
              && window_open s) eqn:Hc; simpl in *.
    + apply andb_true_iff in Hc as [Hc _].
      apply andb_true_iff in Hc as [Hc _]. apply Z.ltb_lt in Hc.
      repeat split; auto; lia.
    + repeat split; auto; try lia. intros [C|C]; discriminate.
  - apply Hbody; try discriminate; auto.
  - simpl. repeat split; auto; try lia. intros [C|C]; discriminate.
  - destruct (_ && _); simpl; repeat split; auto; try lia;
      intros [C|C]; discriminate.
  - destruct (to_unsigned (decoded (ctx s) - read (ctx s))
              <? bufferSize (ctx s)) eqn:Hg; simpl.
    + apply Z.ltb_lt in Hg. rewrite Hb in Hg.
      repeat split; auto; try lia. intros _.
      destruct (Z_lt_le_dec (decoded (ctx s)) (read (ctx s))) as [L|L];
        [lia|].
      rewrite to_unsigned_small in Hg by lia. lia.
    + repeat split; auto; try lia. intros [C|C]; discriminate.
  - apply Hbody; try discriminate; auto.
  - simpl. repeat split; auto; try lia. intros [C|C]; discriminate.
  - repeat split; auto; try lia. rewrite E. intros [C|C]; discriminate.
  - repeat split; auto; try lia. rewrite E. intros [C|C]; discriminate.
Qed.

Lemma producer_inv_main (capacity n : Z) (evs : list Event) (s : World) :
  0 <= capacity ->
  n + 1 < UINT_MODULUS ->
  producer_inv capacity n s ->
  producer_inv capacity (n + 1) (main_step evs s).
Proof.
  intros Hcap Hn (Hr & Hd & Hle & Hroom).
  destruct (main_step_worker_side evs s)
    as (Ew & _ & _ & _ & _ & _ & Ed & _).
  unfold producer_inv. rewrite Ew, Ed.
  destruct (main_step_read evs s) as [E|E]; rewrite E.
  - repeat split; auto; lia.
  - rewrite to_unsigned_small by lia.
    repeat split; auto; lia.
Qed.

Lemma producer_inv_main_loads (capacity n : Z) (evs : list Event)
    (s : World) :
  0 <= capacity ->
  n + 1 < UINT_MODULUS ->
  producer_inv capacity n s ->
  producer_inv capacity (n + 1) (main_loads evs s).
Proof.
  intros Hcap Hn (Hr & Hd & Hle & Hroom).
  destruct (main_loads_worker_side evs s)
    as (Ew & _ & _ & _ & _ & _ & Ed & _).
  unfold producer_inv. rewrite Ew, Ed.
  destruct (main_loads_read evs s) as [E|E]; rewrite E.
  - repeat split; auto; lia.
  - rewrite to_unsigned_small by lia.
    repeat split; auto; lia.
Qed.

(** X9: the producer's half of the bounds of C1 holds along every execution
    short enough for the counters not to wrap: [decoded] is at most
    [read + capacity], whatever the presentation loop does. *)
Lemma producer_stays_within_capacity (st : Stream) (capacity : Z)
    (opened : bool) (sched : list Action) :
  0 <= capacity < UINT_MODULUS ->
  Z.of_nat (length sched) < UINT_MODULUS ->
  let s := run st sched (init capacity opened) in
  0 <= decoded (ctx s) <= read (ctx s) + capacity.
Proof.
  intros Hcap Hlen s.
  enough (H : producer_inv capacity (Z.of_nat (length sched)) s)
    by (destruct H as (_ & H1 & H2 & _); lia).
  subst s. induction sched as [|a sched IH] using rev_ind.
  - unfold producer_inv. simpl. repeat split; try lia.
    intros [C|C]; discriminate.
  - rewrite length_app in *. simpl in *. rewrite run_snoc.
    replace (Z.of_nat (length sched + 1)) with (Z.of_nat (length sched) + 1)
      in * by lia.
    specialize (IH ltac:(lia)).
    destruct a as [|evs|evs]; simpl.
    + apply producer_inv_worker; auto; try lia.
      apply (worker_inv_reachable st capacity opened); [exact Hcap|].
      now exists sched.
    + apply producer_inv_main; auto; lia.
    + apply producer_inv_main_loads; auto; lia.
Qed.

End ProducerBound.

Section RingBuffer.
Import Pipeline Props Examples.

Lemma mod_distinct (a b c : Z) : 0 < b - a < c -> a mod c <> b mod c.
Proof.
  intros H E.
  assert (Hz : (b - a) mod c = 0).
  { rewrite Zminus_mod, E, Z.sub_diag. apply Z.mod_0_l. lia. }
  rewrite Z.mod_small in Hz by lia. lia.
Qed.

(** What an iteration of a loop body does to the buffer. *)
Lemma loop_body_effect (st : Stream) (slot : VideoContext -> option Z)
    (next : WorkerPc) (s : World) :
  let s' := loop_body st slot next s in
  (ctx s' = ctx s /\ produced s' = produced s)
  \/ (exists i f,
        slot (ctx s) = Some i
        /\ (Z.to_nat i < length (buffer (ctx s)))%nat
        /\ buffer (ctx s') = <[Z.to_nat i := Some f]> (buffer (ctx s))
        /\ decoded (ctx s') = to_unsigned (decoded (ctx s) + 1)
        /\ produced s' = produced s ++ [f])
  \/ w_pc s' = WFault.
Proof.
  unfold loop_body. destruct (av_read_frame st (cursor s)) as [r p]. simpl.
  destruct (yields_frame _ p); simpl; [|now left].
  destruct (slot (ctx s)) as [i|] eqn:Hs; simpl; [|now right; right].
  unfold store_frame. simpl. destruct (decide _) as [Hin|Hout]; simpl.
  - right. left. exists i, (pixels p). repeat split; auto.
  - right. right. reflexivity.
Qed.

(** Storing the next frame keeps the ring in order. *)
Lemma ring_inv_store (capacity n : Z) (s s' : World) (f : Frame) :
  0 < capacity ->
  n + 1 < UINT_MODULUS ->
  ring_inv capacity n s ->
  decoded (ctx s) + 1 <= read (ctx s) + capacity ->
  (Z.to_nat (decoded (ctx s) mod capacity) < length (buffer (ctx s)))%nat ->
  buffer (ctx s')
  = <[Z.to_nat (decoded (ctx s) mod capacity) := Some f]> (buffer (ctx s)) ->
  decoded (ctx s') = to_unsigned (decoded (ctx s) + 1) ->
  produced s' = produced s ++ [f] ->
  read (ctx s') = read (ctx s) ->
  shown s' = shown s -> m_pc s' = m_pc s ->
  w_pc s' <> WPrimeBody -> w_pc s' <> WStreamBody -> w_pc s' <> WCreate ->
  ring_inv capacity (n + 1) s'.
Proof.
  intros Hcap Hn (H0 & Hrd & Hdc & Hdn & Hlen & Hsh & Hsl & _ & _ & Hm)
    Hroom Hin Eb Ed Ep Er Es Em N1 N2 N3.
  unfold ring_inv. rewrite Eb, Ed, Ep, Er, Es, Em.
  rewrite to_unsigned_small by lia. rewrite length_app. simpl.
  repeat split; auto; try lia; try congruence.
  - rewrite take_app_le by lia. exact Hsh.
  - intros i g Hi Hg.
    destruct (decide (i < length (produced s))%nat) as [Hlt|Hge].
    + rewrite lookup_app_l in Hg by exact Hlt.
      rewrite list_lookup_insert_ne.
      * now apply Hsl.
      * intros E. apply Z2Nat.inj in E;
          try (apply Z.mod_pos_bound; lia).
        symmetry in E. revert E. apply mod_distinct. lia.
    + pose proof (lookup_lt_Some _ _ _ Hg) as Hb.
      rewrite length_app in Hb. simpl in Hb.
      assert (i = length (produced s)) as -> by lia.
      rewrite lookup_app_r in Hg by lia.
      rewrite Nat.sub_diag in Hg. simpl in Hg. injection Hg as <-.
      rewrite Hlen. now apply list_lookup_insert_eq.
  - intros [C|C]; contradiction.
Qed.

Lemma ring_inv_worker (st : Stream) (capacity n : Z) (opened : bool)
    (s : World) :
  0 <= capacity < UINT_MODULUS ->
  n + 1 < UINT_MODULUS ->
  worker_inv st capacity opened s ->
  ring_inv capacity n s ->
  ring_inv capacity (n + 1) (worker_step st s).
Proof.
  intros Hcap Hn Hw Hring.
  pose proof (worker_inv_worker st capacity opened s ltac:(lia) Hw)
    as (_ & _ & _ & _ & Hnf & _).
  pose proof Hw as (Hbs & Hbl & _ & _ & _ & Hsb & Hprim).
  pose proof Hring as (H0 & Hrd & Hdc & Hdn & Hlen & Hsh & Hsl & Hroom & Hcr & Hm).
  destruct (worker_step_main_side st s) as (Em & _ & Es & Er & _).
  assert (Hsame : forall w,
            buffer (ctx w) = buffer (ctx s) ->
            decoded (ctx w) = decoded (ctx s) ->
            read (ctx w) = read (ctx s) ->
            produced w = produced s -> shown w = shown s ->
            m_pc w = m_pc s ->
            (w_pc w = WPrimeBody \/ w_pc w = WStreamBody ->
             decoded (ctx s) + 1 <= read (ctx s) + capacity) ->
            w_pc w <> WCreate ->
            ring_inv capacity (n + 1) w).
  { intros w Eb Ed Erd Ep Esh Emp Hr' Hnc. unfold ring_inv.
    rewrite Eb, Ed, Erd, Ep, Esh, Emp.
    repeat split; auto; try lia; try congruence. }
  assert (Hbody : forall slot next,
            (w_pc s = WPrimeBody \/ w_pc s = WStreamBody) ->
            next <> WPrimeBody -> next <> WStreamBody -> next <> WCreate ->
            0 < capacity ->
            slot (ctx s) = Some (decoded (ctx s) mod capacity) ->
            w_pc (loop_body st slot next s) <> WFault ->
            ring_inv capacity (n + 1) (loop_body st slot next s)).
  { intros slot next Hpc N1 N2 N3 Hpos Hslot Hok.
    destruct (loop_body_main_side st slot next s)
      as (Em' & _ & Es' & Er' & _).
    destruct (loop_body_pc st slot next s) as [Epc|Epc]; [|contradiction].
    destruct (loop_body_effect st slot next s)
      as [[Ec Ep]|[(i & f & Hi & Hin & Eb & Ed & Ep)|Hf]];
      [| |contradiction].
    - apply Hsame; rewrite ?Ec; try reflexivity; try assumption;
        rewrite Epc; try assumption.
      intros [C|C]; congruence.
    - rewrite Hslot in Hi. injection Hi as <-.
      apply (ring_inv_store capacity n s _ f); try assumption;
        rewrite ?Epc; try assumption. apply Hroom. exact Hpc. }
  revert Hnf Hbody. unfold worker_step.
  destruct (w_pc s) eqn:E; intros Hnf Hbody.
  - unfold ring_inv. simpl. rewrite (Hcr eq_refl) in *. simpl.
    repeat split; auto; try lia; try discriminate.
    intros [C|C]; discriminate.
  - destruct ((decoded (ctx s) <? bufferSize (ctx s)) && (w_read s =? 0)
              && window_open s) eqn:Hc.
    + apply andb_true_iff in Hc as [Hc _].
      apply andb_true_iff in Hc as [Hc _]. apply Z.ltb_lt in Hc.
      apply Hsame; simpl; try reflexivity; try discriminate.
      intros _. lia.
    + apply Hsame; simpl; try reflexivity; try discriminate.
      intros [C|C]; discriminate.
  - destruct (Hprim eq_refl) as (_ & _ & _ & _ & _ & _ & _ & Hb & _).
    destruct (Hb eq_refl) as (Hlt & _).
    apply Hbody; try discriminate; try lia; try assumption; [now left|].
    unfold priming_slot. rewrite Z.mod_small by lia. reflexivity.
  - apply Hsame; simpl; try reflexivity; try discriminate.
    intros [C|C]; discriminate.
  - destruct (_ && _); apply Hsame; simpl; try reflexivity;
      try discriminate; intros [C|C]; discriminate.
  - destruct (to_unsigned (decoded (ctx s) - read (ctx s))
              <? bufferSize (ctx s)) eqn:Hg.
    + apply Z.ltb_lt in Hg. rewrite to_unsigned_small in Hg by lia.
      apply Hsame; simpl; try reflexivity; try discriminate.
      intros _. lia.
    + apply Hsame; simpl; try reflexivity; try discriminate.
      intros [C|C]; discriminate.
  - specialize (Hsb eq_refl).
    apply Hbody; try discriminate; try assumption; [now right|].
    unfold streaming_slot. rewrite Hbs.
    destruct (capacity =? 0) eqn:E0; [apply Z.eqb_eq in E0; lia|].
    reflexivity.
  - apply Hsame; simpl; try reflexivity; try discriminate.
    intros [C|C]; discriminate.
  - apply Hsame; try reflexivity; rewrite E; try discriminate.
    intros [C|C]; discriminate.
  - apply Hsame; try reflexivity; rewrite E; try discriminate.
    intros [C|C]; discriminate.
Qed.

(** A step that touches neither the buffer nor the counters nor the logs
    keeps the ring in order. *)
Lemma ring_inv_same (capacity n n' : Z) (s w : World) :
  ring_inv capacity n s ->
  n <= n' ->
  ctx w = ctx s -> produced w = produced s -> shown w = shown s ->
  w_pc w = w_pc s -> m_pc w <> MFault ->
  ring_inv capacity n' w.
Proof.
  intros (H0 & Hrd & Hdc & Hdn & Hlen & Hsh & Hsl & Hroom & Hcr & Hm)
    Hn Ec Ep Esh Ew Hnf.
  unfold ring_inv. rewrite Ec, Ep, Esh, Ew.
  repeat split; auto; lia.
Qed.

(** Drawing a frame that is waiting keeps the ring in order. *)
Lemma ring_inv_display (capacity n : Z) (s : World) :
  0 <= capacity < UINT_MODULUS ->
  n + 1 < UINT_MODULUS ->
  bufferSize (ctx s) = capacity ->
  ring_inv capacity n s ->
  read (ctx s) < decoded (ctx s) ->
  ring_inv capacity (n + 1) (display s).
Proof.
  intros Hcap Hn Hbs
    (H0 & Hrd & Hdc & Hdn & Hlen & Hsh & Hsl & Hroom & Hcr & Hm) Hlt.
  assert (Hpos : 0 < capacity) by lia.
  assert (Hn' : (Z.to_nat (read (ctx s)) < length (produced s))%nat)
    by lia.
  destruct (lookup_lt_is_Some_2 _ _ Hn') as [f Hf].
  pose proof (Hsl (Z.to_nat (read (ctx s))) f ltac:(lia) Hf) as Hslot.
  rewrite Z2Nat.id in Hslot by lia.
  unfold display. rewrite Hbs.
  destruct (capacity =? 0) eqn:E0; [apply Z.eqb_eq in E0; lia|].
  rewrite Hslot. unfold ring_inv. simpl.
  rewrite to_unsigned_small by lia.
  repeat split; auto; try lia.
  - replace (Z.to_nat (read (ctx s) + 1))
      with (S (Z.to_nat (read (ctx s)))) by lia.
    rewrite (take_S_r _ _ _ Hf), map_app, <- Hsh. reflexivity.
  - intros i g Hi Hg. apply Hsl; [lia | exact Hg].
Qed.

Lemma ring_inv_main (st : Stream) (capacity n : Z) (opened : bool)
    (evs : list Event) (s : World) :
  0 <= capacity < UINT_MODULUS ->
  n + 1 < UINT_MODULUS ->
  worker_inv st capacity opened s ->
  ring_inv capacity n s ->
  fed s (Main evs) = true ->
  ring_inv capacity (n + 1) (main_step evs s).
Proof.
  intros Hcap Hn Hw Hring Hfed.
  pose proof Hw as (Hbs & _).
  pose proof Hring as (_ & _ & _ & _ & _ & _ & _ & _ & _ & Hm).
  destruct (poll_fields evs s) as (Pc & Pw & _ & _ & Pm & Pp & Ps).
  unfold main_step. unfold fed in Hfed. destruct (m_pc s) eqn:E.
  - destruct (filled (ctx s));
      apply (ring_inv_same capacity n (n + 1) s); simpl; auto;
      try discriminate; try lia; congruence.
  - rewrite (tick_spec evs s E).
    destruct (exit_condition (poll evs s)) eqn:Hx.
    + apply (ring_inv_same capacity n (n + 1) s); simpl; auto;
        try discriminate; lia.
    + simpl in Hfed. apply Z.ltb_lt in Hfed.
      apply ring_inv_display; auto; try congruence.
      apply (ring_inv_same capacity n n s); auto; try lia; congruence.
  - unfold finish_test. destruct (ended (ctx s)) eqn:He.
    + apply (ring_inv_same capacity n (n + 1) s); simpl; auto;
        try discriminate; lia.
    + simpl in Hfed. apply Z.ltb_lt in Hfed.
      apply ring_inv_display; auto.
      apply (ring_inv_same capacity n n s); simpl; auto; try lia;
        discriminate.
  - apply (ring_inv_same capacity n (n + 1) s); auto; try lia; congruence.
  - contradiction.
Qed.

Lemma ring_inv_main_loads (st : Stream) (capacity n : Z) (opened : bool)
    (evs : list Event) (s : World) :
  0 <= capacity < UINT_MODULUS ->
  n + 1 < UINT_MODULUS ->
  worker_inv st capacity opened s ->
  ring_inv capacity n s ->
  fed s (MainLoads evs) = true ->
  ring_inv capacity (n + 1) (main_loads evs s).
Proof.
  intros Hcap Hn Hw Hring Hfed.
  pose proof Hw as (Hbs & _).
  destruct (poll_fields evs s) as (Pc & Pw & _ & _ & Pm & Pp & Ps).
  destruct (decide (m_pc s = MLoop)) as [E|NE].
  - unfold main_loads, first_loads. unfold fed in Hfed. rewrite E in *.
    destruct (window_open (poll evs s)); simpl in *.
    + rewrite Pc. destruct (read (ctx s) =? decoded (ctx s)) eqn:Hr.
      * apply (ring_inv_same capacity n (n + 1) s); simpl; auto;
          try discriminate; lia.
      * apply Z.leb_le in Hfed. apply Z.eqb_neq in Hr.
        apply ring_inv_display; auto; try congruence;
          try (rewrite Pc; lia).
        apply (ring_inv_same capacity n n s); auto; try lia.
        congruence.
    + apply (ring_inv_same capacity n (n + 1) s); simpl; auto;
        try discriminate; lia.
  - assert (Em : main_loads evs s = main_step evs s)
      by (unfold main_loads; destruct (m_pc s); congruence).
    rewrite Em. apply (ring_inv_main st capacity n opened); auto.
    unfold fed in *. destruct (m_pc s); congruence.
Qed.

Lemma ring_inv_run (st : Stream) (capacity : Z) (opened : bool)
    (sched : list Action) :
  0 <= capacity < UINT_MODULUS ->
  forall (s : World) (n : Z),
    worker_inv st capacity opened s ->
    ring_inv capacity n s ->
    n + Z.of_nat (length sched) < UINT_MODULUS ->
    never_starved st sched s = true ->
    ring_inv capacity (n + Z.of_nat (length sched)) (run st sched s).
Proof.
  intros Hcap. induction sched as [|a sched IH]; intros s n Hw Hring Hn Hfed.
  - simpl. now rewrite Z.add_0_r.
  - change (run st (a :: sched) s) with (run st sched (step st s a)).
    simpl length in *. simpl in Hfed.
    apply andb_true_iff in Hfed as [Hnow Hrest].
    replace (n + Z.of_nat (S (length sched)))
      with ((n + 1) + Z.of_nat (length sched)) in * by lia.
    apply IH; try assumption.
    + destruct a as [|evs|evs]; simpl;
        [apply worker_inv_worker; [lia | exact Hw]
        | now apply worker_inv_main | now apply worker_inv_main_loads].
    + destruct a as [|evs|evs]; simpl.
      * apply (ring_inv_worker st capacity n opened); auto; lia.
      * apply (ring_inv_main st capacity n opened); auto; lia.
      * apply (ring_inv_main_loads st capacity n opened); auto; lia.
Qed.

(** X10: what C1 and C2 ask for holds along every execution in which the
    presentation loop never draws from an empty buffer (and short enough for
    the counters not to wrap): the counters stay in order, [main] never
    faults, and the frames drawn are the first [read] frames produced, in
    the order of their production. *)
Lemma frames_in_order_when_never_starved (st : Stream) (capacity : Z)
    (opened : bool) (sched : list Action) :
  0 <= capacity < UINT_MODULUS ->
  Z.of_nat (length sched) < UINT_MODULUS ->
  never_starved st sched (init capacity opened) = true ->
  let s := run st sched (init capacity opened) in
  read (ctx s) <= decoded (ctx s) <= read (ctx s) + capacity
  /\ Z.of_nat (length (produced s)) = decoded (ctx s)
  /\ shown s = map Some (take (Z.to_nat (read (ctx s))) (produced s))
  /\ m_pc s <> MFault.
Proof.
  intros Hcap Hlen Hfed s.
  assert (H0 : ring_inv capacity 0 (init capacity opened)).
  { unfold ring_inv. simpl. repeat split; auto; try lia; try discriminate.
    intros [C|C]; discriminate. }
  pose proof (ring_inv_run st capacity opened sched Hcap _ 0
                (worker_inv_init st capacity opened ltac:(lia)) H0
                ltac:(lia) Hfed)
    as (_ & Hrd & Hdc & _ & Hl & Hsh & _ & _ & _ & Hm).
  fold s in Hrd, Hdc, Hl, Hsh, Hm. repeat split; auto.
Qed.

(** The ten-picture film played by the schedule [steady] is such an
    execution, and so is each of its prefixes. *)
Lemma steady_is_never_starved :
  never_starved (movie [10; 11; 12; 13; 14; 15; 16; 17; 18; 19]) steady
    (init 5 true) = true.
Proof. vm_compute. reflexivity. Qed.

End RingBuffer.

(** * More on the setup phase *)

Section SetupMore.
Import Setup SetupSpec.

(** X1: a file that opens, has stream information and whose first video
    stream runs at a rate that an [unsigned int] can hold. Every step of
    the setup then has defined behaviour: setup throws when that stream
    has no decoder, ends in [std::bad_alloc] when [new] finds no memory for
    the buffer, and hands over to the pipeline otherwise, with that
    stream's index, its rate and the rate cut to an integer. None of the
    throws of lines 119, 122 and 127 is reached, and what [avcodec_open2]
    returned plays no part. *)
Theorem setup_of_playable_file (c : Container) (k : nat) (st : AVStream)
    (q : Q) (n : Z) :
  Z.of_nat (length (streams c)) < UINT_MODULUS ->
  open_input c = 0 ->
  0 <= find_stream_info c ->
  streams c !! k = Some st ->
  codec_type st = AVMEDIA_TYPE_VIDEO ->
  (forall j st', (j < k)%nat -> streams c !! j = Some st' ->
                 codec_type st' <> AVMEDIA_TYPE_VIDEO) ->
  av_q2d (r_frame_rate st) = Some q ->
  cast_unsigned q = Some n ->
  undefined (main_setup c) = false
  /\ main_setup c
     = if decoder_found st
       then match new_textures c n with
            | Some _ => Ready {| p_videoStreamIndex := Z.of_nat k;
                                 p_fps := q;
                                 p_bufferSize := n |}
            | None => BadAlloc
            end
       else Thrown "cannot find video codec".
Proof.
  intros Hlen Ho Hi Hk Hv Hmin Hq Hn.
  rewrite (main_setup_selects c k st) by assumption.
  destruct (decoder_found st); [|now split].
  unfold allocate. rewrite Hq, (cast_unsigned_size_t _ _ Hn).
  destruct (new_textures c n); [|now split].
  simpl. rewrite Hn. now split.
Qed.

(** The second stream is selected, at 25 frames per second, although its
    decoder did not open and a later video stream would. *)
Lemma setup_of_playable_file_witness :
  undefined (main_setup two_video_streams) = false
  /\ main_setup two_video_streams
     = Ready {| p_videoStreamIndex := 1; p_fps := 25 # 1;
                p_bufferSize := 25 |}.
Proof.
  apply (setup_of_playable_file two_video_streams 1
           {| codec_type := AVMEDIA_TYPE_VIDEO; decoder_found := true;
              open2 := -22; r_frame_rate := {| num := 25; den := 1 |} |}
           (25 # 1) 25); try reflexivity.
  intros j st' Hj Hl. destruct j as [|j]; [|lia].
    simpl in Hl. injection Hl as <-. discriminate.
Defined.

Lemma scan_streams_reopen (answer : AVStream -> Z) (ss : list AVStream)
    (i : Z) :
  match scan_streams ss i,
        scan_streams
          (map (fun s => {| codec_type := codec_type s;
                            decoder_found := decoder_found s;
                            open2 := answer s;
                            r_frame_rate := r_frame_rate s |}) ss) i with
  | ScanThrow m, ScanThrow m' => m = m'
  | ScanDone v _, ScanDone v' _ => v = v'
  | _, _ => False
  end.
Proof.
  revert i. induction ss as [|s ss IH]; intros i; simpl; [reflexivity|].
  destruct (decide (codec_type s = AVMEDIA_TYPE_VIDEO)); [|apply IH].
  destruct (decoder_found s); reflexivity.
Qed.

(** X2: the outcome of setup does not depend on what [avcodec_open2]
    returns: [res] is an [unsigned int], the test [res < 0] of line 121
    never holds, and a decoder that failed to open is handed to the
    pipeline like one that opened. *)
Theorem setup_ignores_decoder_open (answer : AVStream -> Z) (c : Container) :
  main_setup (reopen answer c) = main_setup c.
Proof.
  unfold main_setup, reopen. simpl.
  destruct (open_input c =? 0); simpl; [|reflexivity].
  destruct (find_stream_info c <? 0); [reflexivity|].
  pose proof (scan_streams_reopen answer (streams c) 0) as H.
  destruct (scan_streams (streams c) 0) as [m|v r];
    destruct (scan_streams (map _ (streams c)) 0) as [m'|v' r'];
    try contradiction; subst; [reflexivity|].
  rewrite list_lookup_fmap.
  destruct (streams c !! Z.to_nat v') as [st|]; simpl; [|reflexivity].
  destruct (v' =? UINT_MINUS_ONE); [reflexivity|].
  rewrite !to_unsigned_not_negative. reflexivity.
Qed.

(** X3: only the first video stream is looked at. When it has no decoder,
    setup throws, whatever streams follow. *)
Theorem first_video_stream_decides (c : Container) (k : nat) (st : AVStream) :
  open_input c = 0 ->
  0 <= find_stream_info c ->
  streams c !! k = Some st ->
  codec_type st = AVMEDIA_TYPE_VIDEO ->
  (forall j st', (j < k)%nat -> streams c !! j = Some st' ->
                 codec_type st' <> AVMEDIA_TYPE_VIDEO) ->
  decoder_found st = false ->
  main_setup c = Thrown "cannot find video codec".
Proof.
  intros Ho Hi Hk Hv Hmin Hd.
  unfold main_setup. rewrite Ho. simpl.
  destruct (find_stream_info c <? 0) eqn:E; [apply Z.ltb_lt in E; lia|].
  rewrite scan_streams_first_video.
  rewrite (proj2 (first_video_Some (streams c) k st)) by auto.
  now rewrite Hd.
Qed.

Lemma first_video_stream_decides_witness :
  main_setup unknown_codec_first = Thrown "cannot find video codec".
Proof.
  apply (first_video_stream_decides unknown_codec_first 0
           {| codec_type := AVMEDIA_TYPE_VIDEO; decoder_found := false;
              open2 := 0; r_frame_rate := {| num := 25; den := 1 |} |});
    try reflexivity; simpl; lia.
Defined.

End SetupMore.

(** * More on the pipeline *)

Section WorkerReads.
Import Pipeline Props Examples PipelineSpec.

Lemma frames_of_app (i : Z) (ps qs : list Packet) :
  frames_of i (ps ++ qs) = frames_of i ps ++ frames_of i qs.
Proof.
  induction ps as [|p ps IH]; simpl; [reflexivity|].
  destruct (yields_frame i p); simpl; now rewrite IH.
Qed.

Lemma length_frames_of (i : Z) (ps : list Packet) :
  Z.of_nat (length (frames_of i ps)) = frames_in i ps.
Proof.
  induction ps as [|p ps IH]; simpl; [reflexivity|].
  destruct (yields_frame i p); simpl length; lia.
Qed.

Lemma length_frames_of_le (i : Z) (ps : list Packet) :
  (length (frames_of i ps) <= length ps)%nat.
Proof.
  induction ps as [|p ps IH]; simpl; [lia|].
  destruct (yields_frame i p); simpl; lia.
Qed.

Lemma to_unsigned_succ (z : Z) :
  to_unsigned (to_unsigned z + 1) = to_unsigned (z + 1).
Proof. unfold to_unsigned. apply Zplus_mod_idemp_l. Qed.

Lemma reads_inv_init (st : Stream) (capacity : Z) (opened : bool) :
  reads_inv st (init capacity opened).
Proof.
  unfold reads_inv. simpl. repeat split; auto.
  - left. split; [reflexivity | lia].
  - intros [C|C]; discriminate.
Qed.

(** An iteration of a loop body that stays inside the buffer. *)
Lemma reads_inv_body (st : Stream) (slot : VideoContext -> option Z)
    (next : WorkerPc) (s : World) :
  videoStreamIndex (ctx s) = 0 ->
  reads_inv st s ->
  w_read s = 0 ->
  w_pc (loop_body st slot next s) <> WFault ->
  next = WPrimeCheck \/ next = WStreamCheck ->
  reads_inv st (loop_body st slot next s).
Proof.
  intros Hv (Hp & Hd & Hcur & _ & _) Hr0 Hnf Hnext.
  destruct Hcur as [[_ Hcur]|[Hne _]]; [|contradiction].
  destruct (av_read_frame_spec st (cursor s) Hcur) as (r & p & Er & Ep & Hrp).
  assert (Hcur' : (r = 0 /\ (S (cursor s) <= length (packets st))%nat)
                  \/ (r <> 0 /\ S (cursor s) = S (length (packets st))))
    by (destruct Hrp as [[? ?]|[? ?]]; [left | right]; split; auto; lia).
  assert (Hpc : forall pc, pc = next ->
            (pc = WPrimeBody \/ pc = WStreamGuard \/ pc = WStreamBody -> r = 0)
            /\ (pc = WSetEnded \/ pc = WReturned ->
                r <> 0 \/ window_open s = false)).
  { intros pc ->. split.
    - intros [C|[C|C]]; destruct Hnext; congruence.
    - intros [C|C]; destruct Hnext; congruence. }
  revert Hnf. unfold loop_body. rewrite Er. simpl. rewrite Hv.
  destruct (yields_frame 0 p) eqn:Hy.
  - destruct (slot (ctx s)) as [i|]; simpl; [|congruence].
    unfold store_frame. simpl. destruct (decide _); simpl; [|congruence].
    intros _. unfold reads_inv. simpl.
    rewrite Hd, Hp, take_S_r with (x := p), frames_of_app by exact Ep.
    simpl. rewrite Hy. rewrite !length_app. simpl.
    rewrite to_unsigned_succ.
    replace (Z.of_nat (length (frames_of 0 (take (cursor s) (reads st))) + 1))
      with (Z.of_nat (length (frames_of 0 (take (cursor s) (reads st)))) + 1)
      by lia.
    repeat split; auto; apply (Hpc next eq_refl).
  - intros _. unfold reads_inv. simpl.
    rewrite take_S_r with (x := p), frames_of_app by exact Ep.
    simpl. rewrite Hy, app_nil_r.
    repeat split; auto; apply (Hpc next eq_refl).
Qed.

#[local] Ltac side :=
  try solve [ intros [C|[C|C]]; discriminate
            | intros [C|C]; discriminate ].

Lemma reads_inv_worker (st : Stream) (capacity : Z) (opened : bool)
    (s : World) :
  capacity < UINT_MODULUS ->
  worker_inv st capacity opened s ->
  reads_inv st s ->
  reads_inv st (worker_step st s).
Proof.
  intros Hcap Hw Hinv.
  pose proof (worker_inv_worker st capacity opened s Hcap Hw)
    as (_ & _ & _ & _ & Hnf & _).
  destruct Hw as (_ & _ & Hv & _).
  pose proof Hinv as (Hp & Hd & Hcur & Hbody & Hend).
  assert (Hfin : forall w,
            produced w = produced s -> decoded (ctx w) = decoded (ctx s) ->
            cursor w = cursor s -> w_read w = w_read s ->
            window_open w = window_open s ->
            (w_pc w = WPrimeBody \/ w_pc w = WStreamGuard
             \/ w_pc w = WStreamBody -> w_read s = 0) ->
            (w_pc w = WSetEnded \/ w_pc w = WReturned ->
             w_read s <> 0 \/ window_open s = false) ->
            reads_inv st w).
  { intros w E1 E2 E3 E4 E5 H1 H2. unfold reads_inv.
    rewrite E1, E2, E3, E4, E5. repeat split; auto. }
  revert Hnf. unfold worker_step.
  destruct (w_pc s) eqn:E; intros Hnf.
  - apply Hfin; simpl; auto; side.
  - destruct ((decoded (ctx s) <? bufferSize (ctx s)) && (w_read s =? 0)
              && window_open s) eqn:Hc.
    + apply andb_true_iff in Hc as [Hc _].
      apply andb_true_iff in Hc as [_ Hc]. apply Z.eqb_eq in Hc.
      apply Hfin; simpl; auto; side.
    + apply Hfin; simpl; auto; side.
  - apply reads_inv_body; auto.
  - apply Hfin; simpl; auto; side.
  - destruct ((w_read s =? 0) && window_open s) eqn:Hc.
    + apply andb_true_iff in Hc as [Hc _]. apply Z.eqb_eq in Hc.
      apply Hfin; simpl; auto; side.
    + assert (Hx : w_read s <> 0 \/ window_open s = false).
      { apply andb_false_iff in Hc as [Hc|Hc]; [left | right; exact Hc].
        now apply Z.eqb_neq. }
      apply Hfin; simpl; auto; side.
  - destruct (_ <? _); apply Hfin; simpl; auto; side.
  - apply reads_inv_body; auto.
  - apply Hfin; simpl; auto; side.
  - exact Hinv.
  - exact Hinv.
Qed.

Lemma reads_inv_main (st : Stream) (evs : list Event) (s : World) :
  reads_inv st s -> reads_inv st (main_step evs s).
Proof.
  intros (Hp & Hd & Hcur & Hbody & Hend).
  destruct (main_step_worker_side evs s)
    as (Ew & Er & Ec & Epr & _ & _ & Ed & _).
  unfold reads_inv. rewrite Ew, Er, Ec, Epr, Ed.
  repeat split; auto.
  intros H. destruct (Hend H) as [C|C]; [now left|].
  right. now apply main_step_window_closed.
Qed.

Lemma reads_inv_main_loads (st : Stream) (evs : list Event) (s : World) :
  reads_inv st s -> reads_inv st (main_loads evs s).
Proof.
  intros (Hp & Hd & Hcur & Hbody & Hend).
  destruct (main_loads_worker_side evs s)
    as (Ew & Er & Ec & Epr & _ & _ & Ed & _).
  unfold reads_inv. rewrite Ew, Er, Ec, Epr, Ed.
  repeat split; auto.
  intros H. destruct (Hend H) as [C|C]; [now left|].
  right. now apply main_loads_window_closed.
Qed.

Lemma reads_inv_reachable (st : Stream) (capacity : Z) (opened : bool)
    (s : World) :
  0 <= capacity < UINT_MODULUS ->
  reachable st capacity opened s -> reads_inv st s.
Proof.
  intros Hcap. apply reachable_ind.
  - apply reads_inv_init.
  - intros w [|evs|evs] Hr Hi; simpl.
    + apply (reads_inv_worker st capacity opened); auto; [lia|].
      now apply worker_inv_reachable.
    + now apply reads_inv_main.
    + now apply reads_inv_main_loads.
Qed.

(** X4: in every execution the worker has stored exactly the pictures of the
    packets it has read so far that gave a frame, in the order of the file,
    and [decoded] is their number; it reads every packet once, and once a
    read has failed it does not read again. *)
Theorem worker_stores_what_it_reads (st : Stream) (capacity : Z)
    (opened : bool) (s : World) :
  0 <= capacity < UINT_MODULUS ->
  Z.of_nat (length (reads st)) < UINT_MODULUS ->
  reachable st capacity opened s ->
  produced s = frames_of 0 (take (cursor s) (reads st))
  /\ decoded (ctx s) = Z.of_nat (length (produced s))
  /\ (cursor s <= length (reads st))%nat
  /\ (w_read s <> 0 ->
      cursor s = length (reads st)
      /\ cursor (worker_step st s) = cursor s
      /\ produced (worker_step st s) = produced s).
Proof.
  intros Hcap Hlen Hreach.
  pose proof (reads_inv_reachable _ _ _ _ Hcap Hreach)
    as (Hp & Hd & Hcur & Hbody & _).
  pose proof (length_reads st) as L.
  assert (Hc : (cursor s <= length (reads st))%nat)
    by (destruct Hcur as [[_ ?]|[_ ?]]; lia).
  split; [exact Hp|]. split; [|split; [exact Hc|]].
  - rewrite Hd. apply to_unsigned_small.
    rewrite Hp.
    pose proof (length_frames_of_le 0 (take (cursor s) (reads st))) as Hle.
    rewrite length_take in Hle. lia.
  - intros Hne.
    destruct Hcur as [[H0 _]|[_ Hcs]]; [contradiction|].
    split; [lia|].
    assert (Hnb : w_pc s <> WPrimeBody /\ w_pc s <> WStreamBody).
    { split; intros C; apply Hne, Hbody; auto. }
    destruct Hnb as [N1 N2].
    split.
    + rewrite worker_step_cursor. destruct (w_pc s); congruence.
    + unfold worker_step. destruct (w_pc s); simpl; auto; try congruence;
        case_match; reflexivity.
Qed.

(** A film of ten pictures, three of them read. *)
Lemma worker_stores_what_it_reads_witness :
  let s := run ten_pictures (repeat Worker 7) (init 5 true) in
  cursor s = 3%nat /\ produced s = [10; 11; 12] /\ decoded (ctx s) = 3.
Proof.
  intros s.
  destruct (worker_stores_what_it_reads ten_pictures 5 true s)
    as (Hp & Hd & _).
  - unfold UINT_MODULUS. lia.
  - vm_compute. reflexivity.
  - now exists (repeat Worker 7).
  - split; [reflexivity|]. split; [rewrite Hp; reflexivity|].
    rewrite Hd, Hp. reflexivity.
Defined.

End WorkerReads.

Section Safety.
Import Pipeline Props Examples PipelineSpec.

Lemma display_stays_inside (s : World) :
  0 < bufferSize (ctx s) ->
  length (buffer (ctx s)) = Z.to_nat (bufferSize (ctx s)) ->
  m_pc (display s) = m_pc s.
Proof.
  intros Hpos Hlen. unfold display.
  destruct (bufferSize (ctx s) =? 0) eqn:E0; [apply Z.eqb_eq in E0; lia|].
  pose proof (Z.mod_pos_bound (read (ctx s)) (bufferSize (ctx s)) Hpos) as Hm.
  destruct (lookup_lt_is_Some_2 (buffer (ctx s))
              (Z.to_nat (read (ctx s) mod bufferSize (ctx s))))
    as [t Ht]; [lia|].
  rewrite Ht. reflexivity.
Qed.

Lemma main_step_stays_inside (evs : list Event) (s : World) :
  0 < bufferSize (ctx s) ->
  length (buffer (ctx s)) = Z.to_nat (bufferSize (ctx s)) ->
  m_pc s <> MFault -> m_pc (main_step evs s) <> MFault.
Proof.
  intros Hpos Hlen Hm. unfold main_step. destruct (m_pc s) eqn:E.
  - destruct (filled (ctx s)); simpl; congruence.
  - rewrite (tick_spec evs s E).
    destruct (poll_fields evs s) as (Pc & _ & _ & _ & Pm & _).
    destruct (exit_condition (poll evs s)); simpl; [discriminate|].
    rewrite display_stays_inside; rewrite ?Pc; auto. congruence.
  - unfold finish_test. destruct (ended (ctx s)); simpl; [discriminate|].
    rewrite display_stays_inside; simpl; auto.
  - congruence.
  - contradiction.
Qed.

Lemma main_loads_stays_inside (evs : list Event) (s : World) :
  0 < bufferSize (ctx s) ->
  length (buffer (ctx s)) = Z.to_nat (bufferSize (ctx s)) ->
  m_pc s <> MFault -> m_pc (main_loads evs s) <> MFault.
Proof.
  intros Hpos Hlen Hm.
  destruct (main_loads_cases evs s) as [E|(_ & _ & _ & _ & E)]; rewrite E;
    [now apply main_step_stays_inside | discriminate].
Qed.

(** Once [main] has left its loop it stays out of it. *)
Lemma exited_is_final (st : Stream) (s : World) (a : Action) :
  m_pc s = MExited -> m_pc (step st s a) = MExited.
Proof.
  intros H. destruct a as [|evs|evs]; simpl.
  - destruct (worker_step_main_side st s) as (-> & _). exact H.
  - unfold main_step. now rewrite H.
  - unfold main_loads, main_step. now rewrite H.
Qed.

(** X5: as long as [main] is in its loop, and the buffer therefore not
    deleted, neither side leaves the buffer. In every such state of an
    execution the buffer has its [bufferSize] slots, the worker has not
    stored at an index outside it nor divided by zero, and with at least
    one slot neither has [main], even when it drew slots that were never
    written. With no slot at all (a frame rate below 1), every paced
    iteration that does not leave the loop divides by zero. *)
Theorem buffer_indices_stay_inside_in_the_loop (st : Stream) (capacity : Z)
    (opened : bool) (s : World) :
  0 <= capacity < UINT_MODULUS ->
  reachable st capacity opened s ->
  m_pc s <> MExited ->
  bufferSize (ctx s) = capacity
  /\ length (buffer (ctx s)) = Z.to_nat capacity
  /\ w_pc s <> WFault
  /\ (1 <= capacity -> m_pc s <> MFault)
  /\ (capacity = 0 -> forall evs,
        m_pc s = MLoop -> exit_condition (poll evs s) = false ->
        m_pc (main_step evs s) = MFault).
Proof.
  intros Hcap Hreach _.
  pose proof (worker_inv_reachable _ _ _ _ Hcap Hreach)
    as (Hb & Hl & _ & _ & Hf & _).
  split; [exact Hb|]. split; [exact Hl|]. split; [exact Hf|]. split.
  - intros Hpos. revert s Hreach Hb Hl Hf.
    apply (reachable_ind st capacity opened
             (fun s => bufferSize (ctx s) = capacity ->
                       length (buffer (ctx s)) = Z.to_nat capacity ->
                       w_pc s <> WFault -> m_pc s <> MFault)).
    + intros _ _ _. discriminate.
    + intros w a Hr IH _ _ _.
      pose proof (worker_inv_reachable _ _ _ _ Hcap Hr)
        as (Hb & Hl & _ & _ & Hf & _).
      specialize (IH Hb Hl Hf).
      destruct a as [|evs|evs]; simpl.
      * destruct (worker_step_main_side st w) as (-> & _). exact IH.
      * apply main_step_stays_inside; auto; rewrite Hb; auto. lia.
      * apply main_loads_stays_inside; auto; rewrite Hb; auto. lia.
  - intros H0 evs Hpc Hx. unfold main_step. rewrite Hpc.
    rewrite (tick_spec evs s Hpc), Hx.
    unfold display. rewrite poll_ctx, Hb, H0. reflexivity.
Qed.

(** The presentation loop overtakes the worker and draws a slot that was
    never refilled; no index leaves the one-slot buffer. *)
Lemma buffer_indices_stay_inside_in_the_loop_witness :
  let s := run two_pictures slow_worker (init 1 true) in
  decoded (ctx s) < read (ctx s)
  /\ m_pc s = MLoop
  /\ w_pc s <> WFault /\ m_pc s <> MFault.
Proof.
  intros s.
  destruct (buffer_indices_stay_inside_in_the_loop two_pictures 1 true s)
    as (_ & _ & Hw & Hm & _).
  - unfold UINT_MODULUS. lia.
  - now exists slow_worker.
  - vm_compute. discriminate.
  - split; [vm_compute; reflexivity|]. split; [reflexivity|].
    split; [exact Hw|]. apply Hm. lia.
Defined.

Lemma wait_inv_main (evs : list Event) (w : World) :
  wait_inv w -> wait_inv (main_step evs w).
Proof.
  intros [Hw Hf]. unfold wait_inv.
  destruct (main_step_worker_side evs w)
    as (_ & _ & _ & _ & _ & _ & _ & -> & _).
  assert (Hgone : m_pc w <> MWaitFilled -> filled (ctx w) = true).
  { intros N. destruct (filled (ctx w)); [reflexivity|].
    now specialize (Hf eq_refl). }
  unfold main_step. destruct (m_pc w) eqn:E.
  - destruct (filled (ctx w)) eqn:Efl; simpl.
    + split; [discriminate | congruence].
    + rewrite E. auto.
  - rewrite Hgone by discriminate. split; [|discriminate].
    intros H. exfalso. revert H. rewrite (tick_spec evs w E).
    destruct (exit_condition (poll evs w)); simpl; [discriminate|].
    destruct (display_pc (poll evs w)) as [Ep|Ep]; rewrite Ep;
      [|discriminate].
    destruct (poll_fields evs w) as (_ & _ & _ & _ & -> & _).
    rewrite E. discriminate.
  - rewrite Hgone by discriminate. split; [|discriminate].
    intros H. exfalso. revert H. unfold finish_test.
    destruct (ended (ctx w)); simpl; [discriminate|].
    destruct (display_pc (with_m_pc MLoop w)) as [Ep|Ep]; rewrite Ep;
      discriminate.
  - rewrite E. split; [discriminate|].
    intros H. specialize (Hf H). congruence.
  - rewrite E. split; [discriminate|].
    intros H. specialize (Hf H). congruence.
Qed.

Lemma wait_inv_reachable (st : Stream) (capacity : Z) (opened : bool)
    (s : World) :
  reachable st capacity opened s -> wait_inv s.
Proof.
  apply reachable_ind.
  - unfold wait_inv. simpl. auto.
  - intros w a _ Hinv. destruct a as [|evs|evs]; simpl.
    + destruct Hinv as [Hw Hf]. unfold wait_inv.
      destruct (worker_step_main_side st w) as (-> & _ & -> & -> & _).
      split; [exact Hw|].
      intros H. apply Hf.
      destruct (filled (ctx w)) eqn:E; [|reflexivity].
      rewrite (proj1 (worker_step_flags st w) E) in H. discriminate.
    + now apply wait_inv_main.
    + destruct (main_loads_cases evs w) as [E|(Hm & _ & _ & _ & E)];
        rewrite E; [now apply wait_inv_main|].
      destruct Hinv as [Hw Hf]. unfold wait_inv. simpl.
      rewrite (poll_ctx evs w). split; [discriminate|].
      intros H. specialize (Hf H). congruence.
Qed.

(** X6: the presentation loop draws nothing before the worker has set
    [filled]: in every state of an execution in which [filled] is not set,
    [main] is still in its wait of line 151, nothing has been drawn and
    [read] is 0. *)
Theorem nothing_drawn_before_filled (st : Stream) (capacity : Z)
    (opened : bool) (s : World) :
  reachable st capacity opened s ->
  filled (ctx s) = false ->
  m_pc s = MWaitFilled /\ shown s = [] /\ read (ctx s) = 0.
Proof.
  intros Hreach Hf.
  destruct (wait_inv_reachable _ _ _ _ Hreach) as [Hw Hm].
  specialize (Hm Hf). split; [exact Hm|]. now apply Hw.
Qed.

(** [main] is scheduled four times while the worker is priming. *)
Lemma nothing_drawn_before_filled_witness :
  let s := run ten_pictures
             [Worker; Main []; Worker; Worker; Main [Resized]; Worker;
              Main []; Main []]
             (init 5 true) in
  decoded (ctx s) = 1
  /\ m_pc s = MWaitFilled /\ shown s = [] /\ read (ctx s) = 0.
Proof.
  intros s. split; [reflexivity|].
  apply (nothing_drawn_before_filled ten_pictures 5 true s).
  - now eexists.
  - reflexivity.
Defined.

(** X7: [ended] is final. Once it is set the worker has returned, and
    whatever happens afterwards neither the slots, nor [decoded], nor the
    flags change: the presentation loop can rely on [read == decoded]
    meaning that nothing is left and nothing will come. *)
Theorem ended_is_final (st : Stream) (capacity : Z) (opened : bool)
    (s : World) (sched : list Action) :
  reachable st capacity opened s ->
  ended (ctx s) = true ->
  let s' := run st sched s in
  w_pc s' = WReturned
  /\ ended (ctx s') = true /\ filled (ctx s') = true
  /\ decoded (ctx s') = decoded (ctx s)
  /\ buffer (ctx s') = buffer (ctx s)
  /\ produced s' = produced s.
Proof.
  intros Hreach He.
  destruct (flags_inv_reachable _ _ _ _ Hreach) as (Hf & _ & Hr & _).
  specialize (Hr He).
  assert (Hfl : filled (ctx s) = true) by (apply Hf; now rewrite Hr).
  clear Hreach Hf. revert s He Hr Hfl.
  induction sched as [|a sched IH]; intros s He Hr Hfl; [now repeat split|].
  change (run st (a :: sched) s) with (run st sched (step st s a)).
  destruct a as [|evs|evs]; simpl step.
  - rewrite (worker_step_returned st s Hr). now apply IH.
  - destruct (main_step_worker_side evs s)
      as (Ew & _ & _ & Ep & Eb & _ & Ed & Ef & Ee & _).
    destruct (IH (main_step evs s)) as (H1 & H2 & H3 & H4 & H5 & H6);
      try congruence.
    cbv zeta. rewrite H4, H5, H6, Ed, Eb, Ep. now repeat split.
  - destruct (main_loads_worker_side evs s)
      as (Ew & _ & _ & Ep & Eb & _ & Ed & Ef & Ee & _).
    destruct (IH (main_loads evs s)) as (H1 & H2 & H3 & H4 & H5 & H6);
      try congruence.
    cbv zeta. rewrite H4, H5, H6, Ed, Eb, Ep. now repeat split.
Qed.

(** After the last picture of a film has been stored, [main] draws the rest
    and the worker is kept being scheduled. *)
Lemma ended_is_final_witness :
  let s := run ten_pictures (firstn 80 steady) (init 5 true) in
  let s' := run ten_pictures (skipn 80 steady) s in
  read (ctx s) < decoded (ctx s)
  /\ decoded (ctx s') = decoded (ctx s)
  /\ produced s' = produced s.
Proof.
  intros s s'.
  destruct (ended_is_final ten_pictures 5 true s (skipn 80 steady))
    as (_ & _ & _ & Hd & _ & Hp).
  - now eexists.
  - reflexivity.
  - split; [vm_compute; reflexivity|]. split; assumption.
Defined.

Lemma poll_closed (evs : list Event) (s : World) :
  Closed ∈ evs -> window_open (poll evs s) = false.
Proof.
  revert s. induction evs as [|e evs IH]; intros s H.
  - inversion H.
  - change (poll (e :: evs) s) with (poll evs (handle_event s e)).
    apply elem_of_cons in H as [<-|H].
    + now apply poll_window_closed.
    + now apply IH.
Qed.

(** X8: a [Closed] event among those polled ends the presentation loop in
    that very iteration, wherever it stands in the queue and whatever the
    counters are: the loop is left with the window closed and no further
    frame drawn. Without one, an open window stays open. *)
Theorem closed_event_ends_loop (evs : list Event) (s : World) :
  m_pc s = MLoop ->
  (Closed ∈ evs ->
   m_pc (main_step evs s) = MExited
   /\ window_open (main_step evs s) = false
   /\ shown (main_step evs s) = shown s
   /\ ctx (main_step evs s) = ctx s)
  /\ (Closed ∉ evs -> window_open (main_step evs s) = window_open s).
Proof.
  intros Hpc. unfold main_step. rewrite Hpc, (tick_spec evs s Hpc). split.
  - intros Hin. pose proof (poll_closed evs s Hin) as Hc.
    destruct (poll_fields evs s) as (Pc & _ & _ & _ & _ & _ & Ps).
    assert (Hx : exit_condition (poll evs s) = true)
      by (unfold exit_condition; now rewrite Hc).
    rewrite Hx. simpl. auto.
  - intros Hnot.
    assert (Hw : window_open (poll evs s) = window_open s).
    { clear Hpc. revert s. induction evs as [|e evs IH]; intros s; [reflexivity|].
      change (poll (e :: evs) s) with (poll evs (handle_event s e)).
      apply not_elem_of_cons in Hnot as [Hne Hnot].
      rewrite (IH Hnot). destruct e; simpl; congruence. }
    destruct (exit_condition (poll evs s)); simpl; [exact Hw|].
    unfold display. destruct (_ =? 0); simpl; [exact Hw|].
    destruct (_ !! _); simpl; exact Hw.
Qed.

(** The window is closed while five frames wait in the buffer. *)
Lemma closed_event_ends_loop_witness :
  let s := run ten_pictures (repeat Worker 20 ++ [Main []]) (init 5 true) in
  let s' := main_step [Resized; Closed; OtherEvent] s in
  decoded (ctx s) = 5 /\ read (ctx s) = 0
  /\ m_pc s' = MExited /\ shown s' = [].
Proof.
  intros s s'.
  destruct (closed_event_ends_loop [Resized; Closed; OtherEvent] s eq_refl)
    as [H _].
  destruct H as (H1 & _ & H3 & _).
  - apply elem_of_cons. right. apply elem_of_cons. now left.
  - split; [reflexivity|]. split; [reflexivity|]. split; [exact H1|].
    subst s'. rewrite H3. reflexivity.
Defined.

End Safety.

Section RingMore.
Import Pipeline Props Examples PipelineSpec.

(** The presentation loop has overtaken the worker; the worker is still not
    more than the capacity ahead. *)
Lemma producer_stays_within_capacity_witness :
  let s := run two_pictures slow_worker (init 1 true) in
  read (ctx s) = 2 /\ 0 <= decoded (ctx s) <= read (ctx s) + 1.
Proof.
  intros s. split; [reflexivity|].
  apply (producer_stays_within_capacity two_pictures 1 true slow_worker).
  - unfold UINT_MODULUS. lia.
  - vm_compute. reflexivity.
Defined.

(** The ten-picture film played by a worker that keeps ahead. *)
Lemma frames_in_order_when_never_starved_witness :
  let s := run ten_pictures steady (init 5 true) in
  shown s = map Some (produced s) /\ read (ctx s) = 10.
Proof.
  intros s.
  destruct (frames_in_order_when_never_starved ten_pictures 5 true steady)
    as (_ & _ & Hs & _).
  - unfold UINT_MODULUS. lia.
  - vm_compute. reflexivity.
  - vm_compute. reflexivity.
  - split; [|reflexivity]. fold s in Hs. rewrite Hs. reflexivity.
Defined.

Lemma ring_inv_init (capacity : Z) (opened : bool) :
  0 <= capacity -> ring_inv capacity 0 (init capacity opened).
Proof.
  intros Hcap. unfold ring_inv. simpl.
  repeat split; auto; try lia; try discriminate.
  intros [C|C]; discriminate.
Qed.

(** X11: no frame is overwritten before it is read. In every execution in
    which the presentation loop never draws from an empty buffer, each frame
    produced and not yet read is still in its slot, the one numbered by its
    position in the stream modulo the capacity. *)
Theorem unread_frames_keep_their_slots (st : Stream) (capacity : Z)
    (opened : bool) (sched : list Action) (i : nat) (f : Frame) :
  0 <= capacity < UINT_MODULUS ->
  Z.of_nat (length sched) < UINT_MODULUS ->
  never_starved st sched (init capacity opened) = true ->
  let s := run st sched (init capacity opened) in
  read (ctx s) <= Z.of_nat i ->
  produced s !! i = Some f ->
  buffer (ctx s) !! Z.to_nat (Z.of_nat i mod capacity) = Some (Some f).
Proof.
  intros Hcap Hlen Hfed s Hi Hf.
  pose proof (ring_inv_run st capacity opened sched Hcap _ 0
                (worker_inv_init st capacity opened ltac:(lia))
                (ring_inv_init capacity opened ltac:(lia)) ltac:(lia) Hfed)
    as (_ & _ & _ & _ & _ & _ & Hsl & _).
  now apply Hsl.
Qed.

(** Half-way through the ten-picture film: five frames read, nine produced;
    frame 7 (picture 17) waits in slot 2, where picture 12 had been. *)
Lemma unread_frames_keep_their_slots_witness :
  let s := run ten_pictures (firstn 50 steady) (init 5 true) in
  read (ctx s) = 5 /\ decoded (ctx s) = 9
  /\ buffer (ctx s) !! 2%nat = Some (Some 17).
Proof.
  intros s. split; [reflexivity|]. split; [reflexivity|].
  apply (unread_frames_keep_their_slots ten_pictures 5 true
           (firstn 50 steady) 7 17).
  - unfold UINT_MODULUS. lia.
  - vm_compute. reflexivity.
  - vm_compute. reflexivity.
  - vm_compute. discriminate.
  - reflexivity.
Defined.

Lemma exit_inv_run (st : Stream) (capacity : Z) (opened : bool)
    (sched : list Action) :
  uninterrupted sched = true ->
  exit_inv (run st sched (init capacity opened)).
Proof.
  induction sched as [|a sched IH] using rev_ind; intros Hu.
  - split; discriminate.
  - unfold uninterrupted in Hu. rewrite forallb_app in Hu.
    apply andb_true_iff in Hu as [Hu Ha]. simpl in Ha.
    destruct (IH Hu) as [Hx Ht]. rewrite run_snoc.
    set (s := run st sched (init capacity opened)) in *.
    assert (Hreach : reachable st capacity opened s) by (now exists sched).
    destruct (flags_inv_reachable _ _ _ _ Hreach) as (_ & _ & Hr & _).
    destruct a as [|evs|evs]; [| |discriminate]; simpl.
    + destruct (worker_step_main_side st s) as (Em & Ew & _ & Er & _).
      split; [|now rewrite Em].
      rewrite Em. intros H. destruct (Hx H) as [C|[C1 C2]].
      * left. now rewrite Ew.
      * rewrite (worker_step_returned st s (Hr C1)). now right.
    + unfold exit_inv, main_step. destruct (m_pc s) eqn:E.
      * destruct (filled (ctx s)); simpl; rewrite ?E; split; discriminate.
      * rewrite (tick_spec evs s E).
        assert (Hp : m_pc (poll evs s) = MLoop)
          by (rewrite <- E; apply poll_fields).
        destruct (exit_condition (poll evs s)) eqn:Hc; simpl.
        -- split; [|discriminate]. intros _.
           apply exit_condition_spec in Hc. exact Hc.
        -- destruct (display_pc (poll evs s)) as [E'|E']; rewrite E', ?Hp;
             split; discriminate.
      * congruence.
      * rewrite E. split; [exact Hx | discriminate].
      * rewrite E. split; discriminate.
Qed.

(** X12: a film played to its end. When an execution in which the
    presentation loop never draws from an empty buffer ends with [main] out
    of its loop and the window still open, the worker has returned after
    reading the stream to its failing read and storing every frame of it;
    the frames drawn are the first [read] of them, each once, in the order
    of the file, and at most a bufferful is missing. Nothing is missing
    when the worker never ran between the two loads of line 161. *)
Theorem film_shown_to_the_end (st : Stream) (capacity : Z) (opened : bool)
    (sched : list Action) :
  0 <= capacity < UINT_MODULUS ->
  Z.of_nat (length sched) < UINT_MODULUS ->
  never_starved st sched (init capacity opened) = true ->
  let s := run st sched (init capacity opened) in
  m_pc s = MExited ->
  window_open s = true ->
  w_pc s = WReturned
  /\ cursor s = length (reads st)
  /\ produced s = frames_of 0 (reads st)
  /\ shown s
     = map Some (take (Z.to_nat (read (ctx s))) (frames_of 0 (reads st)))
  /\ Z.of_nat (length (frames_of 0 (reads st))) <= read (ctx s) + capacity
  /\ (uninterrupted sched = true ->
      shown s = map Some (frames_of 0 (reads st))).
Proof.
  intros Hcap Hlen Hfed s Hx Hw.
  assert (Hreach : reachable st capacity opened s) by (now exists sched).
  pose proof (ring_inv_run st capacity opened sched Hcap _ 0
                (worker_inv_init st capacity opened ltac:(lia))
                (ring_inv_init capacity opened ltac:(lia)) ltac:(lia) Hfed)
    as (H0 & Hrd & Hdc & _ & Hl & Hs & _).
  fold s in H0, Hrd, Hdc, Hl, Hs.
  destruct (flags_inv_reachable _ _ _ _ Hreach) as (_ & _ & Hr & Hd & _).
  destruct (Hd Hx) as [C|He]; [congruence|].
  specialize (Hr He).
  destruct (reads_inv_reachable _ _ _ _ Hcap Hreach)
    as (Hp & _ & Hcur & _ & Hend).
  destruct (Hend (or_intror Hr)) as [Hne|C]; [|congruence].
  destruct Hcur as [[C _]|[_ Hc]]; [contradiction|].
  rewrite <- length_reads in Hc.
  rewrite Hc, firstn_all in Hp.
  split; [exact Hr|]. split; [exact Hc|]. split; [exact Hp|].
  split; [now rewrite <- Hp|]. split; [rewrite <- Hp; lia|].
  intros Hu.
  destruct (exit_inv_run st capacity opened sched Hu) as [Hex _].
  fold s in Hex. destruct (Hex Hx) as [C|[_ E]]; [congruence|].
  rewrite Hs, take_ge by lia. now rewrite Hp.
Qed.

Lemma film_shown_to_the_end_witness :
  let s := run ten_pictures steady (init 5 true) in
  shown s = map Some [10; 11; 12; 13; 14; 15; 16; 17; 18; 19].
Proof.
  intros s.
  destruct (film_shown_to_the_end ten_pictures 5 true steady)
    as (_ & _ & _ & _ & _ & Hs).
  - unfold UINT_MODULUS. lia.
  - vm_compute. reflexivity.
  - vm_compute. reflexivity.
  - reflexivity.
  - reflexivity.
  - fold s in Hs. rewrite Hs; reflexivity.
Defined.

End RingMore.

Section ShortFilm.
Import Pipeline Props Examples PipelineSpec.

Lemma frames_in_take_packets (st : Stream) (n : nat) :
  (n <= length (packets st))%nat ->
  frames_in 0 (take n (reads st)) <= frames_in 0 (packets st).
Proof.
  intros Hn. unfold reads. rewrite take_app_le by exact Hn.
  apply frames_in_take.
Qed.

Lemma short_path_main (st : Stream) (capacity : Z) (evs : list Event)
    (s : World) :
  short_path st capacity s ->
  short_path st capacity (main_step evs s)
  /\ return_distance st (main_step evs s) = return_distance st s.
Proof.
  intros (Hw & Hr & Hp).
  destruct (main_step_worker_side evs s) as (Ew & Er & Ec & _).
  split.
  - split; [now apply worker_inv_main|]. split; [now apply reads_inv_main|].
    now rewrite Ew, Er.
  - unfold return_distance, priming_distance. now rewrite Ew, Ec.
Qed.

Lemma short_path_main_loads (st : Stream) (capacity : Z) (evs : list Event)
    (s : World) :
  short_path st capacity s ->
  short_path st capacity (main_loads evs s)
  /\ return_distance st (main_loads evs s) = return_distance st s.
Proof.
  intros (Hw & Hr & Hp).
  destruct (main_loads_worker_side evs s) as (Ew & Er & Ec & _).
  split.
  - split; [now apply worker_inv_main_loads|].
    split; [now apply reads_inv_main_loads|].
    now rewrite Ew, Er.
  - unfold return_distance, priming_distance. now rewrite Ew, Ec.
Qed.

Lemma short_path_worker (st : Stream) (capacity : Z) (s : World) :
  capacity < UINT_MODULUS ->
  frames_in 0 (packets st) < capacity ->
  short_path st capacity s ->
  short_path st capacity (worker_step st s)
  /\ (return_distance st (worker_step st s) <= return_distance st s - 1)%nat.
Proof.
  intros Hcap Hshort (Hw & Hr & Hp).
  pose proof (worker_inv_worker st capacity true s Hcap Hw) as Hw'.
  pose proof (reads_inv_worker st capacity true s Hcap Hw Hr) as Hr'.
  pose proof Hw' as (_ & _ & _ & _ & Hnf & _).
  pose proof Hw as (_ & _ & _ & _ & _ & _ & Hprim).
  destruct (worker_step_pc_flags st s) as (Hpc & _).
  pose proof (worker_step_cursor st s) as Hc.
  pose proof (length_reads st) as L.
  assert (Hread : w_read (worker_step st s) = w_read s
                  \/ w_pc s = WPrimeBody \/ w_pc s = WStreamBody).
  { unfold worker_step. destruct (w_pc s); simpl; auto; case_match; auto. }
  enough (H : (past_priming (w_pc (worker_step st s)) = true ->
               w_read (worker_step st s) <> 0
               /\ (w_pc (worker_step st s) = WStreamCheck
                   \/ w_pc (worker_step st s) = WSetEnded
                   \/ w_pc (worker_step st s) = WReturned))
              /\ (return_distance st (worker_step st s)
                  <= return_distance st s - 1)%nat).
  { destruct H as [H1 H2]. split; [|exact H2].
    split; [exact Hw'|]. split; [exact Hr' | exact H1]. }
  unfold return_distance, priming_distance in *.
  destruct (w_pc s) eqn:E; cbv beta iota in Hc.
  - rewrite Hpc. split; [discriminate | rewrite Hc; lia].
  - destruct Hpc as [Hpc|Hpc]; rewrite Hpc;
      (split; [discriminate | rewrite ?Hc; lia]).
  - destruct (Hprim eq_refl) as (_ & _ & _ & _ & _ & _ & Hcur & Hb & _).
    destruct (Hb eq_refl) as (_ & Hr0 & _).
    destruct Hpc as [Hpc|Hpc]; [|contradiction]. rewrite Hpc.
    split; [discriminate | rewrite Hc; lia].
  - destruct (Hprim eq_refl)
      as (_ & _ & Hopen & _ & Hd & _ & Hcur & _ & Hout).
    rewrite Hpc. split; [|lia]. intros _.
    destruct Hread as [Ew|[C|C]]; try discriminate. rewrite Ew.
    split; [|now left].
    destruct (Hout eq_refl) as [Hfull|[Hne|C]]; [|exact Hne|congruence].
    destruct Hcur as [[_ Hle]|[Hne _]]; [|exact Hne].
    pose proof (frames_in_take_packets st (cursor s) Hle). lia.
  - destruct (Hp eq_refl) as (Hne & _).
    assert (Hgo : w_pc (worker_step st s) = WSetEnded).
    { unfold worker_step. rewrite E.
      apply Z.eqb_neq in Hne. now rewrite Hne. }
    rewrite Hgo. split; [|lia]. intros _.
    destruct Hread as [Ew|[C|C]]; try discriminate. rewrite Ew. auto.
  - destruct (Hp eq_refl) as (_ & [C|[C|C]]); discriminate.
  - destruct (Hp eq_refl) as (_ & [C|[C|C]]); discriminate.
  - destruct (Hp eq_refl) as (Hne & _). rewrite Hpc. split; [|lia].
    intros _. destruct Hread as [Ew|[C|C]]; try discriminate.
    rewrite Ew. auto.
  - rewrite Hpc, E. split; [|lia]. intros _. apply (Hp eq_refl).
  - contradiction (proj1 (proj2 (proj2 (proj2 (proj2 Hw))))).
Qed.

(** On a film with fewer frames than slots the worker has returned once
    it has been given two steps per read and five more, whatever [main]
    does meanwhile. *)
Lemma short_path_run (st : Stream) (capacity : Z) (sched : list Action) :
  0 <= capacity < UINT_MODULUS ->
  frames_in 0 (packets st) < capacity ->
  (2 * length (reads st) + 5 <= worker_steps sched)%nat ->
  let s := run st sched (init capacity true) in
  short_path st capacity s /\ w_pc s = WReturned.
Proof.
  intros Hcap Hshort Hn s.
  assert (H0 : short_path st capacity (init capacity true)).
  { split; [apply worker_inv_init; lia|].
    split; [apply reads_inv_init|]. discriminate. }
  destruct (run_distance st (short_path st capacity) (return_distance st)
              is_worker) with (sched := sched) (s := init capacity true)
    as [(Hw & Hr & Hp) Hdist]; [|exact H0|].
  { intros w [|evs|evs] Hsp; cbn [step is_worker].
    - apply short_path_worker; auto; lia.
    - destruct (short_path_main st capacity evs w Hsp) as [H1 H2].
      split; [exact H1 | lia].
    - destruct (short_path_main_loads st capacity evs w Hsp) as [H1 H2].
      split; [exact H1 | lia]. }
  fold s in Hw, Hr, Hp, Hdist. fold (worker_steps sched) in Hdist.
  assert (Hz : return_distance st s = 0%nat).
  { assert (Hi : return_distance st (init capacity true)
                 = (2 * length (reads st) + 2 + 3)%nat) by reflexivity.
    rewrite Hi in Hdist. lia. }
  split; [exact (conj Hw (conj Hr Hp))|].
  destruct Hw as (_ & _ & _ & _ & Hnf & _).
  unfold return_distance in Hz.
  destruct (w_pc s) eqn:E; try lia; try reflexivity; try contradiction.
  - destruct (Hp eq_refl) as (_ & [C|[C|C]]); discriminate.
  - destruct (Hp eq_refl) as (_ & [C|[C|C]]); discriminate.
Qed.

(** X13: a film with fewer frames than the buffer has slots is decoded
    before it is played, whatever [main] does meanwhile. With the window
    open at the start, once the worker has been given two steps per read
    and five more it has returned: it has read the stream to its failing
    read, stored every frame of it, and set [filled] and [ended]. *)
Theorem short_film_is_decoded_entirely (st : Stream) (capacity : Z)
    (sched : list Action) :
  0 <= capacity < UINT_MODULUS ->
  frames_in 0 (packets st) < capacity ->
  (2 * length (reads st) + 5 <= worker_steps sched)%nat ->
  let s := run st sched (init capacity true) in
  w_pc s = WReturned
  /\ filled (ctx s) = true /\ ended (ctx s) = true
  /\ cursor s = length (reads st)
  /\ produced s = frames_of 0 (reads st)
  /\ decoded (ctx s) = totalFramesAvailable st 0.
Proof.
  intros Hcap Hshort Hn s.
  destruct (short_path_run st capacity sched Hcap Hshort Hn)
    as ((Hw & Hr & Hp) & Hret).
  fold s in Hw, Hr, Hp, Hret.
  assert (Hreach : reachable st capacity true s) by (now exists sched).
  destruct (flags_inv_reachable _ _ _ _ Hreach) as (Hf & He & _).
  destruct Hr as (Hpr & Hd & Hcur & _).
  rewrite Hret in Hp. destruct (Hp eq_refl) as (Hne & _).
  destruct Hcur as [[C _]|[_ Hc]]; [contradiction|].
  rewrite <- length_reads in Hc. rewrite Hc, firstn_all in Hpr.
  split; [exact Hret|]. split; [apply Hf; now rewrite Hret|].
  split; [now apply He|]. split; [exact Hc|]. split; [exact Hpr|].
  rewrite Hd, Hpr, length_frames_of. unfold totalFramesAvailable.
  apply to_unsigned_small.
  pose proof (frames_in_nonneg 0 (reads st)).
  unfold reads in *. rewrite frames_in_app in *. simpl in *.
  destruct (yields_frame 0 (eof_packet st)); lia.
Qed.

(** Three pictures, five slots, and [main] scheduled all along. *)
Lemma short_film_is_decoded_entirely_witness :
  let s := run three_pictures
             (concat (repeat [Main []; Worker] 13)) (init 5 true) in
  w_pc s = WReturned /\ produced s = [10; 11; 12] /\ decoded (ctx s) = 3.
Proof.
  intros s.
  destruct (short_film_is_decoded_entirely three_pictures 5
              (concat (repeat [Main []; Worker] 13)))
    as (H1 & _ & _ & _ & H5 & H6).
  - unfold UINT_MODULUS. lia.
  - vm_compute. reflexivity.
  - vm_compute. lia.
  - fold s in H1, H5, H6. split; [exact H1|].
    split; [rewrite H5 | rewrite H6]; reflexivity.
Defined.

End ShortFilm.

Section Stall.
Import Pipeline Props Examples PipelineSpec.

Lemma to_unsigned_negative (z : Z) :
  - UINT_MODULUS <= z < 0 -> to_unsigned z = z + UINT_MODULUS.
Proof.
  intros H. unfold to_unsigned.
  rewrite <- (Z_mod_plus_full z 1 UINT_MODULUS).
  rewrite Z.mul_1_l. apply Z.mod_small. lia.
Qed.

Lemma overtaken_step (st : Stream) (budget : Z) (s : World) (a : Action) :
  0 <= budget ->
  overtaken (budget + 1) s ->
  overtaken budget (step st s a)
  /\ decoded (ctx (step st s a)) = decoded (ctx s)
  /\ buffer (ctx (step st s a)) = buffer (ctx s)
  /\ produced (step st s a) = produced s.
Proof.
  intros Hb ((Hd0 & Hlt) & Hbs & Hbud & Hpc).
  assert (HM : UINT_MODULUS = 4294967296) by reflexivity.
  destruct a as [|evs|evs]; simpl.
  - destruct (worker_step_main_side st s) as (_ & _ & _ & Er & Es & _).
    assert (Hguard : (to_unsigned (decoded (ctx s) - read (ctx s))
                      <? bufferSize (ctx s)) = false).
    { apply Z.ltb_ge. rewrite to_unsigned_negative by lia. lia. }
    unfold overtaken. rewrite Er, Es. unfold worker_step.
    destruct Hpc as [E|[E|[E|E]]]; rewrite E; simpl.
    + destruct (_ && _); simpl; repeat split; auto; lia.
    + rewrite Hguard. simpl. repeat split; auto; lia.
    + repeat split; auto; lia.
    + rewrite E. repeat split; auto; lia.
  - destruct (main_step_worker_side evs s)
      as (Ew & _ & _ & Ep & Eb & Es & Ed & _).
    unfold overtaken. rewrite Ew, Ep, Eb, Es, Ed.
    destruct (main_step_read evs s) as [E|E]; rewrite E.
    + repeat split; auto; lia.
    + rewrite to_unsigned_small by lia. repeat split; auto; lia.
  - destruct (main_loads_worker_side evs s)
      as (Ew & _ & _ & Ep & Eb & Es & Ed & _).
    unfold overtaken. rewrite Ew, Ep, Eb, Es, Ed.
    destruct (main_loads_read evs s) as [E|E]; rewrite E.
    + repeat split; auto; lia.
    + rewrite to_unsigned_small by lia. repeat split; auto; lia.
Qed.

(** X14: once the presentation loop has overtaken the worker, the film
    freezes. With [read] ahead of [decoded] and the worker between two
    iterations of its streaming loop, the test of line 47 is made on a
    difference that wrapped around and fails, and it goes on failing as
    [read] grows: no step of any later schedule stores a frame (as long as
    the counters stay clear of 2^32). *)
Theorem worker_stalls_once_overtaken (st : Stream) (s : World)
    (sched : list Action) :
  0 <= decoded (ctx s) < read (ctx s) ->
  0 <= bufferSize (ctx s) ->
  read (ctx s) + Z.of_nat (length sched) + bufferSize (ctx s)
  < UINT_MODULUS ->
  w_pc s = WStreamCheck \/ w_pc s = WStreamGuard
  \/ w_pc s = WSetEnded \/ w_pc s = WReturned ->
  let s' := run st sched s in
  decoded (ctx s') = decoded (ctx s)
  /\ buffer (ctx s') = buffer (ctx s)
  /\ produced s' = produced s.
Proof.
  intros Hd Hbs Hbud Hpc.
  assert (H0 : overtaken (Z.of_nat (length sched)) s) by (now repeat split).
  clear Hd Hbs Hbud Hpc. revert s H0.
  induction sched as [|a sched IH]; intros s H0; [now repeat split|].
  change (run st (a :: sched) s) with (run st sched (step st s a)).
  simpl length in H0.
  replace (Z.of_nat (S (length sched))) with (Z.of_nat (length sched) + 1)
    in H0 by lia.
  destruct (overtaken_step st (Z.of_nat (length sched)) s a
              (Nat2Z.is_nonneg _) H0) as (H1 & Ed & Eb & Ep).
  destruct (IH _ H1) as (Ed' & Eb' & Ep').
  cbv zeta. rewrite Ed', Eb', Ep'. now repeat split.
Qed.

(** Three pictures, two slots: [main] draws three times before the worker
    is scheduled again; picture 12 is never stored. *)
Lemma worker_stalls_once_overtaken_witness :
  let s := run three_pictures (repeat Worker 7 ++ repeat (Main []) 4)
             (init 2 true) in
  let s' := run three_pictures
              (concat (repeat [Worker; Worker; Worker; Main []] 50)) s in
  decoded (ctx s) = 2 /\ read (ctx s) = 3
  /\ produced s' = [10; 11] /\ decoded (ctx s') = 2.
Proof.
  intros s s'.
  destruct (worker_stalls_once_overtaken three_pictures s
              (concat (repeat [Worker; Worker; Worker; Main []] 50)))
    as (Hd & _ & Hp).
  - vm_compute. split; [discriminate | reflexivity].
  - vm_compute. discriminate.
  - vm_compute. reflexivity.
  - left. reflexivity.
  - fold s' in Hd, Hp. split; [reflexivity|]. split; [reflexivity|].
    split; [rewrite Hp | rewrite Hd]; reflexivity.
Defined.

End Stall.

Section Shutdown.
Import Pipeline Props Examples Teardown.

(** The window is never opened again. *)
Lemma step_window_closed (st : Stream) (s : World) (a : Action) :
  window_open s = false -> window_open (step st s a) = false.
Proof.
  intros H. destruct a as [|evs|evs]; simpl.
  - destruct (worker_step_main_side st s) as (_ & -> & _). exact H.
  - now apply main_step_window_closed.
  - now apply main_loads_window_closed.
Qed.

Lemma reachable_step (st : Stream) (capacity : Z) (opened : bool)
    (s : World) (a : Action) :
  reachable st capacity opened s -> reachable st capacity opened (step st s a).
Proof. intros [sched ->]. exists (sched ++ [a]). now rewrite run_snoc. Qed.

Lemma uses_freed_in_loop (pc : WorkerPc) : uses_freed InLoop pc = false.
Proof. now destruct pc. Qed.

Lemma uses_freed_returned (e : ExitPc) : uses_freed e WReturned = false.
Proof. now destruct e. Qed.

(** What a step of the process keeps. *)
Lemma teardown_inv_step (st : Stream) (capacity : Z) (p : Process)
    (a : ProcessAction) :
  reachable st capacity true (world p)
  /\ (exit_pc p <> InLoop -> m_pc (world p) = MExited)
  /\ (use_after_free p = true -> window_open (world p) = false) ->
  let p' := process_step st p a in
  reachable st capacity true (world p')
  /\ (exit_pc p' <> InLoop -> m_pc (world p') = MExited)
  /\ (use_after_free p' = true -> window_open (world p') = false).
Proof.
  intros (Hr & Hx & Hu).
  destruct (flags_inv_reachable _ _ _ _ Hr) as (_ & _ & Hret & Hex & _).
  assert (Hrun : forall b,
            let p' := {| world := step st (world p) b; exit_pc := exit_pc p;
                         use_after_free :=
                           use_after_free p
                           || match b with
                              | Worker =>
                                  uses_freed (exit_pc p) (w_pc (world p))
                              | _ => false
                              end |} in
            reachable st capacity true (world p')
            /\ (exit_pc p' <> InLoop -> m_pc (world p') = MExited)
            /\ (use_after_free p' = true -> window_open (world p') = false)).
  { intros b. cbn [world exit_pc use_after_free].
    split; [now apply reachable_step|].
    split; [intros H; apply exited_is_final; now apply Hx|].
    intros H. apply step_window_closed.
    apply orb_true_iff in H as [H|H]; [now apply Hu|].
    destruct b as [|evs|evs]; try discriminate.
    destruct (exit_pc p) eqn:E;
      [now rewrite uses_freed_in_loop in H | | |discriminate].
    - destruct (Hex (Hx ltac:(discriminate))) as [C|C]; [exact C|].
      rewrite (Hret C), uses_freed_returned in H. discriminate.
    - destruct (Hex (Hx ltac:(discriminate))) as [C|C]; [exact C|].
      rewrite (Hret C), uses_freed_returned in H. discriminate. }
  assert (Hleave : let p' := leave p in
            reachable st capacity true (world p')
            /\ (exit_pc p' <> InLoop -> m_pc (world p') = MExited)
            /\ (use_after_free p' = true -> window_open (world p') = false)).
  { unfold leave.
    destruct (m_pc (world p)) eqn:Em; destruct (exit_pc p) eqn:E;
      cbn [world exit_pc use_after_free with_exit_pc];
      rewrite ?E; repeat split; auto;
      intros H; rewrite ?Em; auto; congruence. }
  unfold process_step.
  destruct (exit_pc p) eqn:E; destruct a as [b|];
    try apply Hrun; try apply Hleave;
    cbv zeta; rewrite ?E; repeat split; auto; congruence.
Qed.

(** Along every run of the process: [main] frees nothing before it has
    left its loop, the pipeline's state is one of an execution, and the
    worker has used nothing freed as long as the window is open. *)
Lemma teardown_inv (st : Stream) (capacity : Z)
    (sched : list ProcessAction) :
  let p := process_run st sched (launch capacity) in
  reachable st capacity true (world p)
  /\ (exit_pc p <> InLoop -> m_pc (world p) = MExited)
  /\ (use_after_free p = true -> window_open (world p) = false).
Proof.
  induction sched as [|a sched IH] using rev_ind.
  - simpl. split; [now exists []|]. split; [contradiction | discriminate].
  - unfold process_run in *. rewrite fold_left_app. simpl.
    now apply teardown_inv_step.
Qed.

(** X16: [main] frees the container and the buffer without waiting for the
    worker (lines 172-173; there is no join). At the end of a film this is
    harmless: when [main] is past its loop with the window open, the
    worker has returned, and as long as the window is open nothing freed
    has been used. After the window is closed it is a race: in the
    schedule [closed_in_mid_film] the worker reads from the container that
    [main] has just freed. *)
Theorem worker_is_not_joined (st : Stream) (capacity : Z)
    (sched : list ProcessAction) :
  let p := process_run st sched (launch capacity) in
  (exit_pc p <> InLoop -> m_pc (world p) = MExited)
  /\ (window_open (world p) = true ->
      use_after_free p = false
      /\ (exit_pc p <> InLoop ->
          w_pc (world p) = WReturned /\ ended (ctx (world p)) = true))
  /\ (let q := process_run ten_pictures closed_in_mid_film (launch 5) in
      window_open (world q) = false
      /\ exit_pc q = ContextFreed
      /\ use_after_free q = true).
Proof.
  intros p. destruct (teardown_inv st capacity sched) as (Hr & Hx & Hu).
  fold p in Hr, Hx, Hu. split; [exact Hx|]. split.
  - intros Hw. split.
    + destruct (use_after_free p); [|reflexivity].
      specialize (Hu eq_refl). congruence.
    + intros He. specialize (Hx He).
      destruct (flags_inv_reachable _ _ _ _ Hr) as (_ & _ & Hret & Hex & _).
      destruct (Hex Hx) as [C|C]; [congruence|]. auto.
  - vm_compute. repeat split; reflexivity.
Qed.

(** The ten-picture film played to its end: [main] runs lines 172 to 175
    after the worker has returned. *)
Lemma worker_is_not_joined_witness :
  let p := process_run ten_pictures played_to_the_end (launch 5) in
  exit_pc p = Returned
  /\ use_after_free p = false
  /\ w_pc (world p) = WReturned.
Proof.
  intros p.
  destruct (worker_is_not_joined ten_pictures 5 played_to_the_end)
    as (_ & H & _).
  fold p in H.
  assert (Hopen : window_open (world p) = true) by (vm_compute; reflexivity).
  destruct (H Hopen) as (Hu & Hw).
  split; [vm_compute; reflexivity|]. split; [exact Hu|].
  apply Hw. vm_compute. discriminate.
Defined.

End Shutdown.

Section EmptyStreamClaim.
Import Pipeline Props Examples PipelineSpec.

(** Once the worker has returned from a stream without frames, every step
    of [main] brings it nearer to the end of its loop, and none draws. *)
Lemma drained_step (st : Stream) (s : World) (a : Action) :
  drained s ->
  drained (step st s a)
  /\ (exit_distance (step st s a)
      <= exit_distance s - (if is_main a then 1 else 0))%nat.
Proof.
  intros (Hw & Hf & He & Hd & Hr & Hs & Hm).
  assert (Hx : forall evs, exit_condition (poll evs s) = true).
  { intros evs. apply exit_condition_spec. right. rewrite poll_ctx.
    split; congruence. }
  assert (Hmain : forall evs,
            drained (main_step evs s)
            /\ (exit_distance (main_step evs s) <= exit_distance s - 1)%nat).
  { intros evs.
    destruct (poll_fields evs s) as (Hc & Hpw & _ & _ & Hpm & _ & Hps).
    unfold main_step, exit_distance, drained.
    destruct (m_pc s) eqn:E; try contradiction.
    - rewrite Hf. simpl. rewrite ?E. split; [|lia].
      repeat split; auto; discriminate.
    - rewrite (tick_spec evs s E), Hx. simpl. rewrite Hc, Hpw, Hps.
      split; [|lia]. repeat split; auto; discriminate.
    - unfold finish_test. rewrite He. simpl. split; [|lia].
      repeat split; auto; discriminate.
    - rewrite ?E. split; [|lia]. repeat split; auto; congruence. }
  destruct a as [|evs|evs]; cbn [step is_main is_worker negb].
  - rewrite (worker_step_returned st s Hw).
    split; [now repeat split | lia].
  - apply Hmain.
  - destruct (main_loads_cases evs s) as [E|(Hpc & _ & _ & _ & E)];
      rewrite E; [apply Hmain|].
    destruct (poll_fields evs s) as (Hc & Hpw & _ & _ & Hpm & _ & Hps).
    unfold exit_distance, drained. simpl. rewrite Hc, Hpw, Hps, Hpc.
    split; [|lia]. repeat split; auto; discriminate.
Qed.

(** On a stream without frames a presentation loop that never draws from
    an empty buffer draws nothing at all. *)
Lemma quiet_run (st : Stream) (capacity : Z) (opened : bool)
    (sched : list Action) (s : World) :
  packets st = [] ->
  yields_frame 0 (eof_packet st) = false ->
  reachable st capacity opened s ->
  quiet s ->
  never_starved st sched s = true ->
  quiet (run st sched s).
Proof.
  intros Hp Hy. revert s.
  induction sched as [|a sched IH]; intros s Hr Hq Hfed; [exact Hq|].
  change (run st (a :: sched) s) with (run st sched (step st s a)).
  simpl in Hfed. apply andb_true_iff in Hfed as [Hnow Hrest].
  apply IH; [now apply reachable_step | | exact Hrest].
  destruct Hq as (Hd & Hrd & Hs & Hm).
  assert (Hd' : decoded (ctx (step st s a)) = 0).
  { apply (no_frames_nothing_decoded st capacity opened); auto.
    now apply reachable_step. }
  split; [exact Hd'|]. clear Hd'.
  assert (Hexit : forall w, ctx w = ctx s -> shown w = shown s ->
            m_pc w <> MFault ->
            read (ctx w) = 0 /\ shown w = [] /\ m_pc w <> MFault).
  { intros w -> -> H. auto. }
  assert (Hmain : forall evs, fed s (Main evs) = true ->
            read (ctx (main_step evs s)) = 0
            /\ shown (main_step evs s) = []
            /\ m_pc (main_step evs s) <> MFault).
  { intros evs Hf. unfold fed in Hf. unfold main_step.
    destruct (poll_fields evs s) as (Hc & _ & _ & _ & _ & _ & Hps).
    destruct (m_pc s) eqn:E.
    - destruct (filled (ctx s)); simpl; rewrite ?E; repeat split; auto;
        discriminate.
    - rewrite (tick_spec evs s E).
      assert (Hlt : (read (ctx s) <? decoded (ctx s)) = false)
        by (apply Z.ltb_ge; lia).
      rewrite Hlt, orb_false_r in Hf. rewrite Hf.
      apply Hexit; simpl; auto; discriminate.
    - assert (Hlt : (read (ctx s) <? decoded (ctx s)) = false)
        by (apply Z.ltb_ge; lia).
      rewrite Hlt, orb_false_r in Hf.
      unfold finish_test. rewrite Hf.
      apply Hexit; simpl; auto; discriminate.
    - rewrite ?E. repeat split; auto; congruence.
    - contradiction. }
  destruct a as [|evs|evs]; simpl.
  - destruct (worker_step_main_side st s) as (-> & _ & -> & -> & _).
    auto.
  - now apply Hmain.
  - destruct (decide (m_pc s = MLoop)) as [E|NE].
    + destruct (poll_fields evs s) as (Hc & _ & _ & _ & _ & _ & Hps).
      unfold main_loads, first_loads. rewrite E.
      destruct (window_open (poll evs s)); cbn [negb].
      * rewrite Hc, Hrd, Hd. change (0 =? 0) with true. cbv iota.
        apply Hexit; simpl; auto; discriminate.
      * apply Hexit; simpl; auto; discriminate.
    + assert (Em : main_loads evs s = main_step evs s)
        by (unfold main_loads; destruct (m_pc s); congruence).
      rewrite Em. apply Hmain.
      unfold fed in *. destruct (m_pc s); congruence.
Qed.

Lemma slotless_init : slotless (init 0 true).
Proof. unfold slotless. simpl. auto. Qed.

Lemma slotless_step (st : Stream) (s : World) (a : Action) :
  slotless s -> slotless (step st s a).
Proof.
  intros (Hb & Hd & Hc & Hr & Hpc).
  assert (Hmain : forall w,
            w_pc w = w_pc s -> w_read w = w_read s -> cursor w = cursor s ->
            bufferSize (ctx w) = bufferSize (ctx s) ->
            decoded (ctx w) = decoded (ctx s) ->
            ended (ctx w) = ended (ctx s) ->
            (window_open s = false -> window_open w = false) ->
            slotless w).
  { intros w E1 E2 E3 E4 E5 E6 Hw. unfold slotless.
    rewrite E1, E2, E3, E4, E5, E6.
    repeat split; auto.
    destruct (w_pc s); auto; intuition. }
  destruct a as [|evs|evs]; simpl.
  - unfold slotless, worker_step.
    destruct (w_pc s) eqn:E; try contradiction; simpl.
    + repeat split; auto.
    + rewrite Hb, Hd. simpl. repeat split; auto.
    + repeat split; auto.
    + rewrite Hr. simpl. destruct (window_open s) eqn:Hw; simpl;
        repeat split; auto.
    + rewrite Hb.
      assert (Hg : (to_unsigned (decoded (ctx s) - read (ctx s)) <? 0)
                   = false).
      { apply Z.ltb_ge. apply to_unsigned_range. }
      rewrite Hg. simpl. repeat split; auto.
    + destruct Hpc as [_ Hw]. repeat split; auto.
    + rewrite E. repeat split; auto.
  - destruct (main_step_worker_side evs s)
      as (E1 & E2 & E3 & _ & _ & E4 & E5 & _ & E6 & _).
    apply Hmain; auto. apply main_step_window_closed.
  - destruct (main_loads_worker_side evs s)
      as (E1 & E2 & E3 & _ & _ & E4 & E5 & _ & E6 & _).
    apply Hmain; auto. apply main_loads_window_closed.
Qed.

Lemma slotless_run (st : Stream) (sched : list Action) :
  slotless (run st sched (init 0 true)).
Proof.
  induction sched as [|a sched IH] using rev_ind; [apply slotless_init|].
  rewrite run_snoc. now apply slotless_step.
Qed.

(** C10, as stated, fails. With a frame rate below 1 the buffer has no
    slot: the worker reads nothing and never sets [ended], and the first
    paced iteration of [main] divides by zero; from there the program never
    reaches [return 0]. And with one slot, when [main] runs its first paced
    iteration between the worker's [filled = true] and [ended = true], it
    draws the slot that was never written and [read] leaves [decoded]
    behind. *)
Lemma empty_stream_does_not_always_exit :
  (let s := run no_pictures (repeat Worker 3 ++ [Main []; Main []])
              (init 0 true) in
   m_pc s = MFault /\ ended (ctx s) = false
   /\ forall more, m_pc (run no_pictures more s) <> MExited)
  /\ (let s := run no_pictures early_main (init 1 true) in
      w_pc s = WReturned /\ m_pc s = MLoop
      /\ shown s = [None; None; None; None; None; None]
      /\ read (ctx s) = 6 /\ decoded (ctx s) = 0).
Proof.
  split.
  - intros s. split; [reflexivity|]. split; [reflexivity|].
    intros more. rewrite (fault_is_final no_pictures more s eq_refl).
    discriminate.
  - vm_compute. repeat split; reflexivity.
Qed.

(** C10, amended: a stream whose first read reports its end and leaves no
    frame. With at least one slot, in every execution in which the
    presentation loop never draws from an empty buffer, nothing is drawn
    and [read] and [decoded] stay 0; [main] leaves its loop only with the
    window closed or both flags set. Once the worker has been given seven
    steps it has returned, with [filled] and [ended] set; from then on a
    paced iteration leaves the loop at once, and whatever the schedule goes
    on with, [main] is out of its loop after [exit_distance] of its steps,
    nothing drawn, [read] and [decoded] 0 and both flags set. With no slot
    and the window open, the worker reads nothing and never sets [ended],
    and [main] does not leave its loop. *)
Theorem empty_stream_leaves_without_drawing (st : Stream) :
  packets st = [] ->
  yields_frame 0 (eof_packet st) = false ->
  (forall capacity sched,
     1 <= capacity < UINT_MODULUS ->
     never_starved st sched (init capacity true) = true ->
     let s := run st sched (init capacity true) in
     shown s = [] /\ read (ctx s) = 0 /\ decoded (ctx s) = 0
     /\ m_pc s <> MFault /\ w_pc s <> WFault
     /\ (m_pc s = MExited ->
         window_open s = false
         \/ (filled (ctx s) = true /\ ended (ctx s) = true))
     /\ ((7 <= worker_steps sched)%nat ->
         w_pc s = WReturned
         /\ filled (ctx s) = true /\ ended (ctx s) = true
         /\ (forall evs,
               m_pc s = MLoop \/ m_pc s = MTestEnded ->
               m_pc (step st s (Main evs)) = MExited)
         /\ (forall more,
               (exit_distance s <= main_steps more)%nat ->
               let s' := run st more s in
               m_pc s' = MExited /\ shown s' = []
               /\ read (ctx s') = 0 /\ decoded (ctx s') = 0
               /\ filled (ctx s') = true /\ ended (ctx s') = true)))
  /\ (forall sched,
        let s := run st sched (init 0 true) in
        cursor s = 0%nat
        /\ (window_open s = true ->
            ended (ctx s) = false /\ w_pc s <> WReturned
            /\ m_pc s <> MExited)).
Proof.
  intros Hp Hy. split.
  - intros capacity sched Hcap Hfed s.
    assert (Hreach : reachable st capacity true s) by (now exists sched).
    assert (Hq : quiet s).
    { apply (quiet_run st capacity true sched (init capacity true));
        auto; [now exists [] |].
      unfold quiet. simpl. repeat split; auto; discriminate. }
    destruct Hq as (Hd & Hr & Hs & Hm).
    destruct (flags_inv_reachable _ _ _ _ Hreach) as (Hf & He & Hret & Hex & _).
    pose proof (worker_inv_reachable st capacity true s ltac:(lia) Hreach)
      as (_ & _ & _ & _ & Hnf & _).
    do 5 (split; [assumption|]). split.
    + intros Hx. destruct (Hex Hx) as [C|C]; [now left|].
      right. split; [|exact C]. apply Hf. now rewrite (Hret C).
    + intros Hn.
      destruct (short_path_run st capacity sched) as (_ & Hw);
        [lia | rewrite Hp; simpl; lia | rewrite length_reads, Hp; simpl; lia |].
      fold s in Hw.
      assert (Hfl : filled (ctx s) = true) by (apply Hf; now rewrite Hw).
      assert (Hen : ended (ctx s) = true) by (now apply He).
      assert (Hdr : drained s) by (unfold drained; repeat split; auto).
      do 3 (split; [assumption|]). split.
      * intros evs Hpc. simpl. unfold main_step.
        destruct Hpc as [E|E]; rewrite E.
        -- apply (tick_exits_iff evs s E). right. rewrite poll_ctx.
           split; congruence.
        -- unfold finish_test. now rewrite Hen.
      * intros more Hmore s'.
        destruct (run_distance st drained exit_distance is_main
                    (drained_step st) more s Hdr) as [Hdr' Hdist].
        fold (main_steps more) in Hdist. fold s' in Hdr', Hdist.
        destruct Hdr' as (_ & Hf' & He' & Hd' & Hr' & Hs' & Hm').
        assert (Hz : exit_distance s' = 0%nat) by lia.
        unfold exit_distance in Hz.
        destruct (m_pc s') eqn:E; try discriminate; try contradiction.
        now repeat split.
  - intros sched s.
    destruct (slotless_run st sched) as (_ & _ & Hc & _ & Hpc).
    fold s in Hc, Hpc. split; [exact Hc|]. intros Hw.
    assert (Hreach : reachable st 0 true s) by (now exists sched).
    destruct (flags_inv_reachable _ _ _ _ Hreach) as (_ & He & Hret & Hex & _).
    assert (Hnr : w_pc s <> WReturned).
    { intros E. rewrite E in Hpc. congruence. }
    assert (Hne : ended (ctx s) = false).
    { destruct (ended (ctx s)) eqn:E; [|reflexivity].
      now specialize (Hret eq_refl). }
    split; [exact Hne|]. split; [exact Hnr|].
    intros Hx. destruct (Hex Hx); congruence.
Qed.

(** An empty film at 25 frames per second. [main] looks at [filled] before
    the worker has started, and again when it is set; the worker returns
    before the first paced iteration, which leaves the loop. *)
Lemma empty_stream_leaves_without_drawing_witness :
  let sched := [Main []] ++ repeat Worker 5 ++ [Main []] ++ repeat Worker 2 in
  let s := run no_pictures sched (init 25 true) in
  let s' := step no_pictures s (Main [Resized]) in
  shown s = [] /\ w_pc s = WReturned
  /\ m_pc s' = MExited
  /\ m_pc (run no_pictures [MainLoads []; Main []] s) = MExited.
Proof.
  intros sched s s'.
  destruct (empty_stream_leaves_without_drawing no_pictures eq_refl eq_refl)
    as [H _].
  destruct (H 25 sched) as (Hs & _ & _ & _ & _ & _ & Hret).
  - unfold UINT_MODULUS. lia.
  - vm_compute. reflexivity.
  - fold s in Hs, Hret.
    destruct Hret as (Hw & _ & _ & Hstep & Hmore); [vm_compute; lia|].
    split; [exact Hs|]. split; [exact Hw|]. split.
    + apply Hstep. left. vm_compute. reflexivity.
    + apply Hmore. vm_compute. lia.
Defined.

End EmptyStreamClaim.

Section Selection.
Import Setup Pipeline Props Examples PipelineSpec.

Lemma frames_in_none (i : Z) (ps : list Packet) :
  Forall (fun p => yields_frame i p = false) ps -> frames_in i ps = 0.
Proof.
  induction 1 as [|p ps Hp _ IH]; simpl; [reflexivity|].
  now rewrite Hp, IH.
Qed.

(** X15: the index of the stream that [main] selected is not handed to the
    worker: [param.videoStreamIndex] is never assigned, and the worker
    compares the stream of every packet with 0. When the selected stream
    is not stream 0 and the film's packets all travel in it, nothing is
    ever decoded, however many frames the stream has to offer: with at
    least one slot the worker reads the file to its end in the priming
    loop and returns without a picture stored. *)
Theorem unselected_film_is_not_decoded (c : Container) (p : Params)
    (st : Stream) (sched : list Action) :
  main_setup c = Ready p ->
  p_videoStreamIndex p <> 0 ->
  Forall (fun pk => stream_index pk = p_videoStreamIndex p) (packets st) ->
  yields_frame 0 (eof_packet st) = false ->
  let s := run st sched (start p) in
  decoded (ctx s) = 0 /\ produced s = []
  /\ (1 <= p_bufferSize p ->
      (2 * length (reads st) + 5 <= worker_steps sched)%nat ->
      w_pc s = WReturned /\ cursor s = length (reads st)
      /\ ended (ctx s) = true).
Proof.
  intros Hready Hne Hall Hy s.
  assert (Hcap : 0 <= p_bufferSize p < UINT_MODULUS).
  { apply main_setup_ready in Hready
      as (_ & _ & _ & _ & _ & _ & _ & _ & H & _).
    unfold cast_unsigned in H.
    destruct ((0 <=? truncate (p_fps p))
              && (truncate (p_fps p) <? UINT_MODULUS)) eqn:Hr; [|discriminate].
    injection H as <-. apply andb_true_iff in Hr as [H0 H1].
    apply Z.leb_le in H0. apply Z.ltb_lt in H1. lia. }
  assert (Hnone : Forall (fun pk => yields_frame 0 pk = false) (packets st)).
  { eapply Forall_impl; [exact Hall|]. intros pk E. unfold yields_frame.
    assert (Hi : (stream_index pk =? 0) = false)
      by (apply Z.eqb_neq; congruence).
    now rewrite Hi. }
  assert (Hreach : reachable st (p_bufferSize p) true s) by (now exists sched).
  destruct (nothing_decoded st _ _ s Hnone Hy Hreach) as (_ & Hd & Hp).
  split; [exact Hd|]. split; [exact Hp|].
  intros Hslot Hn.
  destruct (short_path_run st (p_bufferSize p) sched Hcap) as ((_ & Hr & Hsp) & Hw);
    [rewrite (frames_in_none _ _ Hnone); lia | exact Hn |].
  fold s in Hr, Hsp, Hw.
  destruct (flags_inv_reachable _ _ _ _ Hreach) as (_ & He & _).
  split; [exact Hw|]. split; [|now apply He].
  rewrite Hw in Hsp. destruct (Hsp eq_refl) as (Hnz & _).
  destruct Hr as (_ & _ & Hcur & _).
  destruct Hcur as [[C _]|[_ Hc]]; [contradiction|].
  now rewrite length_reads.
Qed.

(** The film at 29.97 frames per second, its pictures in stream 1 behind
    the sound track: [main] selects stream 1; the worker reads the three
    packets and the end of the file, and stores nothing. *)
Lemma unselected_film_is_not_decoded_witness :
  let st := behind_sound [10; 11; 12] in
  exists p,
    main_setup ntsc_file = Ready p
    /\ p_videoStreamIndex p = 1
    /\ totalFramesAvailable st (p_videoStreamIndex p) = 3
    /\ (let s := run st (repeat Worker 13) (start p) in
        decoded (ctx s) = 0 /\ w_pc s = WReturned /\ cursor s = 4%nat).
Proof.
  intros st. eexists. split; [reflexivity|].
  split; [reflexivity|]. split; [reflexivity|].
  destruct (unselected_film_is_not_decoded ntsc_file _ st (repeat Worker 13)
              eq_refl) as (Hd & _ & H).
  - discriminate.
  - repeat constructor.
  - reflexivity.
  - destruct H as (Hw & Hc & _); [vm_compute; discriminate | vm_compute; lia|].
    split; [exact Hd|]. split; [exact Hw | exact Hc].
Defined.

End Selection.
